(** * The S3 call/log store of fn: key codec, dual write and cursor listing

    A shallow embedding of [api/logs/s3/s3.go] in two of its revisions:

    - the revision that flips call ids with [xorCursor] (a bytewise
      complement), in [Module Xor];
    - the later revision that flips them with [flipCursor], validates the
      filter and the listed keys, and filters on both time bounds, in
      [Module S3].

    Go strings are byte strings: they are modelled by [string], whose
    characters are the 256 values of [ascii], and compared with
    [String.compare], the bytewise lexicographic order S3 lists keys in. *)

From Stdlib Require Import ZArith NArith Ascii String List Lia Bool.
From Stdlib Require Import DecimalString.
From stdpp Require Import base tactics option list sorting strings gmap.

Local Open Scope string_scope.
Local Open Scope list_scope.
Local Open Scope nat_scope.

(* concatenation computes on its first argument, as in the Standard
   Library *)
#[local] Arguments String.append !_ _ / : simpl nomatch.

(** ** Byte strings *)

Module Bytes.

(** [map] over the bytes of a string. *)
Fixpoint smap (f : ascii → ascii) (s : string) : string :=
  match s with
  | EmptyString => EmptyString
  | String c s' => String (f c) (smap f s')
  end.

(** [s[:n]] when [n <= len(s)]; Go panics otherwise. *)
Fixpoint slice_to (n : nat) (s : string) : option string :=
  match n, s with
  | O, _ => Some EmptyString
  | S _, EmptyString => None
  | S n', String c s' => String c <$> slice_to n' s'
  end.

(** [strings.Split(s, sep)] for a one-byte separator: the fields between
    the separators, [len = 1 + number of separators]. *)
Fixpoint Split (sep : ascii) (s : string) : list string :=
  match s with
  | EmptyString => [EmptyString]
  | String c s' =>
      if Ascii.eqb c sep then EmptyString :: Split sep s'
      else match Split sep s' with
           | f :: fs => String c f :: fs
           | [] => [String c EmptyString]
           end
  end.

(** The byte [c] occurs in [s]. *)
Fixpoint contains (c : ascii) (s : string) : bool :=
  match s with
  | EmptyString => false
  | String d s' => Ascii.eqb d c || contains c s'
  end.

(** The number of bytes [c] in [s]. *)
Fixpoint count (c : ascii) (s : string) : nat :=
  match s with
  | EmptyString => 0
  | String d s' => (if Ascii.eqb d c then 1 else 0) + count c s'
  end.

Definition slt (a b : string) : Prop := String.compare a b = Lt.

Global Instance slt_dec a b : Decision (slt a b).
Proof. unfold slt. apply _. Defined.

End Bytes.

Import Bytes.

(** ** The revision with [xorCursor] *)

Module Xor.

Definition callKeyPrefix := "c/".
Definition callMarkerPrefix := "m/".

(** [cp[i] ^= 0xFF] *)
Definition xorByte (c : ascii) : ascii :=
  ascii_of_N (N.lxor (N_of_ascii c) 255).

(** [xorCursor]: every byte of the id is complemented. *)
Definition xorCursor (oid : string) : string := smap xorByte oid.

Definition callMarkerKey (app path id : string) : string :=
  let id := xorCursor id in
  callMarkerPrefix +:+ app +:+ "/" +:+ path +:+ "/" +:+ id.

Definition callKey (app id : string) : string :=
  let id := xorCursor id in
  callKeyPrefix +:+ app +:+ "/" +:+ id.

(** The prefix [GetCalls] of this revision lists under, [id] being the
    partial id of [FromTime] or empty. *)
Definition listPrefix (appID path id : string) : string :=
  if decide (path ≠ "") then callMarkerKey appID path id
  else callKey appID id.

(** The marker [GetCalls] of this revision lists after, for a cursor: it
    is still written in the key format of the revision before. *)
Definition listMarker (appID path cursor : string) : string :=
  if decide (cursor ≠ "") then
    let cursor := xorCursor cursor in
    if decide (path ≠ "")
    then "m:" +:+ appID +:+ ":" +:+ path +:+ ":" +:+ cursor
    else "s:" +:+ appID +:+ cursor
  else "".

End Xor.

(** ** The revision with [flipCursor] *)

Module S3.

Definition callKeyPrefix := "c/".
Definition callMarkerPrefix := "m/".
Definition logKeyPrefix := "l/".

(** *** [time.Time]

    An instant is the number of seconds since January 1 of year 1 and a
    nanosecond offset in [0, 999999999]; the zero [Time] is that origin. *)
Record Time := mkTime { sec : Z; nsec : Z }.

Global Instance Time_eq_dec : EqDecision Time.
Proof. solve_decision. Defined.

Definition unixToInternal : Z := 62135596800.

Definition IsZero (t : Time) : bool := (sec t =? 0)%Z && (nsec t =? 0)%Z.
Definition Unix (t : Time) : Z := (sec t - unixToInternal)%Z.
Definition Nanosecond (t : Time) : Z := nsec t.
Definition Before (t u : Time) : bool :=
  (sec t <? sec u)%Z || ((sec t =? sec u)%Z && (nsec t <? nsec u)%Z).

(** *** [models.Call] and [models.CallFilter], the fields the store reads *)
Record Call := mkCall {
  ID : string;
  AppID : string;
  Path : string;
  CreatedAt : Time;
  Payload : string;
}.

Global Instance Call_eq_dec : EqDecision Call.
Proof. solve_decision. Defined.

Record CallFilter := mkFilter {
  fPath : string;
  fAppID : string;
  FromTime : Time;
  ToTime : Time;
  Cursor : string;
  PerPage : Z;
}.

(** *** Errors *)
Inductive s3err : Type :=
  | AwsError (code : string)      (* an [awserr.Error] with its code *)
  | PlainError (msg : string).    (* any other error value *)

Global Instance s3err_eq_dec : EqDecision s3err.
Proof. solve_decision. Defined.

Definition ErrCodeNoSuchKey := "NoSuchKey".

Inductive error : Type :=
  | ErrListAcrossApps             (* "s3 store does not support listing
                                     across all apps" *)
  | ErrListLogs (cause : s3err)   (* "failed to list logs: %v" *)
  | ErrInvalidMarkerKey (key : string)  (* "invalid key in call markers: %v" *)
  | ErrInvalidCallKey (key : string)    (* "invalid key in calls: %v" *)
  | ErrCallNotFound               (* [models.ErrCallNotFound] *)
  | ErrReadLog (cause : s3err)    (* "failed to read log, %v" *)
  | ErrInsertCall (cause : s3err) (* "failed to insert call, %v" *)
  | ErrMarkerKey (cause : s3err)  (* "failed to write marker key for log, %v" *)
  | ErrJSON (msg : string).       (* an error of [encoding/json] *)

Inductive res (A : Type) : Type :=
  | Ok (a : A)
  | Fail (e : error).
Arguments Ok {A} a.
Arguments Fail {A} e.

Global Instance error_eq_dec : EqDecision error.
Proof. solve_decision. Defined.

Global Instance res_eq_dec {A} `{EqDecision A} : EqDecision (res A).
Proof. solve_decision. Defined.

(** A Go call either returns or panics (index or slice out of range). *)
Inductive outcome (A : Type) : Type :=
  | Ret (a : A)
  | Panic.
Arguments Ret {A} a.
Arguments Panic {A}.

Global Instance outcome_eq_dec {A} `{EqDecision A} : EqDecision (outcome A).
Proof. solve_decision. Defined.

(** *** The object store *)
Record ListObjectsInput := mkList {
  MaxKeys : Z;
  Marker : string;
  Prefix : string;
}.

(** What the store is asked, in order. *)
Inductive Op : Type :=
  | OpList (input : ListObjectsInput)
  | OpGet (key : string)
  | OpUpload (key body : string).

(** The reading side of the S3 client: each request is answered with a
    result or an error. *)
Record Backend := mkBackend {
  ListObjects : ListObjectsInput → s3err + list string;
  GetObject : string → s3err + string;
}.

(** A bucket at rest. *)
Definition sortedKeys (b : gmap string string) : list string :=
  merge_sort String.le (elements (dom b)).

Definition listed (input : ListObjectsInput) (k : string) : Prop :=
  String.prefix (Prefix input) k = true ∧ slt (Marker input) k.

Global Instance listed_dec input k : Decision (listed input k).
Proof. unfold listed, slt. apply _. Defined.

(** S3 lists, in ascending byte order, at most [MaxKeys] of the keys that
    start with [Prefix] and come strictly after [Marker] (the limit of 1000
    keys that S3 itself puts on a page is left out). *)
Definition bucketList (b : gmap string string) (input : ListObjectsInput)
  : list string :=
  take (Z.to_nat (MaxKeys input)) (filter (listed input) (sortedKeys b)).

(** The keys of the bucket under a prefix, in listing order. *)
Definition keysUnder (b : gmap string string) (prefix : string)
  : list string :=
  filter (λ k, String.prefix prefix k = true) (sortedKeys b).

Definition bucketBackend (b : gmap string string) : Backend :=
  {| ListObjects input := inr (bucketList b input);
     GetObject key :=
       match b !! key with
       | Some body => inr body
       | None => inl (AwsError ErrCodeNoSuchKey)
       end |}.

(** *** [base64.RawURLEncoding] *)
Definition encodeURL : string :=
  "ABCDEFGHIJKLMNOPQRSTUVWXYZabcdefghijklmnopqrstuvwxyz0123456789-_".

Definition enc64 (v : N) : ascii :=
  match String.get (N.to_nat (N.land v 63)) encodeURL with
  | Some c => c
  | None => "A"%char
  end.

Fixpoint EncodeToString (src : string) : string :=
  match src with
  | String a (String b (String c rest)) =>
      let val := N.lor (N.lor (N.shiftl (N_of_ascii a) 16)
                              (N.shiftl (N_of_ascii b) 8)) (N_of_ascii c) in
      String (enc64 (N.shiftr val 18)) (String (enc64 (N.shiftr val 12))
        (String (enc64 (N.shiftr val 6)) (String (enc64 val)
          (EncodeToString rest))))
  | String a (String b EmptyString) =>
      let val := N.lor (N.shiftl (N_of_ascii a) 16)
                       (N.shiftl (N_of_ascii b) 8) in
      String (enc64 (N.shiftr val 18)) (String (enc64 (N.shiftr val 12))
        (String (enc64 (N.shiftr val 6)) EmptyString))
  | String a EmptyString =>
      let val := N.shiftl (N_of_ascii a) 16 in
      String (enc64 (N.shiftr val 18))
        (String (enc64 (N.shiftr val 12)) EmptyString)
  | EmptyString => EmptyString
  end.

(** The place of a character in an alphabet, as the decoding map of an
    encoding has it (the length of the alphabet for a character that is
    not in it). *)
Fixpoint decodeMap (c : ascii) (alphabet : string) : nat :=
  match alphabet with
  | EmptyString => 0
  | String d s' => if Ascii.eqb d c then 0 else S (decodeMap c s')
  end.

(** *** [id.Id]

    An [id.Id] is an array of 16 bytes: [GetCalls] writes the time into the
    first six of them and notes that ids take at most 16 bytes. *)

(** [var rid id.Id; copy(rid[:], s)]: the first 16 bytes of [s], padded
    with zero bytes. *)
Fixpoint copyInto (n : nat) (s : string) : string :=
  match n with
  | O => EmptyString
  | S n' =>
      match s with
      | EmptyString => String zero (copyInto n' EmptyString)
      | String c s' => String c (copyInto n' s')
      end
  end.

Definition byte (v : Z) : ascii := ascii_of_N (Z.to_N (v mod 256)).

Definition uint64 (v : Z) : Z := (v mod 2 ^ 64)%Z.

(** The id buffer [GetCalls] fills from a time: the milliseconds since the
    Unix epoch, big endian, in the first six bytes. *)
Definition timeId (t : Time) : string :=
  let ms := uint64 (uint64 (Unix t * 1000)
                    + uint64 (Z.quot (Nanosecond t) 1000000)) in
  String (byte (Z.shiftr ms 40)) (String (byte (Z.shiftr ms 32))
    (String (byte (Z.shiftr ms 24)) (String (byte (Z.shiftr ms 16))
      (String (byte (Z.shiftr ms 8)) (String (byte ms)
        (copyInto 10 EmptyString)))))).

(** The last [n] bytes of a number, the most significant first: the bytes
    [byte(ms >> 40)], ..., [byte(ms)] that [GetCalls] writes for [n = 6]. *)
Fixpoint bigEndianBytes (n : nat) (v : Z) : string :=
  match n with
  | O => EmptyString
  | S n' => String (byte (Z.shiftr v (8 * Z.of_nat n'))) (bigEndianBytes n' v)
  end.

Section Store.

(** Package [api/id] is not part of the sources at hand: the two methods
    of [id.Id] that the store calls, [MarshalDescending] and [String], are
    parameters of the model. *)
Variable MarshalDescending : string → string.
Variable IdString : string → string.

(** [encoding/json] on [models.Call]. *)
Variable jsonMarshal : Call → res string.
Variable jsonUnmarshal : string → res Call.

Definition flipCursor (oid : string) : outcome string :=
  if decide (oid = "") then Ret ""
  else
    let rid := copyInto 16 oid in
    match slice_to (String.length oid) (MarshalDescending rid) with
    | Some s => Ret s
    | None => Panic
    end.

Definition callKeyFlipped (app id : string) : string :=
  callKeyPrefix +:+ app +:+ "/" +:+ id.

Definition callMarkerKey (app path id : string) : outcome string :=
  match flipCursor id with
  | Panic => Panic
  | Ret id =>
      let path := EncodeToString path in
      Ret (callMarkerPrefix +:+ app +:+ "/" +:+ path +:+ "/" +:+ id)
  end.

Definition callKey (app id : string) : outcome string :=
  match flipCursor id with
  | Panic => Panic
  | Ret id => Ret (callKeyFlipped app id)
  end.

Definition logKey (appID callID : string) : string :=
  logKeyPrefix +:+ appID +:+ "/" +:+ callID.

(** *** [InsertCall] *)

(** The writing side: [Upload key body] is the error of the upload, if it
    fails; a successful upload stores the object. *)
Definition InsertCall (Upload : string → string → option s3err)
    (b : gmap string string) (call : Call)
  : outcome (gmap string string * list Op * option error) :=
  match jsonMarshal call with
  | Fail err => Ret (b, [], Some err)
  | Ok byts =>
      match callKey (AppID call) (ID call) with
      | Panic => Panic
      | Ret objectName =>
          match Upload objectName byts with
          | Some err =>
              Ret (b, [OpUpload objectName byts], Some (ErrInsertCall err))
          | None =>
              let b1 := <[objectName := byts]> b in
              match callMarkerKey (AppID call) (Path call) (ID call) with
              | Panic => Panic
              | Ret markerName =>
                  let ops := [OpUpload objectName byts;
                              OpUpload markerName ""] in
                  match Upload markerName "" with
                  | Some err => Ret (b1, ops, Some (ErrMarkerKey err))
                  | None => Ret (<[markerName := ""]> b1, ops, None)
                  end
              end
          end
      end
  end.

(** The bucket after the calls of [calls] have been inserted in turn,
    whatever each insert returned. *)
Definition insertAll (Upload : string → string → option s3err)
    (calls : list Call) (b : gmap string string) : gmap string string :=
  fold_left (λ b c,
      match InsertCall Upload b c with
      | Ret (b', _, _) => b'
      | Panic => b
      end) calls b.

(** *** [GetCall] and [getCallByKey] *)
Definition getCallByKey (be : Backend) (key : string) : res Call :=
  match GetObject be key with
  | inl err =>
      match err with
      | AwsError code =>
          if decide (code = ErrCodeNoSuchKey) then Fail ErrCallNotFound
          else Fail (ErrReadLog err)
      | PlainError _ => Fail (ErrReadLog err)
      end
  | inr body => jsonUnmarshal body
  end.

Definition GetCall (be : Backend) (appID callID : string)
  : outcome (res Call) :=
  match callKey appID callID with
  | Panic => Panic
  | Ret objectName => Ret (getCallByKey be objectName)
  end.

(** *** [GetCalls] *)

(** The first step of the loop body: the app and the (still flipped) id of
    a listed key, an error for a key with the wrong number of fields. In
    the namespace of calls the fields are indexed before their number is
    checked. *)
Definition decodeKey (filter : CallFilter) (key : string)
  : outcome (res (string * string)) :=
  let fields := Split "/" key in
  if decide (fPath filter ≠ "") then
    if decide (length fields ≠ 4) then Ret (Fail (ErrInvalidMarkerKey key))
    else
      match fields !! 1, fields !! 3 with
      | Some app, Some id => Ret (Ok (app, id))
      | _, _ => Panic
      end
  else
    match fields !! 1, fields !! 2 with
    | Some app, Some id =>
        if decide (length fields ≠ 3) then Ret (Fail (ErrInvalidCallKey key))
        else Ret (Ok (app, id))
    | _, _ => Panic
    end.

(** The number of fields of a key of the namespace the filter lists, and
    the error for a key with another number of fields. *)
Definition fieldCount (filter : CallFilter) : nat :=
  if decide (fPath filter ≠ "") then 4 else 3.

Definition invalidKey (filter : CallFilter) (key : string) : error :=
  if decide (fPath filter ≠ "") then ErrInvalidMarkerKey key
  else ErrInvalidCallKey key.

(** The root of the namespace the filter lists: the prefix of the listing
    when no partial id narrows it. *)
Definition namespaceRoot (filter : CallFilter) : string :=
  if decide (fPath filter ≠ "")
  then callMarkerPrefix +:+ fAppID filter +:+ "/"
       +:+ EncodeToString (fPath filter) +:+ "/"
  else callKeyPrefix +:+ fAppID filter +:+ "/".

Definition tick {A} (op : Op) (r : list Op * A) : list Op * A :=
  (op :: r.1, r.2).

(** The loop over the listed keys: the gets it issues and what [GetCalls]
    returns, [calls] being the calls gathered so far. *)
Fixpoint scan (be : Backend) (filter : CallFilter) (keys : list string)
    (calls : list Call)
  : list Op * outcome (list Call * option error) :=
  match keys with
  | [] => ([], Ret (calls, None))
  | key :: rest =>
      match decodeKey filter key with
      | Panic => ([], Panic)
      | Ret (Fail err) => ([], Ret (calls, Some err))
      | Ret (Ok (app, id)) =>
          let objectName := callKeyFlipped app id in
          match getCallByKey be objectName with
          | Fail _ => tick (OpGet objectName) (scan be filter rest calls)
          | Ok call =>
              if negb (IsZero (FromTime filter))
                 && Before (CreatedAt call) (FromTime filter)
              then tick (OpGet objectName) (scan be filter rest calls)
              else if negb (IsZero (ToTime filter))
                      && negb (Before (CreatedAt call) (ToTime filter))
              then ([OpGet objectName], Ret (calls, None))
              else tick (OpGet objectName)
                        (scan be filter rest (calls ++ [call]))
          end
      end
  end.

(** The partial id that narrows the listing when [FromTime] is set. *)
Definition timePrefix (filter : CallFilter) : outcome string :=
  if negb (IsZero (FromTime filter)) then
    match slice_to 10 (IdString (timeId (FromTime filter))) with
    | Some mid => Ret mid
    | None => Panic
    end
  else Ret "".

Definition listPrefix (filter : CallFilter) : outcome string :=
  match timePrefix filter with
  | Panic => Panic
  | Ret mid =>
      match callKey (fAppID filter) mid with
      | Panic => Panic
      | Ret prefix =>
          if decide (fPath filter ≠ "")
          then callMarkerKey (fAppID filter) (fPath filter) mid
          else Ret prefix
      end
  end.

Definition listMarker (filter : CallFilter) : outcome string :=
  if decide (Cursor filter ≠ "") then
    match callKey (fAppID filter) (Cursor filter) with
    | Panic => Panic
    | Ret marker =>
        if decide (fPath filter ≠ "")
        then callMarkerKey (fAppID filter) (fPath filter) (Cursor filter)
        else Ret marker
    end
  else Ret "".

Definition GetCalls (be : Backend) (filter : CallFilter)
  : list Op * outcome (list Call * option error) :=
  if decide (fAppID filter = "") then ([], Ret ([], Some ErrListAcrossApps))
  else
    match listPrefix filter with
    | Panic => ([], Panic)
    | Ret prefix =>
        match listMarker filter with
        | Panic => ([], Panic)
        | Ret marker =>
            let input := {| MaxKeys := PerPage filter;
                            Marker := marker;
                            Prefix := prefix |} in
            match ListObjects be input with
            | inl err => ([OpList input], Ret ([], Some (ErrListLogs err)))
            | inr contents => tick (OpList input) (scan be filter contents [])
            end
        end
    end.

(** *** Reading the loop

    [through] tells whether the loop of [GetCalls] runs past every key of
    [keys] (no return from inside the loop, no panic) and with which
    calls gathered; [recordAt] is the call the loop fetches for a key. *)
Fixpoint through (be : Backend) (filter : CallFilter) (keys : list string)
    (calls : list Call) : option (list Call) :=
  match keys with
  | [] => Some calls
  | key :: rest =>
      match decodeKey filter key with
      | Ret (Ok (app, id)) =>
          match getCallByKey be (callKeyFlipped app id) with
          | Fail _ => through be filter rest calls
          | Ok call =>
              if negb (IsZero (FromTime filter))
                 && Before (CreatedAt call) (FromTime filter)
              then through be filter rest calls
              else if negb (IsZero (ToTime filter))
                      && negb (Before (CreatedAt call) (ToTime filter))
              then None
              else through be filter rest (calls ++ [call])
          end
      | _ => None
      end
  end.

Definition recordAt (be : Backend) (filter : CallFilter) (key : string)
  : option Call :=
  match decodeKey filter key with
  | Ret (Ok (app, id)) =>
      match getCallByKey be (callKeyFlipped app id) with
      | Ok call => Some call
      | Fail _ => None
      end
  | _ => None
  end.

Definition withCursor (filter : CallFilter) (cursor : string) : CallFilter :=
  {| fPath := fPath filter; fAppID := fAppID filter;
     FromTime := FromTime filter; ToTime := ToTime filter;
     Cursor := cursor; PerPage := PerPage filter |}.

Definition withPerPage (filter : CallFilter) (n : Z) : CallFilter :=
  {| fPath := fPath filter; fAppID := fAppID filter;
     FromTime := FromTime filter; ToTime := ToTime filter;
     Cursor := Cursor filter; PerPage := n |}.

(** A client that pages through a listing: it calls [GetCalls], and as
    long as a page holds calls it calls again with the id of the last call
    of the page as cursor. [None]: an error, a panic, or more than [fuel]
    pages. *)
Fixpoint paginate (fuel : nat) (be : Backend) (filter : CallFilter)
    (cursor : string) : option (list Call) :=
  match fuel with
  | O => None
  | S fuel' =>
      match (GetCalls be (withCursor filter cursor)).2 with
      | Ret (calls, None) =>
          match last calls with
          | None => Some []
          | Some c => (calls ++.) <$> paginate fuel' be filter (ID c)
          end
      | _ => None
      end
  end.

(** A listed key is well keyed when the loop finds its call, and the id of
    that call, used as a cursor, leads back to the key. *)
Definition wellKeyed (be : Backend) (filter : CallFilter) (key : string)
  : Prop :=
  match recordAt be filter key with
  | Some c => ID c ≠ "" ∧ listMarker (withCursor filter (ID c)) = Ret key
  | None => False
  end.

Global Instance wellKeyed_dec be filter key :
  Decision (wellKeyed be filter key).
Proof. unfold wellKeyed. destruct (recordAt be filter key); apply _. Defined.

(** *** Buckets of inserted calls

    A call is fit for the store when its id is not empty, its app and its
    flipped id hold no slash, and its serialization reads back as the
    call. *)
Definition validCall (c : Call) : Prop :=
  match jsonMarshal c, flipCursor (ID c) with
  | Ok byts, Ret x =>
      jsonUnmarshal byts = Ok c ∧ ID c ≠ ""
      ∧ contains "/" (AppID c) = false ∧ contains "/" x = false
  | _, _ => False
  end.

Global Instance validCall_dec c : Decision (validCall c).
Proof.
  unfold validCall. destruct (jsonMarshal c), (flipCursor (ID c)); apply _.
Defined.

Definition markerKeyFlipped (app path64 id : string) : string :=
  callMarkerPrefix +:+ app +:+ "/" +:+ path64 +:+ "/" +:+ id.

(** The record at the primary key of [(app, x)] is a call whose id flips
    to [x]. *)
Definition primaryOk (b : gmap string string) (app x : string) : Prop :=
  ∃ body c, b !! callKeyFlipped app x = Some body
            ∧ jsonUnmarshal body = Ok c
            ∧ ID c ≠ ""
            ∧ flipCursor (ID c) = Ret x.

(** A key of the bucket is a primary key or a marker key of slash-free
    fields, and its record is there. *)
Definition keyOk (b : gmap string string) (k : string) : Prop :=
  (∃ app x, k = callKeyFlipped app x
            ∧ contains "/" app = false ∧ contains "/" x = false
            ∧ primaryOk b app x)
  ∨ (∃ app p x, k = markerKeyFlipped app p x
                ∧ contains "/" app = false ∧ contains "/" p = false
                ∧ contains "/" x = false
                ∧ primaryOk b app x).

Definition bucketOk (b : gmap string string) : Prop :=
  ∀ k, is_Some (b !! k) → keyOk b k.

End Store.

End S3.

(** ** Instances for the examples *)

Module Sample.
Import S3.

(** Modelled from the spec: [id.Id.MarshalDescending] of package [api/id],
    which is not among the sources. The spec has the descending encoding
    as "a reversible, order-reversing, length-preserving byte transform
    (e.g., bytewise complement)": the 16 bytes of the id, complemented. *)
Definition MarshalDescending (rid : string) : string := Xor.xorCursor rid.

Definition crockford : string := "0123456789ABCDEFGHJKMNPQRSTVWXYZ".

Definition enc32 (v : N) : ascii :=
  match String.get (N.to_nat (N.land v 31)) crockford with
  | Some c => c
  | None => "0"%char
  end.

Definition bigEndian (s : string) : N :=
  fold_left (λ acc c, (acc * 256 + N_of_ascii c)%N)
            (list_ascii_of_string s) 0%N.

Fixpoint base32 (n : nat) (v : N) : string :=
  match n with
  | O => EmptyString
  | S n' => String (enc32 (N.shiftr v (5 * N.of_nat n'))) (base32 n' v)
  end.

(** Modelled from the spec: [id.Id.String] of package [api/id], which is
    not among the sources. The spec has ids of a fixed length whose
    leading part carries the creation time; the comments of the store give
    their text, 26 characters of Crockford base 32 such as
    [01C860Z3M9A7WHJ00000000000], the first 10 of them for the 48 bits of
    the time. *)
Definition IdString (rid : string) : string := base32 26 (bigEndian rid).

(** A stand-in for [encoding/json]: the fields of the call, separated by
    bars. An empty body does not parse. *)
Definition showZ (z : Z) : string := NilZero.string_of_int (Z.to_int z).
Definition readZ (s : string) : option Z :=
  Z.of_int <$> NilZero.int_of_string s.

Definition jsonMarshal (c : Call) : res string :=
  Ok (ID c +:+ "|" +:+ AppID c +:+ "|" +:+ Path c +:+ "|"
      +:+ showZ (sec (CreatedAt c)) +:+ "|" +:+ showZ (nsec (CreatedAt c))
      +:+ "|" +:+ Payload c).

Definition jsonUnmarshal (body : string) : res Call :=
  match Split "|" body with
  | [i; a; p; s; n; pl] =>
      match readZ s, readZ n with
      | Some s, Some n => Ok (mkCall i a p (mkTime s n) pl)
      | _, _ => Fail (ErrJSON "invalid character")
      end
  | _ => Fail (ErrJSON "unexpected end of JSON input")
  end.

Definition callKey := S3.callKey MarshalDescending.
Definition GetCalls := S3.GetCalls MarshalDescending IdString jsonUnmarshal.
Definition InsertCall := S3.InsertCall MarshalDescending jsonMarshal.
Definition paginate := S3.paginate MarshalDescending IdString jsonUnmarshal.

(** Every upload succeeds. *)
Definition uploadOk (key body : string) : option s3err := None.

(** The bucket after the calls of [calls] have been inserted in turn. *)
Definition inserted (calls : list Call) : gmap string string :=
  S3.insertAll MarshalDescending jsonMarshal uploadOk calls ∅.

(** 2018-03-09 18:39:28.905 UTC, the time in the id
    [01C860Z3M9A7WHJ00000000000], and instants around it. *)
Definition t0 : Time := mkTime (unixToInternal + 1520620768) 905000000.
Definition at_ms (ms : Z) : Time :=
  mkTime (unixToInternal + 1520620768) (905000000 + ms * 1000000).

Definition noTime : Time := mkTime 0 0.

(** Three calls of app [a1], the newest last. *)
Definition call1 : Call := mkCall "00000001" "a1" "/f" t0 "one".
Definition call2 : Call := mkCall "00000002" "a1" "/f" (at_ms 5) "two".
Definition call3 : Call := mkCall "00000003" "a1" "/g" (at_ms 7) "three".
Definition bucket3 : gmap string string := inserted [call1; call2; call3].

(** The primary key of a call, its id complemented. *)
Definition key_of (c : Call) : string :=
  callKeyFlipped (AppID c) (Xor.xorCursor (ID c)).

Definition listAll : CallFilter := mkFilter "" "a1" noTime noTime "" 10.
Definition listPath : CallFilter := mkFilter "/f" "a1" noTime noTime "" 10.
Definition listPaged : CallFilter := mkFilter "" "a1" noTime noTime "" 2.
Definition listFrom : CallFilter := mkFilter "" "a1" (at_ms 6) noTime "" 10.
Definition listTo : CallFilter := mkFilter "" "a1" noTime (at_ms 6) "" 10.

(** A call made one millisecond after [t0]; its id starts with the ten
    characters of that time. *)
Definition late : Call := mkCall "01C860Z3MA000001" "a1" "/f" (at_ms 1) "late".
Definition bucketLate : gmap string string := inserted [late].
Definition sinceT0 : CallFilter := mkFilter "" "a1" t0 noTime "" 10.

(** A bucket with a key of four fields under the prefix of the calls of
    app [a1], listed after the key of [call3]. *)
Definition badKey : string :=
  callKeyFlipped "a1" (Xor.xorCursor "--" +:+ "/x").
Definition bucketBad : gmap string string :=
  <[badKey := "x"]> (inserted [call3]).

(** Two calls whose ids carry the time [t0]; the one with the greater id
    was created a millisecond before [t0]. *)
Definition early : Call :=
  mkCall "01C860Z3M9000002" "a1" "/f" (at_ms (-1)) "early".
Definition onTime : Call := mkCall "01C860Z3M9000001" "a1" "/f" t0 "on time".
Definition bucketSkew : gmap string string := inserted [onTime; early].
Definition sinceT0Paged : CallFilter := mkFilter "" "a1" t0 noTime "" 1.

Definition listNoApp : CallFilter := mkFilter "" "" noTime noTime "" 10.

(** The primary upload fails. *)
Definition uploadDown (key body : string) : option s3err :=
  Some (PlainError "connection refused").

End Sample.

(** ** Opening a store: [New] *)

Module Setup.

(** The text before and after the first [sep] of [s], if there is one. *)
Fixpoint cut (sep : ascii) (s : string) : option (string * string) :=
  match s with
  | EmptyString => None
  | String c s' =>
      if Ascii.eqb c sep then Some (EmptyString, s')
      else match cut sep s' with
           | Some (a, rest) => Some (String c a, rest)
           | None => None
           end
  end.

(** [strings.SplitN(s, sep, n)] for a one-byte separator and [n >= 0]: at
    most [n] fields, the last one the unsplit rest. *)
Fixpoint SplitN (sep : ascii) (n : nat) (s : string) : list string :=
  match n with
  | 0 => []
  | 1 => [s]
  | S n' =>
      match cut sep s with
      | None => [s]
      | Some (a, rest) => a :: SplitN sep n' rest
      end
  end.

(** [url.URL], the parts [New] reads: [User] is the user name and the
    password (empty when there is none). *)
Record URL := mkURL {
  Host : string;
  User : option (string * string);
  UPath : string;
  Query : gmap string (list string);
}.

(** [url.Values.Get]: the first value of the key, or the empty string. *)
Definition Get (q : gmap string (list string)) (key : string) : string :=
  match q !! key with
  | Some (v :: _) => v
  | _ => ""
  end.

(** The configuration [createStore] builds its clients from, and the
    bucket of the store. *)
Record store := mkStore {
  bucket : string;
  endpoint : string;
  region : string;
  accessKeyID : string;
  secretAccessKey : string;
  disableSSL : bool;
  forcePathStyle : bool;
}.

Definition createStore (bucketName endpoint region accessKeyID
    secretAccessKey : string) (useSSL : bool) : store :=
  {| bucket := bucketName; endpoint := endpoint; region := region;
     accessKeyID := accessKeyID; secretAccessKey := secretAccessKey;
     disableSSL := negb useSSL; forcePathStyle := true |}.

(** What [CreateBucket] can fail with. *)
Inductive createErr : Type :=
  | AwsErr (code message : string)   (* an [awserr.Error] *)
  | OtherErr (text : string).        (* any other error *)

Definition ErrCodeBucketAlreadyOwnedByYou := "BucketAlreadyOwnedByYou".
Definition ErrCodeBucketAlreadyExists := "BucketAlreadyExists".

Inductive newError : Type :=
  | ErrNoBucketRegion    (* "must provide bucket name and region in path" *)
  | ErrEmptyRegion       (* "must provide non-empty region in path" *)
  | ErrEmptyBucket       (* "must provide non-empty bucket name in path" *)
  | ErrCreateBucket (bucketName message : string)
                         (* "failed to create bucket %s: %s" *)
  | ErrUnexpected (bucketName text : string).
                         (* "unexpected error creating bucket %s: %s" *)

(** [New]: the buckets it asks the store to create, and the store or the
    error it returns. *)
Definition New (CreateBucket : string → option createErr) (u : URL)
  : list string * (newError + store) :=
  let endpoint := Host u in
  let '(accessKeyID, secretAccessKey) :=
    match User u with
    | Some (name, pass) => (name, pass)
    | None => ("", "")
    end in
  let useSSL := bool_decide (Get (Query u) "ssl" = "true") in
  let strs := SplitN "/" 3 (UPath u) in
  match strs with
  | [_; region; bucketName] =>
      if decide (region = "") then ([], inl ErrEmptyRegion)
      else if decide (bucketName = "") then ([], inl ErrEmptyBucket)
      else
        let store := createStore bucketName endpoint region accessKeyID
                                 secretAccessKey useSSL in
        match CreateBucket bucketName with
        | Some (AwsErr code message) =>
            if decide (code = ErrCodeBucketAlreadyOwnedByYou
                       ∨ code = ErrCodeBucketAlreadyExists)
            then ([bucketName], inr store)
            else ([bucketName], inl (ErrCreateBucket bucketName message))
        | Some (OtherErr text) =>
            ([bucketName], inl (ErrUnexpected bucketName text))
        | None => ([bucketName], inr store)
        end
  | _ => ([], inl ErrNoBucketRegion)
  end.

(** [CreateBucket] went well enough for [New]: no error, or the bucket is
    there already. *)
Definition tolerated (r : option createErr) : Prop :=
  match r with
  | None => True
  | Some (AwsErr code _) =>
      code = ErrCodeBucketAlreadyOwnedByYou
      ∨ code = ErrCodeBucketAlreadyExists
  | Some (OtherErr _) => False
  end.

Global Instance tolerated_dec r : Decision (tolerated r).
Proof. destruct r as [[]|]; apply _. Defined.

End Setup.

(** ** Logs: [countingReader], [InsertLog], [GetLog] *)

Module Logs.
Import S3.

(** The first [n] bytes of [s], and the rest. *)
Fixpoint stake (n : nat) (s : string) : string :=
  match n, s with
  | S n', String c s' => String c (stake n' s')
  | _, _ => EmptyString
  end.

Fixpoint sdrop (n : nat) (s : string) : string :=
  match n, s with
  | S n', String _ s' => sdrop n' s'
  | _, _ => s
  end.

(** An [int], 64 bits wide. *)
Definition int (z : Z) : Z := ((z + 2 ^ 63) mod 2 ^ 64 - 2 ^ 63)%Z.

(** An [io.Reader] with states of type [R]: [Read] into a buffer of [n]
    bytes gives the bytes read, an error or none, and the next state. *)
Definition Reader (R : Type) : Type := R → nat → string * option string * R.

(** [bytes.Reader]: the state is what is left to read. *)
Definition bytesRead : Reader string :=
  λ s n,
    if decide (s = "") then ("", Some "EOF", s)
    else (stake n s, None, sdrop n s).

Section Counting.

Context {R : Type} (read : Reader R).

Record countingReader := mkCounting { r : R; count : Z }.

(** [countingReader.Read] *)
Definition Read (cr : countingReader) (n : nat)
  : string * option string * countingReader :=
  let '(bs, err, r') := read (r cr) n in
  (bs, err,
   {| r := r'; count := int (count cr + Z.of_nat (String.length bs)) |}).

(** A consumer that reads into a buffer of [n] bytes until the reader
    returns an error ([io.EOF] at the end), at most [fuel] times. *)
Fixpoint drain (fuel n : nat) (cr : countingReader)
  : string * option string * countingReader :=
  match fuel with
  | O => ("", None, cr)
  | S fuel' =>
      let '(bs, err, cr') := Read cr n in
      match err with
      | Some e => (bs, Some e, cr')
      | None =>
          let '(rest, err', cr'') := drain fuel' n cr' in
          (bs +:+ rest, err', cr'')
      end
  end.

(** Any consumer of the reader: one [Read] for each buffer size of [ns],
    whatever the reads return. The result is the chunks read and the
    reader after them. *)
Fixpoint readAll (ns : list nat) (cr : countingReader)
  : list string * countingReader :=
  match ns with
  | [] => ([], cr)
  | n :: ns' =>
      let '(bs, _, cr') := Read cr n in
      let '(chunks, cr'') := readAll ns' cr' in
      (bs :: chunks, cr'')
  end.

End Counting.

Definition logKey (appID callID : string) : string :=
  logKeyPrefix +:+ appID +:+ "/" +:+ callID.

Inductive logError : Type :=
  | ErrCallLogNotFound            (* [models.ErrCallLogNotFound] *)
  | ErrWriteLog (cause : s3err)   (* "failed to write log, %v" *)
  | ErrReadLog (cause : s3err).   (* "failed to read log, %v" *)

(** [InsertLog]. The uploader reads the body, the counting reader around
    [callLog], to its end through a buffer of [chunk] bytes; [callLog] is
    a reader over the given bytes. The result is the bucket, the upload
    asked for, the size recorded for the statistics (on success) and the
    error. *)
Definition InsertLog (Upload : string → string → option s3err) (chunk : nat)
    (b : gmap string string) (appID callID callLog : string)
  : gmap string string * list Op * option Z * option logError :=
  let cr := {| r := callLog; count := 0 |} in
  let objectName := logKey appID callID in
  let '(body, _, cr') := drain bytesRead (S (String.length callLog)) chunk cr in
  match Upload objectName body with
  | Some err => (b, [OpUpload objectName body], None, Some (ErrWriteLog err))
  | None =>
      (<[objectName := body]> b, [OpUpload objectName body],
       Some (count cr'), None)
  end.

(** [GetLog]: the log or the error, and the size recorded for the
    statistics. *)
Definition GetLog (be : Backend) (appID callID : string)
  : (logError + string) * option Z :=
  let objectName := logKey appID callID in
  match GetObject be objectName with
  | inl err =>
      match err with
      | AwsError code =>
          if decide (code = ErrCodeNoSuchKey) then (inl ErrCallLogNotFound, None)
          else (inl (ErrReadLog err), None)
      | PlainError _ => (inl (ErrReadLog err), None)
      end
  | inr body => (inr body, Some (Z.of_nat (String.length body)))
  end.

End Logs.

(** ** The store of the revision with [xorCursor] *)

Module XorStore.
Import S3.

(** The six bytes [GetCalls] fills from a time: the milliseconds since the
    Unix epoch, big endian. *)
Definition timeBytes (t : Time) : string :=
  let ms := uint64 (uint64 (Unix t * 1000)
                    + uint64 (Z.quot (Nanosecond t) 1000000)) in
  String (byte (Z.shiftr ms 40)) (String (byte (Z.shiftr ms 32))
    (String (byte (Z.shiftr ms 24)) (String (byte (Z.shiftr ms 16))
      (String (byte (Z.shiftr ms 8)) (String (byte ms) EmptyString))))).

Section Store.

Variable jsonMarshal : Call → res string.
Variable jsonUnmarshal : string → res Call.

Definition InsertCall (Upload : string → string → option s3err)
    (b : gmap string string) (call : Call)
  : gmap string string * list Op * option error :=
  match jsonMarshal call with
  | Fail err => (b, [], Some err)
  | Ok byts =>
      let objectName := Xor.callKey (AppID call) (ID call) in
      match Upload objectName byts with
      | Some err => (b, [OpUpload objectName byts], Some (ErrInsertCall err))
      | None =>
          let b1 := <[objectName := byts]> b in
          let markerName :=
            Xor.callMarkerKey (AppID call) (Path call) (ID call) in
          let ops := [OpUpload objectName byts; OpUpload markerName ""] in
          match Upload markerName "" with
          | Some err => (b1, ops, Some (ErrMarkerKey err))
          | None => (<[markerName := ""]> b1, ops, None)
          end
      end
  end.

(** [GetCall]: the download and the decoding are those of [getCallByKey]
    of the later revision. *)
Definition GetCall (be : Backend) (appID callID : string) : res Call :=
  getCallByKey jsonUnmarshal be (Xor.callKey appID callID).

(** The partial id of [FromTime], flipped once here and once more by
    [callKey]. *)
Definition timePrefix (filter : CallFilter) : string :=
  if negb (IsZero (FromTime filter))
  then Xor.xorCursor (timeBytes (FromTime filter))
  else "".

(** The app and the id the loop takes from a listed key, split at the
    colons; the fields are indexed without a check of their number. *)
Definition keyFields (filter : CallFilter) (key : string)
  : outcome (string * string) :=
  let fields := Split ":" key in
  if decide (fPath filter ≠ "") then
    match fields !! 1, fields !! 3 with
    | Some app, Some id => Ret (app, id)
    | _, _ => Panic
    end
  else
    match fields !! 1, fields !! 2 with
    | Some app, Some id => Ret (app, id)
    | _, _ => Panic
    end.

Fixpoint scan (be : Backend) (filter : CallFilter) (keys : list string)
    (calls : list Call)
  : list Op * outcome (list Call * option error) :=
  match keys with
  | [] => ([], Ret (calls, None))
  | key :: rest =>
      match keyFields filter key with
      | Panic => ([], Panic)
      | Ret (app, id) =>
          (* we have to flip the bits back in order to use GetCall *)
          let id := Xor.xorCursor id in
          let op := OpGet (Xor.callKey app id) in
          match GetCall be app id with
          | Fail _ => tick op (scan be filter rest calls)
          | Ok call =>
              if negb (IsZero (ToTime filter))
                 && negb (Before (CreatedAt call) (ToTime filter))
              then ([op], Ret (calls, None))
              else tick op (scan be filter rest (calls ++ [call]))
          end
      end
  end.

Definition GetCalls (be : Backend) (filter : CallFilter)
  : list Op * outcome (list Call * option error) :=
  let id := timePrefix filter in
  let prefix := Xor.listPrefix (fAppID filter) (fPath filter) id in
  let marker := Xor.listMarker (fAppID filter) (fPath filter)
                               (Cursor filter) in
  let input := {| MaxKeys := PerPage filter; Marker := marker;
                  Prefix := prefix |} in
  match ListObjects be input with
  | inl err => ([OpList input], Ret ([], Some (ErrListLogs err)))
  | inr contents => tick (OpList input) (scan be filter contents [])
  end.

End Store.

End XorStore.

(** ** The store of the first revision, [api/logs/s3/s3.go] *)

Module Old.
Import S3.

Definition logPath (appName callID : string) : string :=
  let appName := EncodeToString appName in
  appName +:+ "/" +:+ callID +:+ "/log".

Definition callPath (appName callID : string) : string :=
  let appName := EncodeToString appName in
  appName +:+ "/" +:+ Xor.xorCursor callID +:+ "/raw".

Definition callMarkerKey (app path id : string) : string :=
  "m:" +:+ app +:+ ":" +:+ path +:+ ":" +:+ id.

Definition callKey (app id : string) : string :=
  "s:" +:+ app +:+ ":" +:+ id.

Inductive insertError : Type :=
  | ErrMarshal (err : error)        (* the error of [json.Marshal] *)
  | ErrWriteLog (cause : s3err).    (* "failed to write log, %v" *)

Section Store.

Variable jsonMarshal : Call → res string.
Variable jsonUnmarshal : string → res Call.

Definition InsertCall (Upload : string → string → option s3err)
    (b : gmap string string) (call : Call)
  : gmap string string * list Op * option insertError :=
  match jsonMarshal call with
  | Fail err => (b, [], Some (ErrMarshal err))
  | Ok byts =>
      let objectName := callPath (AppID call) (ID call) in
      match Upload objectName byts with
      | Some err => (b, [OpUpload objectName byts], Some (ErrWriteLog err))
      | None => (<[objectName := byts]> b, [OpUpload objectName byts], None)
      end
  end.

Definition GetCall (be : Backend) (appName callID : string) : res Call :=
  getCallByKey jsonUnmarshal be (callPath appName callID).

(** [InsertLog] of this revision, at [logPath]; the log is read as in the
    later revisions. *)
Definition InsertLog (Upload : string → string → option s3err) (chunk : nat)
    (b : gmap string string) (appID callID callLog : string)
  : gmap string string * list Op * option Z * option Logs.logError :=
  let cr := {| Logs.r := callLog; Logs.count := 0 |} in
  let objectName := logPath appID callID in
  let '(body, _, cr') :=
    Logs.drain Logs.bytesRead (S (String.length callLog)) chunk cr in
  match Upload objectName body with
  | Some err =>
      (b, [OpUpload objectName body], None, Some (Logs.ErrWriteLog err))
  | None =>
      (<[objectName := body]> b, [OpUpload objectName body],
       Some (Logs.count cr'), None)
  end.

Definition keyFields (filter : CallFilter) (key : string)
  : outcome (string * string) :=
  let fields := Split ":" key in
  if decide (fPath filter ≠ "") then
    match fields !! 1, fields !! 3 with
    | Some app, Some id => Ret (app, id)
    | _, _ => Panic
    end
  else
    match fields !! 1, fields !! 2 with
    | Some app, Some id => Ret (app, id)
    | _, _ => Panic
    end.

Fixpoint scan (be : Backend) (filter : CallFilter) (keys : list string)
    (calls : list Call)
  : list Op * outcome (list Call * option error) :=
  match keys with
  | [] => ([], Ret (calls, None))
  | key :: rest =>
      match keyFields filter key with
      | Panic => ([], Panic)
      | Ret (app, id) =>
          let op := OpGet (callPath app id) in
          match GetCall be app id with
          | Fail _ => tick op (scan be filter rest calls)
          | Ok call => tick op (scan be filter rest (calls ++ [call]))
          end
      end
  end.

(** [GetCalls]; the app name of the filter of this revision is [fAppID]. *)
Definition GetCalls (be : Backend) (filter : CallFilter)
  : list Op * outcome (list Call * option error) :=
  let prefix :=
    if decide (fPath filter ≠ "")
    then "m:" +:+ fAppID filter +:+ ":" +:+ fPath filter
    else "s:" +:+ fAppID filter in
  let marker :=
    if decide (Cursor filter ≠ "") then
      let cursor := Xor.xorCursor (Cursor filter) in
      if decide (fPath filter ≠ "")
      then "m:" +:+ fAppID filter +:+ ":" +:+ fPath filter +:+ ":" +:+ cursor
      else "s:" +:+ fAppID filter +:+ cursor
    else "" in
  let input := {| MaxKeys := PerPage filter; Marker := marker;
                  Prefix := prefix |} in
  match ListObjects be input with
  | inl err => ([OpList input], Ret ([], Some (ErrListLogs err)))
  | inr contents => tick (OpList input) (scan be filter contents [])
  end.

(** Every key of the bucket is the key of a call or of a log, as
    [InsertCall] and [InsertLog] of this revision write them. *)
Definition keysWritten (b : gmap string string) : Prop :=
  ∀ k, is_Some (b !! k) →
       ∃ app id, k = callPath app id ∨ k = logPath app id.

End Store.

End Old.


(** ** Further sample data *)

Module Cases.
Import S3.

(** A store that creates every bucket asked for. *)
Definition createOk (bucketName : string) : option Setup.createErr := None.

Definition url : Setup.URL :=
  Setup.mkURL "s3.example.com" (Some ("key", "secret"))
              "/us-east-1/my_bucket" {[ "ssl" := ["true"] ]}.

Definition myStore : Setup.store :=
  Setup.createStore "my_bucket" "s3.example.com" "us-east-1" "key" "secret"
                    true.

(** A URL with a bucket and no region. *)
Definition urlNoRegion : Setup.URL :=
  Setup.mkURL "s3.example.com" None "/my_bucket" ∅.

(** A fresh counting reader over five bytes. *)
Definition hello : Logs.countingReader :=
  {| Logs.r := "hello"; Logs.count := 0 |}.

(** A call of another app, and the three calls of [a1] followed by it. *)
Definition other : Call :=
  mkCall "00000009" "a2" "/f" Sample.t0 "other".

(** A fourth call of app [a1], under a path of its own. *)
Definition call4 : Call :=
  mkCall "00000004" "a1" "/h" (Sample.at_ms 9) "four".

(** All calls made before an instant after the three calls. *)
Definition listBefore : CallFilter :=
  mkFilter "" "a1" Sample.noTime (Sample.at_ms 8) "" 10.

Definition listPathG : CallFilter :=
  mkFilter "/g" "a1" Sample.noTime Sample.noTime "" 10.

Definition listPathH : CallFilter :=
  mkFilter "/h" "a1" Sample.noTime Sample.noTime "" 10.

(** A cursor of 17 bytes. *)
Definition listLongCursor : CallFilter :=
  mkFilter "" "a1" Sample.noTime Sample.noTime "0123456789ABCDEFa" 10.

(** The page after the call [00000002]. *)
Definition listAfter : CallFilter :=
  mkFilter "" "a1" Sample.noTime Sample.noTime "00000002" 10.

(** The bucket of the revision with [xorCursor] after one insert. *)
Definition xorBucket : gmap string string :=
  (XorStore.InsertCall Sample.jsonMarshal Sample.uploadOk ∅ Sample.call1).1.1.

(** The bucket of the first revision after one insert. *)
Definition oldBucket : gmap string string :=
  (Old.InsertCall Sample.jsonMarshal Sample.uploadOk ∅ Sample.call1).1.1.

(** A bucket with one log, and the same bucket after [InsertCall] has
    uploaded the record and the marker of [call1]. *)
Definition logBucket : gmap string string :=
  <[Logs.logKey "a1" "00000001" := "hello"]> ∅.

Definition record1 : string := "00000001|a1|/f|63656217568|905000000|one".

Definition marker1 : string :=
  markerKeyFlipped "a1" (EncodeToString "/f") (Xor.xorCursor "00000001").

Definition logAndCall : gmap string string :=
  <[marker1 := ""]> (<[Sample.key_of Sample.call1 := record1]> logBucket).

(** The three calls of [a1] and the call of [a2]. *)
Definition recordOther : string :=
  "00000009|a2|/f|63656217568|905000000|other".

Definition markerOther : string :=
  markerKeyFlipped "a2" (EncodeToString "/f") (Xor.xorCursor "00000009").

Definition withOther : gmap string string :=
  <[markerOther := ""]>
    (<[Sample.key_of other := recordOther]> Sample.bucket3).

(** The three calls of [a1] and a fourth one. *)
Definition record4 : string := "00000004|a1|/h|63656217568|914000000|four".

Definition marker4 : string :=
  markerKeyFlipped "a1" (EncodeToString "/h") (Xor.xorCursor "00000004").

Definition withCall4 : gmap string string :=
  <[marker4 := ""]> (<[Sample.key_of call4 := record4]> Sample.bucket3).

(** Uploads of records succeed, uploads of markers fail. *)
Definition uploadRecords (key body : string) : option s3err :=
  if String.prefix callMarkerPrefix key
  then Some (PlainError "slow down") else None.

Definition recordsOnly : gmap string string :=
  insertAll Sample.MarshalDescending Sample.jsonMarshal uploadRecords
            [Sample.call1; Sample.call2] ∅.

Definition record3 : string := "00000003|a1|/g|63656217568|912000000|three".

Definition marker3 : string :=
  markerKeyFlipped "a1" (EncodeToString "/g") (Xor.xorCursor "00000003").

Definition withRecord3 : gmap string string :=
  <[Sample.key_of Sample.call3 := record3]> recordsOnly.

(** A backend that refuses to list. *)
Definition listDown : Backend :=
  {| ListObjects _ := inl (PlainError "connection refused");
     GetObject _ := inl (PlainError "connection refused") |}.

End Cases.

(** ** Facts on byte strings *)

Section BytesFacts.

Lemma smap_length f s : String.length (smap f s) = String.length s.
Proof. induction s as [|c s IH]; simpl; congruence. Qed.

Lemma smap_involutive f :
  (∀ c, f (f c) = c) → ∀ s, smap f (smap f s) = s.
Proof.
  intros Hf s. induction s as [|c s IH]; simpl; [done|].
  by rewrite Hf, IH.
Qed.

Lemma ascii_compare_refl c : Ascii.compare c c = Eq.
Proof. unfold Ascii.compare. apply N.compare_refl. Qed.

Lemma compare_refl s : String.compare s s = Eq.
Proof.
  induction s as [|c s IH]; simpl; [done|]. by rewrite ascii_compare_refl.
Qed.

End BytesFacts.

(** ** The bytewise complement *)

Section XorFacts.
Import Xor.

Lemma xorByte_involutive c : xorByte (xorByte c) = c.
Proof. destruct c as [[] [] [] [] [] [] [] []]; reflexivity. Qed.

Lemma xorByte_value c : N_of_ascii (xorByte c) = (255 - N_of_ascii c)%N.
Proof. destruct c as [[] [] [] [] [] [] [] []]; reflexivity. Qed.

Lemma N_of_ascii_le c : (N_of_ascii c <= 255)%N.
Proof. destruct c as [[] [] [] [] [] [] [] []]; vm_compute; discriminate. Qed.

(** Complementing two bytes swaps their comparison. *)
Lemma xorByte_compare a b :
  Ascii.compare (xorByte a) (xorByte b) = Ascii.compare b a.
Proof.
  unfold Ascii.compare. rewrite !xorByte_value.
  pose proof (N_of_ascii_le a). pose proof (N_of_ascii_le b).
  destruct (N.compare_spec (N_of_ascii b) (N_of_ascii a)) as [E|E|E].
  - rewrite E. apply N.compare_refl.
  - apply N.compare_lt_iff. lia.
  - apply N.compare_gt_iff. lia.
Qed.

(** On strings of one length the comparison of the complements is the
    swapped comparison. *)
Lemma xorCursor_compare i1 i2 :
  String.length i1 = String.length i2 →
  String.compare (xorCursor i1) (xorCursor i2) = String.compare i2 i1.
Proof.
  revert i2. induction i1 as [|a i1 IH]; intros [|b i2] Hlen;
    simpl in *; try done.
  rewrite xorByte_compare. destruct (Ascii.compare b a); try done.
  apply IH. lia.
Qed.

Lemma xorCursor_twice (oid : string) : xorCursor (xorCursor oid) = oid.
Proof. apply smap_involutive, xorByte_involutive. Qed.

(** C10: the bytewise complement is an involution: complementing an id
    twice gives the id back, whatever bytes it holds. *)
Theorem xorCursor_involutive (oid : string) :
  Xor.xorCursor (Xor.xorCursor oid) = oid.
Proof. apply xorCursor_twice. Qed.

(** The bytewise complement reverses the order and keeps the length: for
    ids [i1 < i2] of one length, the complement of [i1] is strictly greater
    than the complement of [i2]. *)
Theorem xorCursor_order_reversing (i1 i2 : string) :
  String.length i1 = String.length i2 →
  slt i1 i2 →
  slt (Xor.xorCursor i2) (Xor.xorCursor i1)
  ∧ String.length (Xor.xorCursor i1) = String.length i1
  ∧ String.length (Xor.xorCursor i2) = String.length i2.
Proof.
  intros Hlen Hlt. unfold slt in *. split; [|split].
  - by rewrite xorCursor_compare.
  - apply smap_length.
  - apply smap_length.
Qed.

Lemma xorCursor_order_reversing_witness :
  slt (Xor.xorCursor "00000002") (Xor.xorCursor "00000001")
  ∧ String.length (Xor.xorCursor "00000001") = 8
  ∧ String.length (Xor.xorCursor "00000002") = 8.
Proof.
  apply (xorCursor_order_reversing "00000001" "00000002"); reflexivity.
Defined.

End XorFacts.

(** ** The loop of [GetCalls], one key at a time *)

Section LoopFacts.
Import S3.

Variable MarshalDescending : string → string.
Variable IdString : string → string.
Variable jsonMarshal : Call → res string.
Variable jsonUnmarshal : string → res Call.

Local Abbreviation flipCursor := (S3.flipCursor MarshalDescending).
Local Abbreviation callKey := (S3.callKey MarshalDescending).
Local Abbreviation callMarkerKey := (S3.callMarkerKey MarshalDescending).
Local Abbreviation getCallByKey := (S3.getCallByKey jsonUnmarshal).
Local Abbreviation scan := (S3.scan jsonUnmarshal).
Local Abbreviation through := (S3.through jsonUnmarshal).
Local Abbreviation GetCalls :=
  (S3.GetCalls MarshalDescending IdString jsonUnmarshal).
Local Abbreviation InsertCall := (S3.InsertCall MarshalDescending jsonMarshal).

(** C4: a filter without an app id is refused with the error of listing
    across all apps, whatever the backend is, and the store is asked
    nothing: neither a list nor a get is issued. *)
Theorem GetCalls_rejects_empty_app (be : Backend) (filter : CallFilter) :
  fAppID filter = "" →
  GetCalls be filter = ([], Ret ([], Some ErrListAcrossApps)).
Proof. intros H. unfold S3.GetCalls. by rewrite decide_True. Qed.

(** C7: a fetched call created before [FromTime] (when that bound is set) is
    skipped and the loop goes on with the next key and the same calls; a
    call that is not skipped and is created at or after [ToTime] (when that
    bound is set) ends the loop at once, and the calls gathered so far are
    returned without an error. *)
Theorem scan_time_bounds (be : Backend) (filter : CallFilter)
    (key app id : string) (call : Call) (rest : list string)
    (calls : list Call) :
  decodeKey filter key = Ret (Ok (app, id)) →
  getCallByKey be (callKeyFlipped app id) = Ok call →
  (IsZero (FromTime filter) = false →
   Before (CreatedAt call) (FromTime filter) = true →
   scan be filter (key :: rest) calls
   = tick (OpGet (callKeyFlipped app id)) (scan be filter rest calls))
  ∧ (negb (IsZero (FromTime filter))
       && Before (CreatedAt call) (FromTime filter) = false →
     IsZero (ToTime filter) = false →
     Before (CreatedAt call) (ToTime filter) = false →
     scan be filter (key :: rest) calls
     = ([OpGet (callKeyFlipped app id)], Ret (calls, None))).
Proof.
  intros Hdec Hget. split.
  - intros Hz Hb. simpl. by rewrite Hdec, Hget, Hz, Hb.
  - intros Hskip Hz Hb. simpl. by rewrite Hdec, Hget, Hskip, Hz, Hb.
Qed.

(** When the bounds are in order ([FromTime] is not set, or [ToTime] is
    not before it), a call at or after [ToTime] is not one that the check
    on [FromTime] skips: it ends the loop. *)
Lemma scan_stops_at_ToTime (be : Backend) (filter : CallFilter)
    (key app id : string) (call : Call) (rest : list string)
    (calls : list Call) :
  decodeKey filter key = Ret (Ok (app, id)) →
  getCallByKey be (callKeyFlipped app id) = Ok call →
  IsZero (FromTime filter) = true
  ∨ Before (ToTime filter) (FromTime filter) = false →
  IsZero (ToTime filter) = false →
  Before (CreatedAt call) (ToTime filter) = false →
  (scan be filter (key :: rest) calls).2 = Ret (calls, None).
Proof.
  intros Hdec Hget Hord Hz Hb.
  assert (negb (IsZero (FromTime filter))
          && Before (CreatedAt call) (FromTime filter) = false) as Hskip.
  { destruct Hord as [->|Hord]; [done|].
    apply andb_false_iff. right. revert Hb Hord. unfold Before.
    destruct (CreatedAt call) as [s1 n1], (ToTime filter) as [s2 n2],
      (FromTime filter) as [s3 n3]. simpl.
    rewrite !orb_false_iff, !andb_false_iff, !Z.ltb_ge, !Z.eqb_neq.
    intros [H1 H2] [H3 H4]. split; [lia|].
    destruct (decide (s1 = s3)) as [->|]; [right|by left].
    destruct H2 as [?|?], H4 as [?|?]; lia. }
  simpl. by rewrite Hdec, Hget, Hskip, Hz, Hb.
Qed.

(** C9: when the call of a decoded key cannot be fetched (it is missing,
    or the get fails otherwise), the entry is skipped: the loop goes on
    with the next key and the same calls, and what it returns is what the
    remaining keys give, with no error for the entry. *)
Theorem scan_skips_missing (be : Backend) (filter : CallFilter)
    (key app id : string) (err : error) (rest : list string)
    (calls : list Call) :
  decodeKey filter key = Ret (Ok (app, id)) →
  getCallByKey be (callKeyFlipped app id) = Fail err →
  scan be filter (key :: rest) calls
  = tick (OpGet (callKeyFlipped app id)) (scan be filter rest calls)
  ∧ (scan be filter (key :: rest) calls).2 = (scan be filter rest calls).2.
Proof.
  intros Hdec Hget.
  assert (scan be filter (key :: rest) calls
          = tick (OpGet (callKeyFlipped app id)) (scan be filter rest calls))
    as E by (simpl; by rewrite Hdec, Hget).
  split; [done|]. by rewrite E.
Qed.

(** A missing object is a failed fetch. *)
Lemma getCallByKey_missing (b : gmap string string) (key : string) :
  b !! key = None →
  getCallByKey (bucketBackend b) key = Fail ErrCallNotFound.
Proof. intros H. unfold S3.getCallByKey. simpl. by rewrite H. Qed.

Lemma callKey_prefix app id key :
  callKey app id = Ret key → ∃ x, key = "c/" +:+ x.
Proof.
  unfold S3.callKey. destruct flipCursor; [|done].
  intros [= <-]. by eexists.
Qed.

Lemma callMarkerKey_prefix app path id key :
  callMarkerKey app path id = Ret key → ∃ x, key = "m/" +:+ x.
Proof.
  unfold S3.callMarkerKey. destruct flipCursor; [|done].
  intros [= <-]. by eexists.
Qed.

(** C5: the record is uploaded at the primary key first. When that upload
    fails, [InsertCall] returns its error and has attempted nothing else:
    the bucket is unchanged. Whatever [InsertCall] returns, the upload of
    the primary key is its first request, a second request is the upload
    of the empty marker and comes only after the primary upload succeeded,
    and the marker is in the bucket only together with the record. *)
Theorem InsertCall_primary_before_marker
    (Upload : string → string → option s3err) (b : gmap string string)
    (call : Call) (byts pk : string) :
  jsonMarshal call = Ok byts →
  callKey (AppID call) (ID call) = Ret pk →
  (∀ e, Upload pk byts = Some e →
        InsertCall Upload b call
        = Ret (b, [OpUpload pk byts], Some (ErrInsertCall e)))
  ∧ (∀ mk, Upload pk byts = None →
           callMarkerKey (AppID call) (Path call) (ID call) = Ret mk →
           ∃ b' err, InsertCall Upload b call
                     = Ret (b', [OpUpload pk byts; OpUpload mk ""], err)
                     ∧ b' !! pk = Some byts)
  ∧ (∀ b' ops err, InsertCall Upload b call = Ret (b', ops, err) →
       ∃ rest, ops = OpUpload pk byts :: rest
         ∧ (rest ≠ [] →
            Upload pk byts = None
            ∧ ∃ mk,
                callMarkerKey (AppID call) (Path call) (ID call) = Ret mk
                ∧ rest = [OpUpload mk ""])
         ∧ (∀ mk,
              callMarkerKey (AppID call) (Path call) (ID call) = Ret mk →
              b' !! mk ≠ b !! mk →
              Upload pk byts = None ∧ b' !! pk = Some byts)).
Proof.
  intros Hm Hk.
  assert (∀ mk, callMarkerKey (AppID call) (Path call) (ID call) = Ret mk →
                mk ≠ pk) as Hdiff.
  { intros mk Hmk. apply callKey_prefix in Hk as [x ->].
    apply callMarkerKey_prefix in Hmk as [y ->]. done. }
  split; [|split].
  - intros e He. unfold S3.InsertCall. by rewrite Hm, Hk, He.
  - intros mk Hup Hmk. pose proof (Hdiff mk Hmk) as Hne.
    unfold S3.InsertCall. rewrite Hm, Hk, Hup, Hmk.
    destruct (Upload mk ""); eexists _, _; (split; [done|]).
    + apply lookup_insert_eq.
    + rewrite lookup_insert_ne by done. apply lookup_insert_eq.
  - intros b' ops err. unfold S3.InsertCall. rewrite Hm, Hk.
    destruct (Upload pk byts) as [e|] eqn:Hup.
    + intros [= <- <- <-]. exists []. split; [done|]. split; [done|].
      intros mk _ Hne. done.
    + destruct (callMarkerKey (AppID call) (Path call) (ID call))
        as [mk|] eqn:Hmk; [|done].
      pose proof (Hdiff mk eq_refl) as Hne.
      destruct (Upload mk "") as [e|] eqn:Hup2; intros [= <- <- <-].
      * eexists. split; [done|]. split; [by eauto|].
        intros mk' [= <-] _. split; [done|]. apply lookup_insert_eq.
      * eexists. split; [done|]. split; [by eauto|].
        intros mk' [= <-] _. split; [done|].
        rewrite lookup_insert_ne by done. apply lookup_insert_eq.
Qed.

End LoopFacts.

(** ** Splitting keys *)

Section SplitFacts.

Lemma Split_nonempty sep s : Split sep s ≠ [].
Proof.
  destruct s as [|c s]; simpl; [done|].
  destruct (Ascii.eqb c sep); [done|]. by destruct (Split sep s).
Qed.

Lemma Split_length sep s : length (Split sep s) = S (count sep s).
Proof.
  induction s as [|c s IH]; simpl; [done|].
  destruct (Ascii.eqb c sep); simpl; [by rewrite IH|].
  destruct (Split sep s) eqn:E; [by apply Split_nonempty in E|].
  simpl in *. done.
Qed.

Lemma count_app c s t : count c (s +:+ t) = count c s + count c t.
Proof. induction s as [|d s IH]; simpl; [done|]. rewrite IH. lia. Qed.

Lemma contains_count c s : contains c s = false ↔ count c s = 0.
Proof.
  induction s as [|d s IH]; simpl; [done|].
  destruct (Ascii.eqb d c); simpl; [done|]. apply IH.
Qed.

(** A string without the separator is one field. *)
Lemma Split_one sep s : contains sep s = false → Split sep s = [s].
Proof.
  induction s as [|c s IH]; simpl; [done|].
  destruct (Ascii.eqb c sep); simpl; [done|].
  intros H. by rewrite IH.
Qed.

(** The first field ends at the first separator. *)
Lemma Split_field sep s t :
  contains sep s = false →
  Split sep (s +:+ String sep t) = s :: Split sep t.
Proof.
  induction s as [|c s IH]; simpl.
  - intros _. by rewrite Ascii.eqb_refl.
  - destruct (Ascii.eqb c sep); simpl; [done|].
    intros H. by rewrite IH.
Qed.

Lemma prefix_app p k : String.prefix p k = true → ∃ r, k = p +:+ r.
Proof.
  revert k. induction p as [|c p IH]; intros k; simpl.
  - intros _. by exists k.
  - destruct k as [|d k]; simpl; [done|].
    destruct (ascii_dec c d) as [->|]; [|done].
    intros [r ->]%IH. by exists r.
Qed.

Lemma app_assoc_s (a b c : string) : (a +:+ b) +:+ c = a +:+ (b +:+ c).
Proof. induction a as [|x a IH]; simpl; [done|]. by rewrite IH. Qed.

End SplitFacts.

(** ** The key codec *)

Section CodecFacts.
Import S3.

Variable MarshalDescending : string → string.

Local Abbreviation flipCursor := (S3.flipCursor MarshalDescending).
Local Abbreviation callKey := (S3.callKey MarshalDescending).
Local Abbreviation callMarkerKey := (S3.callMarkerKey MarshalDescending).

Lemma get_default_not_slash n :
  match String.get n encodeURL with Some c => c | None => "A"%char end
  ≠ "/"%char.
Proof. do 64 (destruct n as [|n]; [discriminate|]). discriminate. Qed.

Lemma enc64_not_slash v : Ascii.eqb (enc64 v) "/" = false.
Proof. apply Ascii.eqb_neq, get_default_not_slash. Qed.

Lemma EncodeToString_three a b c rest :
  EncodeToString (String a (String b (String c rest)))
  = let val := N.lor (N.lor (N.shiftl (N_of_ascii a) 16)
                            (N.shiftl (N_of_ascii b) 8)) (N_of_ascii c) in
    String (enc64 (N.shiftr val 18)) (String (enc64 (N.shiftr val 12))
      (String (enc64 (N.shiftr val 6)) (String (enc64 val)
        (EncodeToString rest)))).
Proof. reflexivity. Qed.

(** The URL alphabet of base 64 has no slash. *)
Lemma EncodeToString_no_slash src : contains "/" (EncodeToString src) = false.
Proof.
  assert (∀ n s, (String.length s ≤ n)%nat →
                 contains "/" (EncodeToString s) = false) as H.
  { induction n as [|n IH]; intros [|a [|b [|c rest]]] Hn;
      try (simpl in Hn; lia); try reflexivity.
    all: try (unfold EncodeToString; cbv zeta; unfold contains;
              rewrite ?enc64_not_slash; reflexivity).
    rewrite EncodeToString_three. cbv zeta. cbn [contains].
    rewrite !enc64_not_slash. simpl orb. apply IH. simpl in Hn. lia. }
  by apply (H (String.length src)).
Qed.

Lemma Split_callKeyFlipped app x :
  contains "/" app = false → contains "/" x = false →
  Split "/" (callKeyFlipped app x) = ["c"; app; x].
Proof.
  intros Ha Hx. unfold callKeyFlipped, callKeyPrefix.
  change ("c/" +:+ app +:+ "/" +:+ x)
    with ("c" +:+ String "/" (app +:+ String "/" x)).
  rewrite Split_field by done. rewrite Split_field by done.
  by rewrite Split_one.
Qed.

Lemma Split_marker app p x :
  contains "/" app = false → contains "/" p = false →
  contains "/" x = false →
  Split "/" (callMarkerPrefix +:+ app +:+ "/" +:+ p +:+ "/" +:+ x)
  = ["m"; app; p; x].
Proof.
  intros Ha Hp Hx. unfold callMarkerPrefix.
  change ("m/" +:+ app +:+ "/" +:+ p +:+ "/" +:+ x)
    with ("m" +:+ String "/" (app +:+ String "/" (p +:+ String "/" x))).
  rewrite !Split_field by done. by rewrite Split_one.
Qed.

(** C2, as the store has it: when neither the app nor the flipped id holds a
    slash, decoding the primary key of [(app, id)] gives the app and the
    id in its flipped form, not the id itself; decoding the marker key of
    [(app, path, id)] gives the same pair; and the primary key is rebuilt
    from that pair as it was. *)
Theorem decodeKey_callKey (filter : CallFilter) (app path id x : string) :
  contains "/" app = false →
  flipCursor id = Ret x →
  contains "/" x = false →
  callKey app id = Ret (callKeyFlipped app x)
  ∧ (fPath filter = "" →
     decodeKey filter (callKeyFlipped app x) = Ret (Ok (app, x)))
  ∧ ∃ mk, callMarkerKey app path id = Ret mk
          ∧ (fPath filter ≠ "" → decodeKey filter mk = Ret (Ok (app, x))).
Proof.
  intros Ha Hf Hx. split; [|split].
  - unfold S3.callKey. by rewrite Hf.
  - intros Hp. unfold decodeKey. rewrite Split_callKeyFlipped by done.
    destruct (decide (fPath filter ≠ "")); [done|]. simpl.
    by destruct (decide (3 ≠ 3)).
  - unfold S3.callMarkerKey. rewrite Hf. eexists. split; [done|].
    intros Hp. unfold decodeKey.
    rewrite Split_marker by auto using EncodeToString_no_slash.
    destruct (decide (fPath filter ≠ "")); [|done]. simpl.
    by destruct (decide (4 ≠ 4)).
Qed.

(** Decoding gives the id itself only for an id that flipping leaves
    as it is. *)
Lemma decodeKey_id_iff (filter : CallFilter) (app id x : string) :
  contains "/" app = false → contains "/" x = false →
  fPath filter = "" →
  decodeKey filter (callKeyFlipped app x) = Ret (Ok (app, id)) ↔ x = id.
Proof.
  intros Ha Hx Hp. unfold decodeKey. rewrite Split_callKeyFlipped by done.
  destruct (decide (fPath filter ≠ "")); [done|]. simpl.
  destruct (decide (3 ≠ 3)); [done|]. split; [by intros [=]|by intros ->].
Qed.

Lemma listPrefix_slashes IdString filter prefix :
  S3.listPrefix MarshalDescending IdString filter = Ret prefix →
  (2 ≤ count "/" prefix)%nat.
Proof.
  unfold S3.listPrefix. destruct timePrefix as [mid|]; [|done].
  unfold S3.callKey, S3.callMarkerKey.
  destruct (flipCursor mid) as [x|]; [|done].
  destruct (decide (fPath filter ≠ "")); intros [= <-];
    simpl; rewrite !count_app; simpl; lia.
Qed.

(** A key with the wrong number of fields, but at least three, is an
    invalid key. *)
Lemma decodeKey_wrong_count filter key :
  (3 ≤ length (Split "/" key))%nat →
  length (Split "/" key) ≠ fieldCount filter →
  decodeKey filter key = Ret (Fail (invalidKey filter key)).
Proof.
  unfold decodeKey, fieldCount, invalidKey. intros H3 Hne.
  destruct (decide (fPath filter ≠ "")).
  - by rewrite decide_True.
  - destruct (Split "/" key) as [|f0 [|f1 [|f2 fs]]]; simpl in *; try lia.
    by rewrite decide_True.
Qed.

End CodecFacts.

(** ** Invalid keys *)

Section InvalidKeys.
Import S3.

Variable MarshalDescending : string → string.
Variable IdString : string → string.
Variable jsonUnmarshal : string → res Call.

Local Abbreviation scan := (S3.scan jsonUnmarshal).
Local Abbreviation through := (S3.through jsonUnmarshal).
Local Abbreviation GetCalls :=
  (S3.GetCalls MarshalDescending IdString jsonUnmarshal).
Local Abbreviation listPrefix := (S3.listPrefix MarshalDescending IdString).
Local Abbreviation listMarker := (S3.listMarker MarshalDescending).

(** Keys the loop runs past only add to the calls gathered. *)
Lemma scan_through be filter pre rest calls calls' :
  through be filter pre calls = Some calls' →
  (scan be filter (pre ++ rest)%list calls).2
  = (scan be filter rest calls').2.
Proof.
  revert calls. induction pre as [|key pre IH]; intros calls; simpl.
  - by intros [= ->].
  - destruct (decodeKey filter key) as [[[app id]|]|]; try done.
    destruct (S3.getCallByKey jsonUnmarshal be (callKeyFlipped app id))
      as [call|]; [|by intros ?%IH].
    destruct (negb (IsZero (FromTime filter))
              && Before (CreatedAt call) (FromTime filter));
      [by intros ?%IH|].
    destruct (negb (IsZero (ToTime filter))
              && negb (Before (CreatedAt call) (ToTime filter)));
      [done|by intros ?%IH].
Qed.

(** C6, as the store has it: when a listed key has the wrong number of
    fields and the loop reaches it (it has run past the keys listed before
    it), [GetCalls] returns the error for an invalid key, with the calls
    gathered up to there; the key is not skipped. *)
Theorem GetCalls_invalid_key (be : Backend) (filter : CallFilter)
    (prefix marker : string) (pre post : list string) (key : string)
    (calls : list Call) :
  fAppID filter ≠ "" →
  listPrefix filter = Ret prefix →
  listMarker filter = Ret marker →
  ListObjects be {| MaxKeys := PerPage filter; Marker := marker;
                    Prefix := prefix |} = inr (pre ++ key :: post)%list →
  String.prefix prefix key = true →
  length (Split "/" key) ≠ fieldCount filter →
  through be filter pre [] = Some calls →
  (GetCalls be filter).2 = Ret (calls, Some (invalidKey filter key)).
Proof.
  intros Happ Hp Hm Hl Hpre Hn Hthrough.
  unfold S3.GetCalls. rewrite decide_False by done.
  rewrite Hp, Hm, Hl. simpl.
  rewrite (scan_through _ _ _ _ _ _ Hthrough). simpl.
  rewrite (decodeKey_wrong_count filter key); [done| |done].
  apply prefix_app in Hpre as [r ->].
  rewrite Split_length, count_app.
  pose proof (listPrefix_slashes _ _ _ _ Hp). lia.
Qed.

End InvalidKeys.

(** ** The order of the keys *)

Section OrderFacts.

Lemma slt_irrefl a : ¬ slt a a.
Proof. unfold slt. by rewrite compare_refl. Qed.

Lemma slt_asym a b : slt a b → ¬ slt b a.
Proof.
  unfold slt. intros H. rewrite String.compare_antisym, H. done.
Qed.

Lemma slt_le a b : slt a b → String.le a b.
Proof. unfold slt, String.le, String.leb. by intros ->. Qed.

Lemma le_neq_slt a b : String.le a b → a ≠ b → slt a b.
Proof.
  unfold slt, String.le, String.leb.
  destruct (String.compare a b) eqn:E; try done.
  by apply String.compare_eq_iff in E.
Qed.

Lemma slt_trans a b c : slt a b → slt b c → slt a c.
Proof.
  intros Hab Hbc. apply le_neq_slt.
  - etrans; by apply slt_le.
  - intros ->. by apply (slt_asym _ _ Hab).
Qed.

Lemma slt_empty k : slt "" k ↔ k ≠ "".
Proof. unfold slt. by destruct k. Qed.

Lemma StronglySorted_strict (l : list string) :
  StronglySorted String.le l → NoDup l → StronglySorted slt l.
Proof.
  induction l as [|x l IH]; [constructor|].
  rewrite !StronglySorted_cons, NoDup_cons. intros [Hx Hl] [Hnin Hnd].
  split; [|by apply IH].
  apply Forall_forall. intros y Hy. apply le_neq_slt.
  - by apply (proj1 (Forall_forall _ _) Hx).
  - intros ->. done.
Qed.

Lemma StronglySorted_filter {A} (R : relation A) (P : A → Prop)
    `{∀ x, Decision (P x)} (l : list A) :
  StronglySorted R l → StronglySorted R (filter P l).
Proof.
  induction l as [|x l IH]; [done|].
  rewrite StronglySorted_cons. intros [Hx Hl].
  rewrite filter_cons. destruct (decide (P x)); [|by apply IH].
  apply StronglySorted_cons. split; [|by apply IH].
  apply Forall_forall. intros y [_ Hy]%list_elem_of_filter.
  by apply (proj1 (Forall_forall _ _) Hx).
Qed.

Lemma filter_all {A} (P : A → Prop) `{∀ x, Decision (P x)} (l : list A) :
  Forall P l → filter P l = l.
Proof.
  induction 1 as [|x l Hx Hl IH]; [done|].
  by rewrite filter_cons_True, IH.
Qed.

Lemma filter_none {A} (P : A → Prop) `{∀ x, Decision (P x)} (l : list A) :
  Forall (λ x, ¬ P x) l → filter P l = [].
Proof.
  induction 1 as [|x l Hx Hl IH]; [done|].
  by rewrite filter_cons_False.
Qed.

Lemma omap_length_all {A B} (f : A → option B) (l : list A) :
  Forall (λ x, is_Some (f x)) l → length (omap f l) = length l.
Proof.
  induction 1 as [|x l [y Hy] _ IH]; [done|].
  cbn. rewrite Hy. cbn. by f_equal.
Qed.

(** In a strictly sorted list the keys after a key of the list are the
    rest of the list. *)
Lemma filter_after (l1 l2 : list string) (k : string) :
  StronglySorted slt (l1 ++ k :: l2) →
  filter (slt k) (l1 ++ k :: l2) = l2.
Proof.
  rewrite StronglySorted_app. intros (H12 & H1 & H2).
  apply StronglySorted_cons in H2 as [Hk H2].
  rewrite filter_app, filter_cons_False by apply slt_irrefl.
  rewrite (filter_none _ l1), (filter_all _ l2); [done|done|].
  apply Forall_forall. intros x Hx. apply slt_asym, H12; [done|].
  apply list_elem_of_here.
Qed.

Lemma sortedKeys_strict (b : gmap string string) :
  StronglySorted slt (S3.sortedKeys b).
Proof.
  unfold S3.sortedKeys. apply StronglySorted_strict.
  - apply StronglySorted_merge_sort; apply _.
  - rewrite merge_sort_Permutation. apply NoDup_elements.
Qed.

Lemma keysUnder_strict b prefix : StronglySorted slt (S3.keysUnder b prefix).
Proof. apply StronglySorted_filter, sortedKeys_strict. Qed.

(** What S3 lists is cut from the keys under the prefix. *)
Lemma bucketList_keysUnder b n marker prefix :
  S3.bucketList b {| S3.MaxKeys := n; S3.Marker := marker;
                     S3.Prefix := prefix |}
  = take (Z.to_nat n) (filter (slt marker) (S3.keysUnder b prefix)).
Proof.
  unfold S3.bucketList, S3.keysUnder. simpl. f_equal.
  rewrite list_filter_filter. apply list_filter_iff.
  intros k. unfold S3.listed. simpl. tauto.
Qed.

End OrderFacts.

(** ** The revision with [xorCursor], its listing *)

Section XorListing.

(** Flipping the listed id back and asking [GetCall] for it, as this
    revision does, fetches the key with the listed id: the key the later
    revision builds from the listed id as it is. *)
Lemma callKey_of_flipped (app x : string) :
  Xor.callKey app (Xor.xorCursor x) = S3.callKeyFlipped app x.
Proof. unfold Xor.callKey. by rewrite xorCursor_twice. Qed.

(** No key under the prefix comes after the marker this revision builds
    for a cursor: the page after a cursor is empty. *)
Lemma stale_marker_lists_nothing (b : gmap string string)
    (app path cursor mid : string) (n : Z) :
  cursor ≠ "" →
  S3.bucketList b {| S3.MaxKeys := n;
                     S3.Marker := Xor.listMarker app path cursor;
                     S3.Prefix := Xor.listPrefix app path mid |} = [].
Proof.
  intros Hc. unfold S3.bucketList. simpl.
  rewrite (filter_none _ (S3.sortedKeys b)); [by rewrite take_nil|].
  apply Forall_forall. intros k _ [Hp Hm]. simpl in *.
  apply prefix_app in Hp as [r ->].
  unfold Xor.listMarker, Xor.listPrefix in Hm.
  rewrite decide_True in Hm by done.
  by destruct (decide (path ≠ "")).
Qed.

End XorListing.

(** ** Paging through a listing *)

Section Pagination.
Import S3.

Variable MarshalDescending : string → string.
Variable IdString : string → string.
Variable jsonUnmarshal : string → res Call.

Local Abbreviation flipCursor := (S3.flipCursor MarshalDescending).
Local Abbreviation scan := (S3.scan jsonUnmarshal).
Local Abbreviation recordAt := (S3.recordAt jsonUnmarshal).
Local Abbreviation wellKeyed := (S3.wellKeyed MarshalDescending jsonUnmarshal).
Local Abbreviation GetCalls :=
  (S3.GetCalls MarshalDescending IdString jsonUnmarshal).
Local Abbreviation paginate :=
  (S3.paginate MarshalDescending IdString jsonUnmarshal).
Local Abbreviation listPrefix := (S3.listPrefix MarshalDescending IdString).
Local Abbreviation listMarker := (S3.listMarker MarshalDescending).

(** Without a lower time bound the listing starts at the root of the
    namespace. *)
Lemma listPrefix_root filter :
  IsZero (FromTime filter) = true →
  listPrefix filter = Ret (namespaceRoot filter).
Proof.
  intros H. unfold S3.listPrefix, timePrefix, namespaceRoot. rewrite H. simpl.
  by destruct (decide (fPath filter ≠ "")).
Qed.

Lemma namespaceRoot_nonempty filter k :
  String.prefix (namespaceRoot filter) k = true → k ≠ "".
Proof.
  intros [r ->]%prefix_app. unfold namespaceRoot.
  by destruct (decide (fPath filter ≠ "")).
Qed.

(** Without time bounds the loop gathers the call of every key. *)
Lemma scan_all be g keys calls :
  IsZero (FromTime g) = true →
  IsZero (ToTime g) = true →
  Forall (λ k, is_Some (recordAt be g k)) keys →
  (scan be g keys calls).2 = Ret (calls ++ omap (recordAt be g) keys, None).
Proof.
  intros Hfrom Hto Hall. revert calls.
  induction Hall as [|key rest [c Hc] _ IH]; intros calls; simpl.
  - by rewrite app_nil_r.
  - unfold S3.recordAt in *.
    destruct (decodeKey g key) as [[[app id]|]|]; try done.
    destruct (S3.getCallByKey jsonUnmarshal be (callKeyFlipped app id));
      [|done].
    injection Hc as ->. rewrite Hfrom, Hto. simpl.
    rewrite IH. by rewrite <- app_assoc.
Qed.

Section Bucket.

Variable b : gmap string string.
Variable flt : CallFilter.

Hypothesis Happ : fAppID flt ≠ "".
Hypothesis Hfrom : IsZero (FromTime flt) = true.
Hypothesis Hto : IsZero (ToTime flt) = true.
Hypothesis Hkeys :
  Forall (wellKeyed (bucketBackend b) flt)
         (keysUnder b (namespaceRoot flt)).

Local Abbreviation K := (keysUnder b (namespaceRoot flt)).
Local Abbreviation be := (bucketBackend b).

(** One call of [GetCalls]: the calls of the first keys after the
    marker. *)
Lemma GetCalls_page (cursor marker : string) (n : Z) (K2 : list string) :
  listMarker (withCursor flt cursor) = Ret marker →
  filter (slt marker) K = K2 →
  (GetCalls be (mkFilter (fPath flt) (fAppID flt) (FromTime flt)
                         (ToTime flt) cursor n)).2
  = Ret (omap (recordAt be flt) (take (Z.to_nat n) K2), None).
Proof.
  intros Hm HK2. unfold S3.GetCalls. simpl.
  rewrite decide_False by done.
  change (S3.listPrefix MarshalDescending IdString
            {| fPath := fPath flt; fAppID := fAppID flt;
               FromTime := FromTime flt; ToTime := ToTime flt;
               Cursor := cursor; PerPage := n |})
    with (listPrefix flt).
  rewrite listPrefix_root by done.
  change (S3.listMarker MarshalDescending
            {| fPath := fPath flt; fAppID := fAppID flt;
               FromTime := FromTime flt; ToTime := ToTime flt;
               Cursor := cursor; PerPage := n |})
    with (listMarker (withCursor flt cursor)).
  rewrite Hm. simpl.
  rewrite bucketList_keysUnder, HK2.
  rewrite scan_all; [done|done|done|].
  apply Forall_take. rewrite <- HK2.
  apply Forall_forall. intros k [_ Hk]%list_elem_of_filter.
  pose proof (proj1 (Forall_forall _ _) Hkeys k Hk) as Hwk.
  unfold S3.wellKeyed in Hwk.
  change (is_Some (recordAt be flt k)).
  by destruct (recordAt be flt k).
Qed.

Lemma omap_recordAt_snoc l k :
  wellKeyed be flt k →
  ∃ c, omap (recordAt be flt) (l ++ [k])
       = omap (recordAt be flt) l ++ [c]
       ∧ ID c ≠ "" ∧ listMarker (withCursor flt (ID c)) = Ret k.
Proof.
  unfold S3.wellKeyed. destruct (recordAt be flt k) as [c|] eqn:Hc; [|done].
  intros [Hid Hm]. exists c. split; [|done].
  rewrite omap_app. simpl. by rewrite Hc.
Qed.

(** Paging from a cursor whose marker cuts the keys at [K2] gives the
    calls of [K2]. *)
Lemma paginate_suffix (n : nat) :
  (0 < PerPage flt)%Z →
  ∀ (K2 : list string) (cursor marker : string),
    length K2 < n →
    listMarker (withCursor flt cursor) = Ret marker →
    filter (slt marker) K = K2 →
    paginate n be flt cursor = Some (omap (recordAt be flt) K2).
Proof.
  intros Hpage. induction n as [|n IH]; intros K2 cursor marker Hn Hm HK2;
    [lia|].
  simpl.
  change (withCursor flt cursor)
    with (mkFilter (fPath flt) (fAppID flt) (FromTime flt)
                   (ToTime flt) cursor (PerPage flt)).
  rewrite (GetCalls_page cursor marker _ K2 Hm HK2).
  set (pp := Z.to_nat (PerPage flt)).
  assert (0 < pp) as Hpp by (unfold pp; lia).
  destruct (decide (K2 = [])) as [->|Hne].
  { by rewrite take_nil. }
  assert (take pp K2 ≠ []) as Hpne.
  { intros [?| ?]%take_nil_inv; [lia|done]. }
  apply last_is_Some in Hpne as [k Hk].
  apply last_Some in Hk as [T HT].
  assert (wellKeyed be flt k) as Hwk.
  { apply (proj1 (Forall_forall _ _) Hkeys).
    assert (k ∈ K2) as Hin.
    { rewrite <- (take_drop pp K2), HT. set_solver. }
    rewrite <- HK2 in Hin. by apply list_elem_of_filter in Hin as [_ ?]. }
  destruct (omap_recordAt_snoc T k Hwk) as (c & Hc & Hid & Hmk).
  rewrite HT, Hc, last_snoc.
  rewrite (IH (drop pp K2) (ID c) k).
  - simpl. f_equal. rewrite <- Hc, <- HT, <- omap_app. by rewrite take_drop.
  - rewrite length_drop. destruct K2; [done|]. simpl in *. lia.
  - done.
  - pose proof (keysUnder_strict b (namespaceRoot flt)) as Hs.
    assert (∃ K1, K = K1 ++ K2) as [K1 HK].
    { clear -HK2 Hm Hs. subst K2.
      destruct (decide (marker ∈ K)) as [Hin|Hnin].
      - apply list_elem_of_split in Hin as (l1 & l2 & E).
        exists (l1 ++ [marker]). rewrite E in Hs |- *.
        rewrite (filter_after _ _ _ Hs). by rewrite <- app_assoc.
      - clear Hm. induction K as [|x l IHl]; [by exists []|].
        apply StronglySorted_cons in Hs as [Hx Hl].
        apply not_elem_of_cons in Hnin as [Hne' Hnin].
        destruct (IHl Hl Hnin) as [K1 E].
        rewrite filter_cons. destruct (decide (slt marker x)) as [Hlt|Hnlt].
        + exists []. simpl. f_equal. symmetry. apply filter_all.
          apply Forall_forall. intros y Hy.
          pose proof (proj1 (Forall_forall _ _) Hx y Hy) as Hxy.
          by apply (slt_trans _ x).
        + exists (x :: K1). simpl. by f_equal. }
    assert (K = (K1 ++ T) ++ k :: drop pp K2) as EK.
    { rewrite HK. rewrite <- (take_drop pp K2) at 1. rewrite HT.
      by rewrite <- !app_assoc. }
    rewrite EK in Hs |- *. by rewrite (filter_after _ _ _ Hs).
Qed.

(** Over a bucket whose keys under the namespace of the filter are well
    keyed, paging returns the calls of the keys, as one listing of all the
    keys does. *)
Lemma paginate_wellKeyed :
  (0 < PerPage flt)%Z →
  paginate (S (length K)) be flt "" = Some (omap (recordAt be flt) K)
  ∧ (∀ n : Z, (Z.of_nat (length K) ≤ n)%Z →
       (GetCalls be (withCursor (withPerPage flt n) "")).2
       = Ret (omap (recordAt be flt) K, None))
  ∧ length (omap (recordAt be flt) K) = length K.
Proof.
  intros Hpage.
  assert (listMarker (withCursor flt "") = Ret "") as Hm by done.
  assert (filter (slt "") K = K) as HK.
  { apply filter_all, Forall_forall.
    intros k [Hk _]%list_elem_of_filter.
    by apply slt_empty, (namespaceRoot_nonempty flt). }
  split; [|split].
  - apply (paginate_suffix _ Hpage K "" ""); [lia|done|done].
  - intros n Hn.
    change (withCursor (withPerPage flt n) "")
      with (mkFilter (fPath flt) (fAppID flt) (FromTime flt) (ToTime flt)
                     "" n).
    rewrite (GetCalls_page "" "" n K Hm HK).
    by rewrite take_ge by lia.
  - apply omap_length_all. eapply Forall_impl; [exact Hkeys|].
    intros k. unfold S3.wellKeyed. by destruct (recordAt be flt k).
Qed.

End Bucket.

End Pagination.

(** ** Buckets of inserted calls *)

Section Inserted.
Import S3.

Variable MarshalDescending : string → string.
Variable IdString : string → string.
Variable jsonMarshal : Call → res string.
Variable jsonUnmarshal : string → res Call.

Local Abbreviation flipCursor := (S3.flipCursor MarshalDescending).
Local Abbreviation callKey := (S3.callKey MarshalDescending).
Local Abbreviation callMarkerKey := (S3.callMarkerKey MarshalDescending).
Local Abbreviation InsertCall := (S3.InsertCall MarshalDescending jsonMarshal).
Local Abbreviation insertAll := (S3.insertAll MarshalDescending jsonMarshal).
Local Abbreviation validCall :=
  (S3.validCall MarshalDescending jsonMarshal jsonUnmarshal).
Local Abbreviation primaryOk := (S3.primaryOk MarshalDescending jsonUnmarshal).
Local Abbreviation keyOk := (S3.keyOk MarshalDescending jsonUnmarshal).
Local Abbreviation bucketOk := (S3.bucketOk MarshalDescending jsonUnmarshal).
Local Abbreviation recordAt := (S3.recordAt jsonUnmarshal).
Local Abbreviation wellKeyed := (S3.wellKeyed MarshalDescending jsonUnmarshal).
Local Abbreviation GetCalls :=
  (S3.GetCalls MarshalDescending IdString jsonUnmarshal).
Local Abbreviation paginate :=
  (S3.paginate MarshalDescending IdString jsonUnmarshal).

(** Joining the fields gives the string back: [Split] loses nothing. *)
Lemma concat_Split sep s : String.concat (String sep "") (Split sep s) = s.
Proof.
  induction s as [|c s IH]; [done|]. simpl.
  destruct (Ascii.eqb_spec c sep) as [->|Hne].
  - destruct (Split sep s) as [|f fs] eqn:E; [by apply Split_nonempty in E|].
    simpl in *. by rewrite IH.
  - destruct (Split sep s) as [|f fs] eqn:E; [by apply Split_nonempty in E|].
    simpl in *. destruct fs; simpl in *; by rewrite IH.
Qed.

Lemma Split_inj sep s t : Split sep s = Split sep t → s = t.
Proof.
  intros E. by rewrite <- (concat_Split sep s), E, concat_Split.
Qed.

Lemma callKeyFlipped_inj app x app' x' :
  contains "/" app = false → contains "/" x = false →
  contains "/" app' = false → contains "/" x' = false →
  callKeyFlipped app x = callKeyFlipped app' x' → app = app' ∧ x = x'.
Proof.
  intros Ha Hx Ha' Hx' E. apply (f_equal (Split "/")) in E.
  rewrite !Split_callKeyFlipped in E by done. by injection E.
Qed.

Lemma primaryOk_put_primary b app x byts c app' x' :
  contains "/" app = false → contains "/" x = false →
  contains "/" app' = false → contains "/" x' = false →
  jsonUnmarshal byts = Ok c → ID c ≠ "" → flipCursor (ID c) = Ret x →
  primaryOk b app' x' →
  primaryOk (<[callKeyFlipped app x := byts]> b) app' x'.
Proof.
  intros Ha Hx Ha' Hx' Hu Hid Hf (body & c' & Hb & Hu' & Hid' & Hf').
  destruct (decide (callKeyFlipped app x = callKeyFlipped app' x')) as [E|Hne].
  - apply callKeyFlipped_inj in E as [-> ->]; [|done..].
    exists byts, c. by rewrite lookup_insert_eq.
  - exists body, c'. by rewrite lookup_insert_ne.
Qed.

Lemma primaryOk_put_marker b app p x body app' x' :
  primaryOk b app' x' →
  primaryOk (<[markerKeyFlipped app p x := body]> b) app' x'.
Proof.
  intros (body' & c' & Hb & Hu & Hid & Hf). exists body', c'.
  by rewrite lookup_insert_ne.
Qed.

Lemma keyOk_mono b b' k :
  (∀ app x, contains "/" app = false → contains "/" x = false →
            primaryOk b app x → primaryOk b' app x) →
  keyOk b k → keyOk b' k.
Proof.
  intros Hmono [(app & x & -> & Ha & Hx & Hp)
               |(app & p & x & -> & Ha & Hp' & Hx & Hp)].
  - left. exists app, x. auto.
  - right. exists app, p, x. auto 6.
Qed.

Lemma bucketOk_empty : bucketOk ∅.
Proof. intros k [v Hv]. by rewrite lookup_empty in Hv. Qed.

Lemma bucketOk_put_primary b app x byts c :
  contains "/" app = false → contains "/" x = false →
  jsonUnmarshal byts = Ok c → ID c ≠ "" → flipCursor (ID c) = Ret x →
  bucketOk b → bucketOk (<[callKeyFlipped app x := byts]> b).
Proof.
  intros Ha Hx Hu Hid Hf Hb k Hk.
  destruct (decide (k = callKeyFlipped app x)) as [->|Hne].
  - left. exists app, x. split; [done|]. split; [done|]. split; [done|].
    exists byts, c. by rewrite lookup_insert_eq.
  - rewrite lookup_insert_ne in Hk by done.
    eapply keyOk_mono; [|by apply Hb].
    intros app' x' Ha' Hx'. by apply (primaryOk_put_primary _ _ _ _ c).
Qed.

Lemma bucketOk_put_marker b app p x :
  contains "/" app = false → contains "/" p = false →
  contains "/" x = false →
  primaryOk b app x →
  bucketOk b → bucketOk (<[markerKeyFlipped app p x := ""]> b).
Proof.
  intros Ha Hp Hx Hprim Hb k Hk.
  destruct (decide (k = markerKeyFlipped app p x)) as [->|Hne].
  - right. exists app, p, x. repeat (split; [done|]).
    by apply primaryOk_put_marker.
  - rewrite lookup_insert_ne in Hk by done.
    eapply keyOk_mono; [|by apply Hb].
    intros app' x' _ _. apply primaryOk_put_marker.
Qed.

(** Inserting a call that is fit for the store keeps the bucket in
    order, whether the uploads succeed or not. *)
Lemma bucketOk_InsertCall Upload b c :
  validCall c → bucketOk b →
  match InsertCall Upload b c with
  | Ret (b', _, _) => bucketOk b'
  | Panic => True
  end.
Proof.
  unfold S3.validCall, S3.InsertCall, S3.callKey, S3.callMarkerKey.
  destruct (jsonMarshal c) as [byts|]; [|done].
  destruct (flipCursor (ID c)) as [x|] eqn:Hf; [|done].
  intros (Hu & Hid & Ha & Hx) Hb.
  destruct (Upload (callKeyFlipped (AppID c) x) byts); [done|].
  pose proof (bucketOk_put_primary b _ _ _ _ Ha Hx Hu Hid Hf Hb) as Hb1.
  destruct (Upload _ ""); [done|].
  apply (bucketOk_put_marker _ (AppID c) (EncodeToString (Path c)) x);
    auto using EncodeToString_no_slash.
  exists byts, c. by rewrite lookup_insert_eq.
Qed.

Lemma bucketOk_insertAll Upload calls b :
  Forall validCall calls → bucketOk b → bucketOk (insertAll Upload calls b).
Proof.
  intros Hall. revert b. induction Hall as [|c calls Hc _ IH]; intros b Hb.
  - done.
  - simpl. apply IH.
    pose proof (bucketOk_InsertCall Upload b c Hc Hb) as H.
    by destruct (InsertCall Upload b c) as [[[b' ops] err]|].
Qed.

(** A marker key under the root of a namespace of markers has the app and
    the path of the root. *)
Lemma marker_under_root A B r app p x :
  contains "/" B = false →
  contains "/" app = false → contains "/" p = false →
  contains "/" x = false →
  markerKeyFlipped app p x
  = (callMarkerPrefix +:+ A +:+ "/" +:+ B +:+ "/") +:+ r →
  A = app ∧ B = p ∧ r = x.
Proof.
  intros HB Ha Hp Hx Hr.
  assert ((callMarkerPrefix +:+ A +:+ "/" +:+ B +:+ "/") +:+ r
          = markerKeyFlipped A B r) as E.
  { unfold markerKeyFlipped. by rewrite !app_assoc_s. }
  rewrite E in Hr. clear E.
  pose proof (f_equal (count "/") Hr) as Hc.
  unfold markerKeyFlipped, callMarkerPrefix in Hc.
  simpl in Hc. rewrite !count_app in Hc. simpl in Hc.
  rewrite !count_app in Hc. simpl in Hc.
  apply contains_count in Ha, Hp, Hx, HB.
  assert (count "/" A = 0 ∧ count "/" r = 0) as [HA0 Hr0] by lia.
  apply contains_count in HA0, Hr0, HB, Ha, Hp, Hx.
  apply (f_equal (Split "/")) in Hr. unfold markerKeyFlipped in Hr.
  rewrite !Split_marker in Hr by done. by injection Hr.
Qed.

Lemma primary_under_root A r app x :
  contains "/" app = false → contains "/" x = false →
  callKeyFlipped app x = (callKeyPrefix +:+ A +:+ "/") +:+ r →
  A = app ∧ r = x.
Proof.
  intros Ha Hx Hr.
  assert ((callKeyPrefix +:+ A +:+ "/") +:+ r = callKeyFlipped A r) as E.
  { unfold callKeyFlipped. by rewrite !app_assoc_s. }
  rewrite E in Hr. clear E.
  pose proof (f_equal (count "/") Hr) as Hc.
  unfold callKeyFlipped, callKeyPrefix in Hc.
  simpl in Hc. rewrite !count_app in Hc. simpl in Hc.
  apply contains_count in Ha, Hx.
  assert (count "/" A = 0 ∧ count "/" r = 0) as [HA0 Hr0] by lia.
  apply contains_count in HA0, Hr0, Ha, Hx.
  apply (f_equal (Split "/")) in Hr.
  rewrite !Split_callKeyFlipped in Hr by done. by injection Hr.
Qed.

(** In a bucket in order every key under the namespace of a filter is
    well keyed. *)
Lemma bucketOk_wellKeyed b flt :
  bucketOk b →
  Forall (wellKeyed (bucketBackend b) flt) (keysUnder b (namespaceRoot flt)).
Proof.
  intros Hb. apply Forall_forall. intros k [Hpre Hin]%list_elem_of_filter.
  assert (is_Some (b !! k)) as Hk.
  { unfold sortedKeys in Hin. rewrite merge_sort_Permutation in Hin.
    by apply elem_of_elements, elem_of_dom in Hin. }
  apply prefix_app in Hpre as [r Hr].
  unfold S3.wellKeyed, S3.recordAt, S3.listMarker, decodeKey,
    namespaceRoot in *.
  simpl. destruct (decide (fPath flt ≠ "")) as [Hpath|Hpath].
  - destruct (Hb k Hk) as [(app & x & -> & _)
                          |(app & p & x & -> & Ha & Hp & Hx & Hprim)];
      [done|].
    apply marker_under_root in Hr as (<- & <- & ->);
      auto using EncodeToString_no_slash.
    unfold markerKeyFlipped.
    rewrite Split_marker by auto using EncodeToString_no_slash.
    simpl. destruct (decide (4 ≠ 4)); [done|].
    destruct Hprim as (body & c & Hbody & Hu & Hid & Hf).
    unfold S3.getCallByKey. simpl. rewrite Hbody, Hu.
    split; [done|]. simpl.
    rewrite decide_True by done.
    unfold S3.callKey, S3.callMarkerKey. by rewrite Hf.
  - destruct (Hb k Hk) as [(app & x & -> & Ha & Hx & Hprim)
                          |(app & p & x & -> & _)];
      [|done].
    apply primary_under_root in Hr as (<- & ->); [|done..].
    rewrite Split_callKeyFlipped by done.
    simpl. destruct (decide (3 ≠ 3)); [done|].
    destruct Hprim as (body & c & Hbody & Hu & Hid & Hf).
    unfold S3.getCallByKey. simpl. rewrite Hbody, Hu.
    split; [done|]. simpl.
    rewrite decide_True by done.
    unfold S3.callKey. by rewrite Hf.
Qed.

(** C8, as the store has it: for a bucket made by inserting calls that are
    fit for the store, and a filter with no time bound at all and a
    positive page size, paging with the id of the last call of each page
    as the next cursor ends, and the pages put together are the calls of
    the keys of the namespace, one for each key and in listing order:
    exactly what one listing with a page size that covers all the keys
    returns. *)
Theorem paginate_complete
    (Upload : string → string → option s3err) (calls : list Call)
    (flt : CallFilter) :
  Forall validCall calls →
  fAppID flt ≠ "" →
  IsZero (FromTime flt) = true →
  IsZero (ToTime flt) = true →
  (0 < PerPage flt)%Z →
  let b := insertAll Upload calls ∅ in
  let be := bucketBackend b in
  let K := keysUnder b (namespaceRoot flt) in
  paginate (S (length K)) be flt "" = Some (omap (recordAt be flt) K)
  ∧ (∀ n : Z, (Z.of_nat (length K) ≤ n)%Z →
       (GetCalls be (withCursor (withPerPage flt n) "")).2
       = Ret (omap (recordAt be flt) K, None))
  ∧ length (omap (recordAt be flt) K) = length K
  ∧ NoDup K.
Proof.
  intros Hvalid Happ Hfrom Hto Hpage b be K.
  assert (bucketOk b) as Hb
    by (apply bucketOk_insertAll; [done|apply bucketOk_empty]).
  pose proof (bucketOk_wellKeyed b flt Hb) as Hkeys.
  destruct (paginate_wellKeyed MarshalDescending IdString jsonUnmarshal
              b flt Happ Hfrom Hto Hkeys Hpage) as (H1 & H2 & H3).
  repeat split; try done.
  apply NoDup_filter. unfold sortedKeys.
  rewrite merge_sort_Permutation. apply NoDup_elements.
Qed.

End Inserted.

(** ** [flipCursor] *)

Section FlipFacts.
Import S3.

Variable MarshalDescending : string → string.

Local Abbreviation flipCursor := (S3.flipCursor MarshalDescending).

Lemma slice_to_length n s t : slice_to n s = Some t → String.length t = n.
Proof.
  revert s t. induction n as [|n IH]; intros s t; simpl.
  - by intros [= <-].
  - destruct s as [|c s]; [done|].
    destruct (slice_to n s) as [u|] eqn:E; [|done].
    intros [= <-]. simpl. f_equal. by apply (IH s).
Qed.

(** Whatever [MarshalDescending] is, the flipped id has the length of the
    id. *)
Lemma flipCursor_length oid x :
  flipCursor oid = Ret x → String.length x = String.length oid.
Proof.
  unfold S3.flipCursor. destruct (decide (oid = "")) as [->|_].
  - by intros [= <-].
  - destruct (slice_to _ _) as [s|] eqn:E; [|done].
    intros [= <-]. by apply slice_to_length in E.
Qed.

Lemma copyInto_app n s t : String.length s = n → copyInto n (s +:+ t) = s.
Proof.
  revert s. induction n as [|n IH]; intros [|c s] Hs; simpl in *; try done.
  f_equal. apply IH. lia.
Qed.

Lemma length_app_s s t :
  String.length (s +:+ t) = String.length s + String.length t.
Proof. induction s as [|c s IH]; simpl; [done|]. by rewrite IH. Qed.

(** [flipCursor] reads the first 16 bytes of the id and its length. *)
Lemma flipCursor_first16 s t1 t2 :
  String.length s = 16 → String.length t1 = String.length t2 →
  flipCursor (s +:+ t1) = flipCursor (s +:+ t2).
Proof.
  intros Hs Ht. unfold S3.flipCursor.
  rewrite !copyInto_app, !length_app_s, Ht by done.
  destruct s as [|c s]; [done|]. simpl.
  by repeat case_decide.
Qed.

Lemma slice_smap_copyInto f n s :
  String.length s ≤ n →
  slice_to (String.length s) (smap f (copyInto n s)) = Some (smap f s).
Proof.
  revert n. induction s as [|c s IH]; intros n Hn; simpl in *; [done|].
  destruct n as [|n]; [lia|]. simpl. rewrite IH by lia. done.
Qed.

End FlipFacts.

(** With the bytewise complement for [MarshalDescending], [flipCursor] is
    [xorCursor] on ids of at most 16 bytes, the size of an [id.Id]. *)
Lemma flipCursor_complement (oid : string) :
  String.length oid ≤ 16 →
  S3.flipCursor Sample.MarshalDescending oid = S3.Ret (Xor.xorCursor oid).
Proof.
  intros Hlen. unfold S3.flipCursor, Sample.MarshalDescending, Xor.xorCursor.
  destruct (decide (oid = "")) as [->|_]; [done|].
  by rewrite slice_smap_copyInto.
Qed.

(** With that complement [flipCursor] reverses the order of ids of one
    length, up to 16 bytes. *)
Lemma flipCursor_order_reversing (i1 i2 : string) :
  String.length i1 = String.length i2 →
  String.length i1 ≤ 16 →
  slt i1 i2 →
  ∃ x1 x2, S3.flipCursor Sample.MarshalDescending i1 = S3.Ret x1
           ∧ S3.flipCursor Sample.MarshalDescending i2 = S3.Ret x2
           ∧ slt x2 x1.
Proof.
  intros Hlen H16 Hlt. exists (Xor.xorCursor i1), (Xor.xorCursor i2).
  rewrite !flipCursor_complement by lia. repeat split.
  unfold slt in *. by rewrite xorCursor_compare.
Qed.

(** A bytewise transform that swaps the comparison of bytes swaps the
    comparison of strings of one length. *)
Lemma smap_compare (f : ascii → ascii) i1 i2 :
  (∀ a b, Ascii.compare (f a) (f b) = Ascii.compare b a) →
  String.length i1 = String.length i2 →
  String.compare (smap f i1) (smap f i2) = String.compare i2 i1.
Proof.
  intros Hf. revert i2. induction i1 as [|a i1 IH]; intros [|b i2] Hlen;
    simpl in *; try done.
  rewrite Hf. destruct (Ascii.compare b a); try done.
  apply IH. lia.
Qed.

(** With a bytewise [MarshalDescending], [flipCursor] is that transform on
    ids of at most 16 bytes, the size of an [id.Id]. *)
Lemma flipCursor_bytewise (MarshalDescending : string → string)
    (f : ascii → ascii) (oid : string) :
  (∀ rid, MarshalDescending rid = smap f rid) →
  String.length oid ≤ 16 →
  S3.flipCursor MarshalDescending oid = S3.Ret (smap f oid).
Proof.
  intros HM Hlen. unfold S3.flipCursor.
  destruct (decide (oid = "")) as [->|_]; [done|].
  by rewrite HM, slice_smap_copyInto.
Qed.

(** C3, as the two revisions have it: the descending encoding reverses
    the order and keeps the length on the ids it holds in full. For ids
    [i1 < i2] of one length, [xorCursor] gives an encoding of [i1] strictly
    greater than that of [i2], whatever the length; [flipCursor] does so
    for ids of at most 16 bytes, the size of the [id.Id] it copies the id
    into, when [MarshalDescending] is a bytewise transform that reverses
    the order of bytes, such as the bytewise complement. *)
Theorem descending_order_reversing (MarshalDescending : string → string)
    (f : ascii → ascii) (i1 i2 : string) :
  (∀ rid, MarshalDescending rid = smap f rid) →
  (∀ a b, Ascii.compare (f a) (f b) = Ascii.compare b a) →
  String.length i1 = String.length i2 →
  slt i1 i2 →
  (slt (Xor.xorCursor i2) (Xor.xorCursor i1)
   ∧ String.length (Xor.xorCursor i1) = String.length i1
   ∧ String.length (Xor.xorCursor i2) = String.length i2)
  ∧ (String.length i1 ≤ 16 →
     ∃ x1 x2, S3.flipCursor MarshalDescending i1 = S3.Ret x1
              ∧ S3.flipCursor MarshalDescending i2 = S3.Ret x2
              ∧ slt x2 x1
              ∧ String.length x1 = String.length i1
              ∧ String.length x2 = String.length i2).
Proof.
  intros HM Hf Hlen Hlt. split.
  - unfold slt in *. rewrite xorCursor_compare by done.
    unfold Xor.xorCursor. by rewrite !smap_length.
  - intros H16. exists (smap f i1), (smap f i2).
    rewrite !(flipCursor_bytewise MarshalDescending f) by (done || lia).
    unfold slt in *. rewrite smap_compare by done.
    by rewrite !smap_length.
Qed.

Lemma descending_order_reversing_witness :
  (slt (Xor.xorCursor "00000002") (Xor.xorCursor "00000001")
   ∧ String.length (Xor.xorCursor "00000001") = 8
   ∧ String.length (Xor.xorCursor "00000002") = 8)
  ∧ (8 ≤ 16 →
     ∃ x1 x2, S3.flipCursor Sample.MarshalDescending "00000001" = S3.Ret x1
              ∧ S3.flipCursor Sample.MarshalDescending "00000002"
                = S3.Ret x2
              ∧ slt x2 x1
              ∧ String.length x1 = 8
              ∧ String.length x2 = 8).
Proof.
  apply (descending_order_reversing Sample.MarshalDescending Xor.xorByte
           "00000001" "00000002").
  - reflexivity.
  - exact xorByte_compare.
  - reflexivity.
  - reflexivity.
Defined.

(** Beyond 16 bytes [flipCursor] does not reverse the order: two ids of
    17 bytes that differ in the last byte only are in order, and whatever
    [MarshalDescending] is, [flipCursor] gives the same for both, so that
    the encoding of the first is not greater than that of the second; with
    the bytewise complement it panics on them, the 16 bytes it returns
    being too short for the slice. *)
Lemma flipCursor_not_order_reversing :
  String.length "0123456789ABCDEFa" = String.length "0123456789ABCDEFb"
  ∧ slt "0123456789ABCDEFa" "0123456789ABCDEFb"
  ∧ (∀ MarshalDescending,
       S3.flipCursor MarshalDescending "0123456789ABCDEFa"
       = S3.flipCursor MarshalDescending "0123456789ABCDEFb")
  ∧ (∀ MarshalDescending x1 x2,
       S3.flipCursor MarshalDescending "0123456789ABCDEFa" = S3.Ret x1 →
       S3.flipCursor MarshalDescending "0123456789ABCDEFb" = S3.Ret x2 →
       ¬ slt x2 x1)
  ∧ S3.flipCursor Sample.MarshalDescending "0123456789ABCDEFa" = S3.Panic.
Proof.
  assert (∀ MarshalDescending,
            S3.flipCursor MarshalDescending "0123456789ABCDEFa"
            = S3.flipCursor MarshalDescending "0123456789ABCDEFb") as E.
  { intros MarshalDescending.
    apply (flipCursor_first16 MarshalDescending "0123456789ABCDEF" "a" "b");
      reflexivity. }
  split; [reflexivity|]. split; [reflexivity|]. split; [exact E|].
  split; [|reflexivity].
  intros MarshalDescending x1 x2 H1 H2. rewrite E, H2 in H1.
  injection H1 as ->. apply slt_irrefl.
Qed.

(** ** The listing narrowed by [FromTime] *)

Section Narrowed.
Import S3.

Variable MarshalDescending : string → string.
Variable IdString : string → string.
Variable jsonUnmarshal : string → res Call.

Local Abbreviation flipCursor := (S3.flipCursor MarshalDescending).
Local Abbreviation scan := (S3.scan jsonUnmarshal).
Local Abbreviation recordAt := (S3.recordAt jsonUnmarshal).
Local Abbreviation GetCalls :=
  (S3.GetCalls MarshalDescending IdString jsonUnmarshal).
Local Abbreviation listPrefix := (S3.listPrefix MarshalDescending IdString).

(** With [FromTime] set the prefix of the listing is the root of the
    namespace followed by ten bytes, the flipped partial id. *)
Lemma listPrefix_from_time flt P :
  IsZero (FromTime flt) = false →
  listPrefix flt = Ret P →
  ∃ mid x, slice_to 10 (IdString (timeId (FromTime flt))) = Some mid
           ∧ flipCursor mid = Ret x
           ∧ String.length x = 10
           ∧ P = namespaceRoot flt +:+ x.
Proof.
  intros Hz HP. unfold S3.listPrefix, timePrefix in HP. rewrite Hz in HP.
  cbn [negb] in HP.
  destruct (slice_to 10 (IdString (timeId (FromTime flt)))) as [mid|]
    eqn:Hmid; [|done].
  unfold S3.callKey, S3.callMarkerKey in HP.
  destruct (flipCursor mid) as [x|] eqn:Hx; [|done].
  exists mid, x. split; [done|]. split; [done|]. split.
  - apply flipCursor_length in Hx. apply slice_to_length in Hmid. lia.
  - unfold namespaceRoot.
    destruct (decide (fPath flt ≠ "")); injection HP as <-;
      unfold callKeyFlipped; by rewrite !app_assoc_s.
Qed.

(** The calls the loop returns are calls it gathered before or calls of
    the keys it is given. *)
Lemma scan_from_keys be g keys acc calls err :
  (scan be g keys acc).2 = Ret (calls, err) →
  ∀ c, c ∈ calls →
       c ∈ acc ∨ ∃ k, k ∈ keys ∧ recordAt be g k = Some c.
Proof.
  revert acc. induction keys as [|key rest IH]; intros acc; simpl.
  - intros [= <- <-] c Hc. by left.
  - unfold S3.recordAt.
    destruct (decodeKey g key) as [[[app id]|]|] eqn:Hd; simpl;
      [| |done].
    + destruct (S3.getCallByKey jsonUnmarshal be (callKeyFlipped app id))
        as [call|] eqn:Hg.
      * destruct (negb (IsZero (FromTime g))
                  && Before (CreatedAt call) (FromTime g)).
        { intros H c Hc. destruct (IH _ H c Hc) as [?|(k & Hk & Hr)];
            [by left|right]. exists k. split; [set_solver|done]. }
        destruct (negb (IsZero (ToTime g))
                  && negb (Before (CreatedAt call) (ToTime g))).
        { intros [= <- <-] c Hc. by left. }
        intros H c Hc. destruct (IH _ H c Hc) as [Hin|(k & Hk & Hr)].
        -- apply elem_of_app in Hin as [?|Hin]; [by left|right].
           apply list_elem_of_singleton in Hin as ->.
           exists key. split; [set_solver|]. by rewrite Hd, Hg.
        -- right. exists k. split; [set_solver|done].
      * intros H c Hc. destruct (IH _ H c Hc) as [?|(k & Hk & Hr)];
          [by left|right]. exists k. split; [set_solver|done].
    + intros [= <- <-] c Hc. by left.
Qed.

(** Every call [GetCalls] returns is the call of a key of the bucket that
    starts with the prefix of the listing: with [FromTime] set, a key that
    does not go on with the ten bytes of the flipped partial id gives no
    call, whenever its call was created. *)
Lemma GetCalls_under_prefix b flt P calls err :
  listPrefix flt = Ret P →
  (GetCalls (bucketBackend b) flt).2 = Ret (calls, err) →
  ∀ c, c ∈ calls →
       ∃ k, k ∈ keysUnder b P ∧ recordAt (bucketBackend b) flt k = Some c.
Proof.
  intros HP. unfold S3.GetCalls.
  destruct (decide (fAppID flt = ""));
    [by intros [= <- <-] c Hc%elem_of_nil|].
  rewrite HP. destruct (S3.listMarker MarshalDescending flt) as [m|]; [|done].
  simpl. rewrite bucketList_keysUnder.
  intros H c Hc.
  destruct (scan_from_keys _ _ _ _ _ _ H c Hc) as [Hin|(k & Hk & Hr)];
    [by apply elem_of_nil in Hin|].
  exists k. split; [|done].
  apply subseteq_take in Hk.
  by apply list_elem_of_filter in Hk as [_ ?].
Qed.

End Narrowed.

(** ** The store on concrete buckets *)

Section Examples.
Import S3.

Example listing_newest_first :
  (Sample.GetCalls (bucketBackend Sample.bucket3) Sample.listAll).2
  = Ret ([Sample.call3; Sample.call2; Sample.call1], None)
  ∧ (Sample.GetCalls (bucketBackend Sample.bucket3) Sample.listPath).2
    = Ret ([Sample.call2; Sample.call1], None).
Proof. split; vm_compute; reflexivity. Qed.

(** The id of the store's comments and its time. *)
Example IdString_time :
  slice_to 10 (Sample.IdString (timeId Sample.t0)) = Some "01C860Z3M9".
Proof. vm_compute. reflexivity. Qed.

(** C1: the listing prefix narrowed by the partial id of [FromTime] keeps
    only the keys whose id starts with exactly that partial id. A call
    created one millisecond after [FromTime], whose id carries its creation
    time and which the filter without [FromTime] lists, is left out. *)
Theorem GetCalls_from_time_excludes :
  Before (CreatedAt Sample.late) (FromTime Sample.sinceT0) = false
  ∧ IsZero (ToTime Sample.sinceT0) = true
  ∧ slice_to 10 (Sample.IdString (timeId (CreatedAt Sample.late)))
    = slice_to 10 (ID Sample.late)
  ∧ (Sample.GetCalls (bucketBackend Sample.bucketLate) Sample.listAll).2
    = Ret ([Sample.late], None)
  ∧ (Sample.GetCalls (bucketBackend Sample.bucketLate) Sample.sinceT0).2
    = Ret ([], None).
Proof. repeat split; vm_compute; reflexivity. Qed.

(** A marker whose record is gone: the entry is skipped and the listing
    goes on. *)
Example missing_record_skipped :
  (Sample.GetCalls
     (bucketBackend (delete (Sample.key_of Sample.call2) Sample.bucket3))
     Sample.listPath).2
  = Ret ([Sample.call1], None).
Proof. vm_compute. reflexivity. Qed.

(** The key of [(a1, 00000001)] decodes to the flipped id, not to the
    id. *)
Lemma decodeKey_not_id :
  ∃ key, Sample.callKey "a1" "00000001" = Ret key
         ∧ decodeKey Sample.listAll key
           = Ret (Ok ("a1", Xor.xorCursor "00000001"))
         ∧ decodeKey Sample.listAll key ≠ Ret (Ok ("a1", "00000001")).
Proof.
  eexists. split; [vm_compute; reflexivity|].
  split; [vm_compute; reflexivity|]. vm_compute. discriminate.
Qed.

(** In the namespace of calls a key of fewer than three fields is indexed
    out of range before its fields are counted. *)
Example decodeKey_short_key :
  decodeKey Sample.listAll "c/a1" = Panic
  ∧ decodeKey Sample.listPath "m/a1"
    = Ret (Fail (ErrInvalidMarkerKey "m/a1")).
Proof. split; reflexivity. Qed.

(** A listed key of four fields that the loop does not reach: the call
    listed before it is at the upper time bound, the listing ends there
    and returns no error. *)
Lemma GetCalls_stops_before_invalid_key :
  ListObjects (bucketBackend Sample.bucketBad)
    {| MaxKeys := 10; Marker := ""; Prefix := "c/a1/" |}
  = inr [Sample.key_of Sample.call3; Sample.badKey]
  ∧ length (Split "/" Sample.badKey) ≠ fieldCount Sample.listTo
  ∧ decodeKey Sample.listTo Sample.badKey
    = Ret (Fail (ErrInvalidCallKey Sample.badKey))
  ∧ (Sample.GetCalls (bucketBackend Sample.bucketBad) Sample.listTo).2
    = Ret ([], None)
  ∧ ¬ ∃ calls err,
        (Sample.GetCalls (bucketBackend Sample.bucketBad) Sample.listTo).2
        = Ret (calls, Some err).
Proof.
  assert ((Sample.GetCalls (bucketBackend Sample.bucketBad) Sample.listTo).2
          = Ret ([], None)) as E by (vm_compute; reflexivity).
  repeat split; try (vm_compute; reflexivity).
  - vm_compute. discriminate.
  - rewrite E. by intros (calls & err & [=]).
Qed.

(** Paging with a lower time bound can end early: the only key of the
    first page is the key of a call created before the bound, the page is
    empty and gives no cursor, while one listing of all the keys returns
    the call that is in the bounds. *)
Lemma paginate_from_time_omits :
  IsZero (ToTime Sample.sinceT0Paged) = true
  ∧ (Sample.GetCalls (bucketBackend Sample.bucketSkew)
       Sample.sinceT0Paged).2
    = Ret ([], None)
  ∧ ∃ pages listing,
      Sample.paginate 5 (bucketBackend Sample.bucketSkew)
        Sample.sinceT0Paged "" = Some pages
      ∧ (Sample.GetCalls (bucketBackend Sample.bucketSkew)
           (withPerPage Sample.sinceT0Paged 10)).2
        = Ret (listing, None)
      ∧ listing = [Sample.onTime]
      ∧ pages ≠ listing.
Proof.
  split; [reflexivity|]. split; [vm_compute; reflexivity|].
  exists [], [Sample.onTime].
  split; [vm_compute; reflexivity|]. split; [vm_compute; reflexivity|].
  split; [reflexivity|discriminate].
Qed.

End Examples.

(** ** The theorems at concrete inputs *)

Section Witnesses.
Import S3.

Local Abbreviation md := Sample.MarshalDescending.
Local Abbreviation ids := Sample.IdString.
Local Abbreviation jm := Sample.jsonMarshal.
Local Abbreviation ju := Sample.jsonUnmarshal.

Lemma GetCalls_rejects_empty_app_witness :
  fAppID Sample.listNoApp = ""
  ∧ Sample.GetCalls (bucketBackend Sample.bucket3) Sample.listNoApp
    = ([], Ret ([], Some ErrListAcrossApps)).
Proof.
  split; [reflexivity|].
  apply (GetCalls_rejects_empty_app md ids ju). reflexivity.
Defined.

Lemma scan_time_bounds_witness :
  (S3.scan ju (bucketBackend Sample.bucket3) Sample.listFrom
     [Sample.key_of Sample.call2; Sample.key_of Sample.call1] []
   = tick (OpGet (Sample.key_of Sample.call2))
       (S3.scan ju (bucketBackend Sample.bucket3) Sample.listFrom
          [Sample.key_of Sample.call1] []))
  ∧ (S3.scan ju (bucketBackend Sample.bucket3) Sample.listTo
       [Sample.key_of Sample.call3; Sample.key_of Sample.call2]
       [Sample.call1]
     = ([OpGet (Sample.key_of Sample.call3)], Ret ([Sample.call1], None))).
Proof.
  split.
  - apply (proj1 (scan_time_bounds ju (bucketBackend Sample.bucket3)
                    Sample.listFrom (Sample.key_of Sample.call2) "a1"
                    (Xor.xorCursor "00000002") Sample.call2
                    [Sample.key_of Sample.call1] []
                    ltac:(vm_compute; reflexivity)
                    ltac:(vm_compute; reflexivity)));
      vm_compute; reflexivity.
  - apply (proj2 (scan_time_bounds ju (bucketBackend Sample.bucket3)
                    Sample.listTo (Sample.key_of Sample.call3) "a1"
                    (Xor.xorCursor "00000003") Sample.call3
                    [Sample.key_of Sample.call2] [Sample.call1]
                    ltac:(vm_compute; reflexivity)
                    ltac:(vm_compute; reflexivity)));
      vm_compute; reflexivity.
Defined.

Lemma scan_skips_missing_witness :
  (S3.scan ju (bucketBackend (Sample.inserted [Sample.call1]))
     Sample.listAll
     [Sample.key_of Sample.call2; Sample.key_of Sample.call1] []).2
  = (S3.scan ju (bucketBackend (Sample.inserted [Sample.call1]))
       Sample.listAll [Sample.key_of Sample.call1] []).2.
Proof.
  apply (proj2 (scan_skips_missing ju
                  (bucketBackend (Sample.inserted [Sample.call1]))
                  Sample.listAll (Sample.key_of Sample.call2) "a1"
                  (Xor.xorCursor "00000002") ErrCallNotFound
                  [Sample.key_of Sample.call1] []
                  ltac:(vm_compute; reflexivity)
                  ltac:(vm_compute; reflexivity))).
Defined.

Lemma InsertCall_primary_before_marker_witness :
  Sample.InsertCall Sample.uploadDown ∅ Sample.call1
  = Ret (∅, [OpUpload (Sample.key_of Sample.call1)
                      "00000001|a1|/f|63656217568|905000000|one"],
         Some (ErrInsertCall (PlainError "connection refused"))).
Proof.
  apply (proj1 (InsertCall_primary_before_marker md jm Sample.uploadDown ∅
                  Sample.call1 "00000001|a1|/f|63656217568|905000000|one"
                  (Sample.key_of Sample.call1)
                  ltac:(vm_compute; reflexivity)
                  ltac:(vm_compute; reflexivity))).
  reflexivity.
Defined.

Lemma decodeKey_callKey_witness :
  decodeKey Sample.listAll (Sample.key_of Sample.call1)
  = Ret (Ok ("a1", Xor.xorCursor "00000001")).
Proof.
  apply (proj1 (proj2 (decodeKey_callKey md Sample.listAll "a1" "/f"
                         "00000001" (Xor.xorCursor "00000001")
                         ltac:(reflexivity)
                         ltac:(vm_compute; reflexivity)
                         ltac:(vm_compute; reflexivity)))).
  reflexivity.
Defined.

Lemma GetCalls_invalid_key_witness :
  (Sample.GetCalls (bucketBackend Sample.bucketBad) Sample.listAll).2
  = Ret ([Sample.call3], Some (ErrInvalidCallKey Sample.badKey)).
Proof.
  apply (GetCalls_invalid_key md ids ju (bucketBackend Sample.bucketBad)
           Sample.listAll "c/a1/" "" [Sample.key_of Sample.call3] []
           Sample.badKey [Sample.call3]);
    try (vm_compute; reflexivity).
  - discriminate.
  - vm_compute. discriminate.
Defined.

Lemma paginate_complete_witness :
  Sample.paginate 4 (bucketBackend Sample.bucket3) Sample.listPaged ""
  = Some [Sample.call3; Sample.call2; Sample.call1].
Proof.
  refine (proj1 (paginate_complete md ids jm ju Sample.uploadOk
                   [Sample.call1; Sample.call2; Sample.call3]
                   Sample.listPaged _ _ _ _ _)).
  - apply (bool_decide_unpack _). vm_compute. exact I.
  - discriminate.
  - reflexivity.
  - reflexivity.
  - reflexivity.
Defined.

End Witnesses.

(** ** Opening a store *)

Section SetupFacts.
Import Setup.

Lemma cut_Some sep s a rest :
  cut sep s = Some (a, rest) →
  s = a +:+ String sep rest ∧ contains sep a = false.
Proof.
  revert a. induction s as [|c s IH]; intros a; simpl; [done|].
  destruct (Ascii.eqb_spec c sep) as [->|Hne].
  - by intros [= <- <-].
  - destruct (cut sep s) as [[a' r']|]; [|done].
    intros [= <- <-]. destruct (IH a' eq_refl) as [-> Ha].
    split; [done|]. simpl. by apply Ascii.eqb_neq in Hne as ->.
Qed.

Lemma cut_None sep s : cut sep s = None → contains sep s = false.
Proof.
  induction s as [|c s IH]; simpl; [done|].
  destruct (Ascii.eqb c sep); [done|].
  destruct (cut sep s) as [[a r]|]; [done|]. auto.
Qed.

Lemma cut_app sep a rest :
  contains sep a = false → cut sep (a +:+ String sep rest) = Some (a, rest).
Proof.
  induction a as [|c a IH]; simpl.
  - by rewrite Ascii.eqb_refl.
  - destruct (Ascii.eqb c sep); [done|]. simpl. intros H. by rewrite IH.
Qed.

(** The path splits in three exactly when it has two slashes at least;
    the third field is all that follows the second slash. *)
Lemma SplitN_three s a region bucketName :
  SplitN "/" 3 s = [a; region; bucketName] ↔
  s = a +:+ "/" +:+ region +:+ "/" +:+ bucketName
  ∧ contains "/" a = false ∧ contains "/" region = false.
Proof.
  split.
  - simpl. destruct (cut "/" s) as [[a' r1]|] eqn:E1; [|done].
    destruct (cut "/" r1) as [[r' b']|] eqn:E2; [|done].
    intros [= <- <- <-].
    apply cut_Some in E1 as [-> Ha], E2 as [-> Hr]. done.
  - intros (-> & Ha & Hr). simpl.
    change (a +:+ "/" +:+ region +:+ "/" +:+ bucketName)
      with (a +:+ String "/" (region +:+ String "/" bucketName)).
    by rewrite !cut_app.
Qed.

Lemma SplitN_short s :
  count "/" s < 2 → length (SplitN "/" 3 s) < 3.
Proof.
  simpl. destruct (cut "/" s) as [[a r1]|] eqn:E1; [|simpl; lia].
  destruct (cut "/" r1) as [[r b]|] eqn:E2; [|simpl; lia].
  apply cut_Some in E1 as [-> _], E2 as [-> _].
  rewrite count_app. simpl. rewrite count_app. simpl. lia.
Qed.

(** X1: [New] returns a store exactly for a path of the form
    [pre/region/bucket] with no slash in [pre] and [region], a region and a
    bucket that are not empty, and a bucket that can be created or is there
    already. The store then has that region and that bucket (slashes
    after the second one belong to the bucket name), the host, the
    credentials of the URL and TLS on only for [ssl=true], and the bucket
    is the one request [New] made. *)
Theorem New_opens_iff (CreateBucket : string → option createErr)
    (u : URL) (asked : list string) (st : store) :
  New CreateBucket u = (asked, inr st) ↔
  ∃ pre,
    UPath u = pre +:+ "/" +:+ region st +:+ "/" +:+ bucket st
    ∧ contains "/" pre = false
    ∧ contains "/" (region st) = false
    ∧ region st ≠ "" ∧ bucket st ≠ ""
    ∧ tolerated (CreateBucket (bucket st))
    ∧ asked = [bucket st]
    ∧ st = createStore (bucket st) (Host u) (region st)
             (default ("", "") (User u)).1 (default ("", "") (User u)).2
             (bool_decide (Get (Query u) "ssl" = "true")).
Proof.
  destruct u as [host [[name pass]|] path q]; unfold New; simpl UPath;
    simpl Host; simpl User; simpl Query; cbv beta iota zeta.
  all: split.
  all: try (destruct (SplitN "/" 3 path) as [|a [|r [|b [|? ?]]]] eqn:E;
      try done;
    apply SplitN_three in E as (E & Ha & Hr);
    destruct (decide (r = "")); try done;
    destruct (decide (b = "")); try done;
    destruct (CreateBucket b) as [[code msg|txt]|] eqn:Hcb; try done;
    try (destruct (decide _) as [Hc|]; [|done]);
    intros [= <- <-]; exists a; simpl; rewrite ?Hcb; simpl; done).
  all: intros (pre & E & Hpre & Hr & Hrne & Hbne & Htol & -> & Est);
    (assert (SplitN "/" 3 path = [pre; region st; bucket st]) as ->
      by by apply SplitN_three);
    destruct (decide (region st = "")); try done;
    destruct (decide (bucket st = "")); try done;
    unfold tolerated in Htol; simpl in Est;
    destruct (CreateBucket (bucket st)) as [[code msg|txt]|];
    try done; try (rewrite decide_True by done); by rewrite <- Est.
Qed.

(** X2: a path that does not name a region and a bucket is refused before
    anything is asked of the store: with fewer than two slashes, with an
    empty region, or with an empty bucket name, [New] returns the error for
    it and makes no request. *)
Theorem New_rejects_path (CreateBucket : string → option createErr)
    (u : URL) :
  (count "/" (UPath u) < 2 →
   New CreateBucket u = ([], inl ErrNoBucketRegion))
  ∧ (∀ pre bucketName,
       contains "/" pre = false →
       UPath u = pre +:+ "/" +:+ "" +:+ "/" +:+ bucketName →
       New CreateBucket u = ([], inl ErrEmptyRegion))
  ∧ (∀ pre region,
       contains "/" pre = false → contains "/" region = false →
       region ≠ "" →
       UPath u = pre +:+ "/" +:+ region +:+ "/" +:+ "" →
       New CreateBucket u = ([], inl ErrEmptyBucket)).
Proof.
  destruct u as [host [[name pass]|] path q]; unfold New; simpl UPath;
    simpl Host; simpl User; simpl Query; cbv beta iota zeta.
  all: split; [|split].
  all: try (intros Hc%SplitN_short;
    destruct (SplitN "/" 3 path) as [|a [|r [|b [|? ?]]]];
      simpl in *; by try lia).
  all: try (intros pre b Hpre E;
    by assert (SplitN "/" 3 path = [pre; ""; b]) as ->
      by by apply SplitN_three).
  all: intros pre r Hpre Hr Hne E;
    (assert (SplitN "/" 3 path = [pre; r; ""]) as ->
      by by apply SplitN_three);
    by destruct (decide (r = "")).
Qed.

End SetupFacts.

(** ** Logs *)

Section LogFacts.
Import S3 Logs.

Lemma int_int a b : int (int a + b) = int (a + b).
Proof.
  unfold int. f_equal.
  replace ((a + 2 ^ 63) mod 2 ^ 64 - 2 ^ 63 + b + 2 ^ 63)%Z
    with ((a + 2 ^ 63) mod 2 ^ 64 + b)%Z by lia.
  rewrite Zplus_mod_idemp_l. f_equal. lia.
Qed.

Lemma int_small a : (- 2 ^ 63 ≤ a < 2 ^ 63)%Z → int a = a.
Proof. intros H. unfold int. rewrite Z.mod_small; lia. Qed.

Lemma length_concat_s a b :
  String.length (a +:+ b) = String.length a + String.length b.
Proof. induction a as [|c a IH]; simpl; [done|]. by rewrite IH. Qed.

Lemma stake_sdrop n s : stake n s +:+ sdrop n s = s.
Proof.
  revert s. induction n as [|n IH]; intros [|c s]; simpl; try done.
  by rewrite IH.
Qed.

Lemma sdrop_length n s :
  0 < n → s ≠ "" → String.length (sdrop n s) < String.length s.
Proof.
  intros Hn Hs. destruct n as [|n]; [lia|]. destruct s as [|c s]; [done|].
  simpl. clear. revert s. induction n as [|n IH]; intros [|d s]; simpl;
    try lia. specialize (IH s). lia.
Qed.

Lemma int_range a : (- 2 ^ 63 ≤ int a < 2 ^ 63)%Z.
Proof.
  unfold int. pose proof (Z.mod_pos_bound (a + 2 ^ 63) (2 ^ 64)). lia.
Qed.

Lemma readAll_count {R : Type} (read : Reader R) ns (cr : countingReader) :
  int (count (readAll read ns cr).2)
  = int (count cr
         + Z.of_nat (String.length (fold_right String.append ""
                                      (readAll read ns cr).1))).
Proof.
  revert cr. induction ns as [|n ns IH]; intros cr.
  - simpl. f_equal. lia.
  - simpl. unfold Read. destruct (read (r cr) n) as [[bs err] r'].
    specialize (IH {| r := r';
                      count := int (count cr + Z.of_nat (String.length bs)) |}).
    destruct (readAll read ns _) as [chunks cr''].
    simpl in *. rewrite IH.
    rewrite int_int, length_concat_s. f_equal. lia.
Qed.

Lemma readAll_range {R : Type} (read : Reader R) ns (cr : countingReader) :
  (- 2 ^ 63 ≤ count cr < 2 ^ 63)%Z →
  (- 2 ^ 63 ≤ count (readAll read ns cr).2 < 2 ^ 63)%Z.
Proof.
  revert cr. induction ns as [|n ns IH]; intros cr Hc; [done|].
  simpl. unfold Read. destruct (read (r cr) n) as [[bs err] r'].
  specialize (IH {| r := r';
                    count := int (count cr + Z.of_nat (String.length bs)) |}
                 (int_range _)).
  by destruct (readAll read ns _) as [chunks cr''].
Qed.

(** X3: the counter of a counting reader is the number of bytes it has
    handed out: after any sequence of reads, with any buffer sizes and
    whatever the reader underneath returns, the counter (an [int], 64 bits
    wide) has grown by the total length of the chunks read. *)
Theorem countingReader_counts {R : Type} (read : Reader R)
    (ns : list nat) (cr : countingReader) :
  (- 2 ^ 63 ≤ count cr < 2 ^ 63)%Z →
  count (readAll read ns cr).2
  = int (count cr
         + Z.of_nat (String.length (fold_right String.append ""
                                      (readAll read ns cr).1))).
Proof.
  intros Hc. rewrite <- readAll_count.
  symmetry. by apply int_small, readAll_range.
Qed.

Lemma drain_bytesRead fuel n s c :
  0 < n → String.length s < fuel →
  drain bytesRead fuel n {| r := s; count := c |}
  = (s, Some "EOF",
     {| r := ""; count := int (int c + Z.of_nat (String.length s)) |}).
Proof.
  intros Hn. revert s c. induction fuel as [|fuel IH]; intros s c Hf; [lia|].
  simpl. unfold Read, bytesRead. simpl.
  destruct (decide (s = "")) as [->|Hs].
  - simpl. do 2 f_equal. by rewrite int_int.
  - pose proof (sdrop_length n s Hn Hs).
    rewrite IH by lia. rewrite stake_sdrop. do 2 f_equal.
    rewrite !int_int. f_equal.
    rewrite <- (stake_sdrop n s) at 3. rewrite length_concat_s. lia.
Qed.

Lemma logKey_inj app id app' id' :
  contains "/" app = false → contains "/" app' = false →
  logKey app id = logKey app' id' → app = app' ∧ id = id'.
Proof.
  intros Ha Ha' E. unfold logKey, logKeyPrefix in E. simpl in E.
  injection E as E. revert app' Ha' E.
  induction app as [|c app IH]; intros [|c' app'] Ha' E; simpl in *.
  - by injection E as ->.
  - injection E as <- _. by rewrite Ascii.eqb_refl in Ha'.
  - injection E as -> _. by rewrite Ascii.eqb_refl in Ha.
  - injection E as -> E.
    destruct (Ascii.eqb c' "/"); [done|].
    destruct (IH Ha app' Ha' E) as [-> ->]. done.
Qed.

(** X4: a log that is written reads back. When the upload succeeds,
    [InsertLog] has asked for one upload, of the whole log under the key of
    the call, and records the length of the log as the size uploaded;
    [GetLog] for the same app and call then returns that log and records
    the same size. *)
Theorem InsertLog_GetLog (Upload : string → string → option s3err)
    (chunk : nat) (b : gmap string string) (appID callID callLog : string) :
  0 < chunk →
  Upload (logKey appID callID) callLog = None →
  (Z.of_nat (String.length callLog) < 2 ^ 63)%Z →
  ∃ b',
    InsertLog Upload chunk b appID callID callLog
    = (b', [OpUpload (logKey appID callID) callLog],
       Some (Z.of_nat (String.length callLog)), None)
    ∧ GetLog (bucketBackend b') appID callID
      = (inr callLog, Some (Z.of_nat (String.length callLog))).
Proof.
  intros Hn Hup Hlen. unfold InsertLog.
  rewrite drain_bytesRead by (done || lia). rewrite Hup.
  eexists. split.
  - cbn [count]. do 2 f_equal. f_equal.
    rewrite (int_small 0) by lia. apply int_small. lia.
  - unfold GetLog. simpl. by rewrite lookup_insert_eq.
Qed.

(** X5: a log is stored under a key of its own. For app ids without a
    slash, [InsertLog] for one call, whether its upload succeeds or fails,
    leaves what [GetLog] returns for every other app or call as it was;
    and when the upload fails the bucket is unchanged. *)
Theorem InsertLog_other_logs (Upload : string → string → option s3err)
    (chunk : nat) (b : gmap string string) (appID callID callLog : string)
    (appID' callID' : string) :
  contains "/" appID = false → contains "/" appID' = false →
  (appID', callID') ≠ (appID, callID) →
  let b' := (InsertLog Upload chunk b appID callID callLog).1.1.1 in
  GetLog (bucketBackend b') appID' callID'
  = GetLog (bucketBackend b) appID' callID'
  ∧ ((InsertLog Upload chunk b appID callID callLog).2 ≠ None → b' = b).
Proof.
  intros Ha Ha' Hne. unfold InsertLog.
  destruct (drain _ _ _ _) as [[body e] cr'].
  destruct (Upload _ body); simpl; [done|].
  split; [|done]. unfold GetLog. simpl.
  rewrite lookup_insert_ne; [done|].
  intros E. apply logKey_inj in E as [-> ->]; done.
Qed.

End LogFacts.

(** ** What a listing depends on *)

Section Agreement.
Import S3.

Variable MarshalDescending : string → string.
Variable IdString : string → string.
Variable jsonMarshal : Call → res string.
Variable jsonUnmarshal : string → res Call.

Local Abbreviation flipCursor := (S3.flipCursor MarshalDescending).
Local Abbreviation callKey := (S3.callKey MarshalDescending).
Local Abbreviation callMarkerKey := (S3.callMarkerKey MarshalDescending).
Local Abbreviation getCallByKey := (S3.getCallByKey jsonUnmarshal).
Local Abbreviation scan := (S3.scan jsonUnmarshal).
Local Abbreviation GetCall := (S3.GetCall MarshalDescending jsonUnmarshal).
Local Abbreviation GetCalls :=
  (S3.GetCalls MarshalDescending IdString jsonUnmarshal).
Local Abbreviation InsertCall := (S3.InsertCall MarshalDescending jsonMarshal).
Local Abbreviation listPrefix := (S3.listPrefix MarshalDescending IdString).

#[local] Instance slt_antisymm : AntiSymm (=) slt.
Proof. intros a b H1 H2. by apply slt_asym in H1. Qed.

Lemma elem_of_sortedKeys (b : gmap string string) k :
  k ∈ sortedKeys b ↔ is_Some (b !! k).
Proof.
  unfold sortedKeys. rewrite merge_sort_Permutation, elem_of_elements.
  apply elem_of_dom.
Qed.

Lemma NoDup_sortedKeys (b : gmap string string) : NoDup (sortedKeys b).
Proof.
  unfold sortedKeys. rewrite merge_sort_Permutation. apply NoDup_elements.
Qed.

(** S3 lists the same from two buckets that hold the same keys among
    those the request asks for. *)
Lemma bucketList_agree (b b' : gmap string string) input :
  (∀ k, listed input k → (is_Some (b !! k) ↔ is_Some (b' !! k))) →
  bucketList b input = bucketList b' input.
Proof.
  intros H. unfold bucketList. f_equal.
  apply (StronglySorted_unique slt);
    try apply StronglySorted_filter, sortedKeys_strict.
  apply NoDup_Permutation; try apply NoDup_filter, NoDup_sortedKeys.
  intros k. rewrite !list_elem_of_filter, !elem_of_sortedKeys.
  split; intros [Hl Hk]; (split; [done|]); by apply (H k Hl).
Qed.

Lemma scan_agree (b b' : gmap string string) flt keys acc :
  (∀ k app id, k ∈ keys → decodeKey flt k = Ret (Ok (app, id)) →
     b !! callKeyFlipped app id = b' !! callKeyFlipped app id) →
  scan (bucketBackend b) flt keys acc = scan (bucketBackend b') flt keys acc.
Proof.
  revert acc. induction keys as [|key rest IH]; intros acc H; [done|].
  simpl. destruct (decodeKey flt key) as [[[app id]|]|] eqn:Hd; try done.
  assert (getCallByKey (bucketBackend b) (callKeyFlipped app id)
          = getCallByKey (bucketBackend b') (callKeyFlipped app id)) as ->.
  { unfold S3.getCallByKey. simpl.
    rewrite (H key app id); [done|apply list_elem_of_here|done]. }
  assert (∀ acc, scan (bucketBackend b) flt rest acc
                 = scan (bucketBackend b') flt rest acc) as IH'.
  { intros acc'. apply IH. intros k a i Hk. apply H.
    by apply list_elem_of_further. }
  destruct (getCallByKey _ _); by rewrite ?IH'.
Qed.

(** [GetCalls] reads the keys under the prefix of the listing and the
    records they lead to, and nothing else of the bucket. *)
Lemma GetCalls_agree (b b' : gmap string string) flt :
  (∀ P k, listPrefix flt = Ret P → String.prefix P k = true →
     b !! k = b' !! k
     ∧ (is_Some (b !! k) →
        ∀ app id, decodeKey flt k = Ret (Ok (app, id)) →
          b !! callKeyFlipped app id = b' !! callKeyFlipped app id)) →
  GetCalls (bucketBackend b) flt = GetCalls (bucketBackend b') flt.
Proof.
  intros H. unfold S3.GetCalls.
  destruct (decide (fAppID flt = "")); [done|].
  destruct (listPrefix flt) as [P|] eqn:HP; [|done].
  destruct (S3.listMarker MarshalDescending flt) as [m|]; [|done].
  simpl.
  assert (bucketList b {| MaxKeys := PerPage flt; Marker := m; Prefix := P |}
          = bucketList b' {| MaxKeys := PerPage flt; Marker := m;
                             Prefix := P |}) as <-.
  { apply bucketList_agree. intros k [Hk _]. simpl in Hk.
    destruct (H P k eq_refl Hk) as [-> _]. done. }
  f_equal. apply scan_agree. intros k app id Hk Hd.
  apply subseteq_take, list_elem_of_filter in Hk as [[Hk _] Hin].
  apply elem_of_sortedKeys in Hin.
  by apply (H P k eq_refl Hk).
Qed.

Lemma listPrefix_head flt P :
  listPrefix flt = Ret P →
  ∃ r, P = "c/" +:+ fAppID flt +:+ "/" +:+ r
       ∨ P = "m/" +:+ fAppID flt +:+ "/" +:+ r.
Proof.
  unfold S3.listPrefix. destruct (timePrefix IdString flt) as [mid|]; [|done].
  unfold S3.callKey, S3.callMarkerKey.
  destruct (flipCursor mid) as [x|]; [|done].
  destruct (decide (fPath flt ≠ "")); intros [= <-]; eexists; [right|left];
    done.
Qed.

Lemma field_inj a r a' r' :
  contains "/" a = false → contains "/" a' = false →
  a +:+ "/" +:+ r = a' +:+ "/" +:+ r' → a = a' ∧ r = r'.
Proof.
  intros Ha Ha' E. apply (logKey_inj a r a' r' Ha Ha').
  unfold Logs.logKey. by rewrite E.
Qed.

(** The keys of calls and markers under the prefix of a listing lead to
    records of the app of the filter. *)
Lemma decodeKey_app flt P k app id :
  contains "/" (fAppID flt) = false →
  listPrefix flt = Ret P → String.prefix P k = true →
  decodeKey flt k = Ret (Ok (app, id)) → app = fAppID flt.
Proof.
  intros Ha [r HP]%listPrefix_head [r' ->]%prefix_app.
  unfold decodeKey.
  assert (∃ h t, Split "/" (P +:+ r') = h :: fAppID flt :: t)
    as (h & t & ->).
  { destruct HP as [-> | ->]; rewrite !app_assoc_s.
    - change ("c/" +:+ fAppID flt +:+ "/" +:+ r +:+ r')
        with ("c" +:+ String "/" (fAppID flt +:+ String "/" (r +:+ r'))).
      rewrite !Split_field by done. by eexists _, _.
    - change ("m/" +:+ fAppID flt +:+ "/" +:+ r +:+ r')
        with ("m" +:+ String "/" (fAppID flt +:+ String "/" (r +:+ r'))).
      rewrite !Split_field by done. by eexists _, _. }
  destruct (decide (fPath flt ≠ "")).
  - destruct (decide _); [done|]. simpl.
    destruct (t !! 1); [|done]. by intros [= <- _].
  - simpl. destruct (t !! 0); [|done].
    destruct (decide _); [done|]. by intros [= <- _].
Qed.

(** X6: logs and calls do not share keys. Whatever [InsertLog] is given
    and whether its upload succeeds or not, [GetCalls] returns for every
    filter, and [GetCall] for every call, what it returned before, with
    the same requests. *)
Theorem InsertLog_keeps_calls (Upload : string → string → option s3err)
    (chunk : nat) (b : gmap string string) (appID callID callLog : string)
    (flt : CallFilter) (app id : string) :
  let b' := (Logs.InsertLog Upload chunk b appID callID callLog).1.1.1 in
  GetCalls (bucketBackend b') flt = GetCalls (bucketBackend b) flt
  ∧ GetCall (bucketBackend b') app id = GetCall (bucketBackend b) app id.
Proof.
  unfold Logs.InsertLog.
  destruct (Logs.drain _ _ _ _) as [[body e] cr'].
  destruct (Upload _ body); simpl; [done|]. split.
  - apply GetCalls_agree. intros P k [r HP]%listPrefix_head [r' ->]%prefix_app.
    split.
    + apply lookup_insert_ne. by destruct HP as [-> | ->].
    + intros _ a i _. by apply lookup_insert_ne.
  - unfold S3.GetCall. destruct (callKey app id) as [key|] eqn:Hk; [|done].
    apply callKey_prefix in Hk as [x ->]. unfold S3.getCallByKey. simpl.
    by rewrite lookup_insert_ne.
Qed.

(** X7: in the other direction, [InsertCall] writes no key of a log:
    whatever it returns, [GetLog] returns for every app and call what it
    returned before. *)
Theorem InsertCall_keeps_logs (Upload : string → string → option s3err)
    (b b' : gmap string string) (call : Call) (ops : list Op)
    (err : option error) (appID callID : string) :
  InsertCall Upload b call = Ret (b', ops, err) →
  Logs.GetLog (bucketBackend b') appID callID
  = Logs.GetLog (bucketBackend b) appID callID.
Proof.
  unfold S3.InsertCall. destruct (jsonMarshal call) as [byts|e];
    [|by intros [= <- _ _]].
  destruct (callKey _ _) as [ck|] eqn:Hck; [|done].
  apply callKey_prefix in Hck as [x ->].
  destruct (Upload _ byts); [by intros [= <- _ _]|].
  destruct (callMarkerKey _ _ _) as [mk|] eqn:Hmk; [|done].
  apply callMarkerKey_prefix in Hmk as [y ->].
  unfold Logs.GetLog.
  destruct (Upload _ ""); intros [= <- _ _]; simpl;
    by rewrite ?lookup_insert_ne.
Qed.

(** X8: apps do not see each other's calls. When neither app id holds a
    slash, inserting a call of one app, with whatever outcome, leaves what
    [GetCalls] returns for a filter on another app as it was, along with
    its requests, and what [GetCall] returns for every call of the other
    app. *)
Theorem InsertCall_other_app (Upload : string → string → option s3err)
    (b b' : gmap string string) (call : Call) (ops : list Op)
    (err : option error) (flt : CallFilter) :
  contains "/" (AppID call) = false →
  contains "/" (fAppID flt) = false →
  AppID call ≠ fAppID flt →
  InsertCall Upload b call = Ret (b', ops, err) →
  GetCalls (bucketBackend b') flt = GetCalls (bucketBackend b) flt
  ∧ ∀ id, GetCall (bucketBackend b') (fAppID flt) id
          = GetCall (bucketBackend b) (fAppID flt) id.
Proof.
  intros Hc Hf Hne HI.
  assert (∀ k', (∃ r, k' = "c/" +:+ fAppID flt +:+ "/" +:+ r
                      ∨ k' = "m/" +:+ fAppID flt +:+ "/" +:+ r) →
                b !! k' = b' !! k') as Hsame.
  { intros k' [r Hk']. revert HI. unfold S3.InsertCall.
    destruct (jsonMarshal call) as [byts|e]; [|by intros [= <- _ _]].
    unfold S3.callKey, S3.callMarkerKey.
    destruct (flipCursor (ID call)) as [x|]; [|done].
    destruct (Upload _ byts); [by intros [= <- _ _]|].
    assert (k' ≠ callKeyFlipped (AppID call) x) as N1.
    { unfold callKeyFlipped, callKeyPrefix.
      destruct Hk' as [-> | ->]; [|done]. intros E. injection E as E.
      by apply field_inj in E as [E _]. }
    assert (k' ≠ callMarkerPrefix +:+ AppID call +:+ "/"
                 +:+ EncodeToString (Path call) +:+ "/" +:+ x) as N2.
    { unfold callMarkerPrefix.
      destruct Hk' as [-> | ->]; [done|]. intros E. injection E as E.
      by apply field_inj in E as [E _]. }
    destruct (Upload _ ""); intros [= <- _ _];
      by rewrite ?lookup_insert_ne. }
  split.
  2:{ intros id. unfold S3.GetCall, S3.callKey.
      destruct (flipCursor id) as [x|]; [|done].
      unfold S3.getCallByKey. simpl. rewrite <- Hsame; [done|].
      exists x. by left. }
  symmetry. apply GetCalls_agree. intros P k HP Hk. split.
  - apply Hsame. destruct (listPrefix_head _ _ HP) as [r Hr].
    apply prefix_app in Hk as [r' ->]. exists (r +:+ r').
    destruct Hr as [-> | ->]; [left|right]; by rewrite !app_assoc_s.
  - intros _ app id Hd.
    rewrite (decodeKey_app flt P k app id Hf HP Hk Hd).
    apply Hsame. exists id. by left.
Qed.

End Agreement.

(** ** What [GetCalls] returns and asks for *)

Section ListingFacts.
Import S3.

Variable MarshalDescending : string → string.
Variable IdString : string → string.
Variable jsonMarshal : Call → res string.
Variable jsonUnmarshal : string → res Call.

Local Abbreviation flipCursor := (S3.flipCursor MarshalDescending).
Local Abbreviation callKey := (S3.callKey MarshalDescending).
Local Abbreviation callMarkerKey := (S3.callMarkerKey MarshalDescending).
Local Abbreviation getCallByKey := (S3.getCallByKey jsonUnmarshal).
Local Abbreviation scan := (S3.scan jsonUnmarshal).
Local Abbreviation GetCall := (S3.GetCall MarshalDescending jsonUnmarshal).
Local Abbreviation GetCalls :=
  (S3.GetCalls MarshalDescending IdString jsonUnmarshal).
Local Abbreviation InsertCall := (S3.InsertCall MarshalDescending jsonMarshal).
Local Abbreviation listPrefix := (S3.listPrefix MarshalDescending IdString).
Local Abbreviation listMarker := (S3.listMarker MarshalDescending).

Lemma scan_bounds be flt keys acc calls err (P : Call → Prop) :
  (∀ c, (IsZero (FromTime flt) = true
         ∨ Before (CreatedAt c) (FromTime flt) = false) →
        (IsZero (ToTime flt) = true
         ∨ Before (CreatedAt c) (ToTime flt) = true) → P c) →
  (scan be flt keys acc).2 = Ret (calls, err) →
  Forall P acc → Forall P calls.
Proof.
  intros HP. revert acc. induction keys as [|key rest IH]; intros acc; simpl.
  - by intros [= <- <-].
  - destruct (decodeKey flt key) as [[[app id]|]|]; simpl; [| |done].
    + destruct (getCallByKey be (callKeyFlipped app id)) as [call|];
        [|apply IH].
      destruct (IsZero (FromTime flt)) eqn:Hf,
        (Before (CreatedAt call) (FromTime flt)) eqn:Hbf,
        (IsZero (ToTime flt)) eqn:Ht,
        (Before (CreatedAt call) (ToTime flt)) eqn:Hbt; simpl;
        first [ apply IH
              | by intros [= <- <-]
              | intros H Hacc; apply (IH _ H), Forall_app; (split; [done|]);
                apply Forall_singleton, HP; rewrite ?Hbf, ?Hbt; auto ].
    + by intros [= <- <-].
Qed.

(** X9: every call [GetCalls] returns is inside the time bounds of the
    filter: not created before [FromTime] when that is set, and created
    before [ToTime] when that is set. This holds for every backend, also
    for the calls returned along with an error. *)
Theorem GetCalls_within_bounds (be : Backend) (flt : CallFilter)
    (calls : list Call) (err : option error) (c : Call) :
  (GetCalls be flt).2 = Ret (calls, err) →
  c ∈ calls →
  (IsZero (FromTime flt) = true
   ∨ Before (CreatedAt c) (FromTime flt) = false)
  ∧ (IsZero (ToTime flt) = true
     ∨ Before (CreatedAt c) (ToTime flt) = true).
Proof.
  unfold S3.GetCalls.
  destruct (decide (fAppID flt = "")); simpl;
    [by intros [= <- <-] Hc%elem_of_nil|].
  destruct (listPrefix flt) as [P|]; [|done].
  destruct (listMarker flt) as [m|]; [|done].
  destruct (ListObjects be _) as [e|contents]; simpl;
    [by intros [= <- <-] Hc%elem_of_nil|].
  intros H Hc.
  pose proof (scan_bounds be flt contents [] calls err
    (λ c, (IsZero (FromTime flt) = true
           ∨ Before (CreatedAt c) (FromTime flt) = false)
          ∧ (IsZero (ToTime flt) = true
             ∨ Before (CreatedAt c) (ToTime flt) = true))
    (λ _ h1 h2, conj h1 h2) H (Forall_nil_2 _)) as HF.
  by apply (proj1 (Forall_forall _ _) HF).
Qed.

Lemma scan_trace be flt keys acc :
  ∃ gets,
    (scan be flt keys acc).1 = OpGet <$> gets
    ∧ length gets ≤ length keys
    ∧ Forall (λ g, ∃ k app id, k ∈ keys
                     ∧ decodeKey flt k = Ret (Ok (app, id))
                     ∧ g = callKeyFlipped app id) gets
    ∧ ∀ calls err, (scan be flt keys acc).2 = Ret (calls, err) →
        length calls ≤ length acc + length gets.
Proof.
  revert acc. induction keys as [|key rest IH]; intros acc; simpl.
  - exists []. repeat split; [done|constructor|].
    intros calls err [= <- <-]. simpl. lia.
  - destruct (decodeKey flt key) as [[[app id]|]|] eqn:Hd; simpl.
    + assert (∀ acc', ∃ gets,
        (tick (OpGet (callKeyFlipped app id)) (scan be flt rest acc')).1
          = OpGet <$> gets
        ∧ length gets ≤ S (length rest)
        ∧ Forall (λ g, ∃ k app id, k ∈ key :: rest
                     ∧ decodeKey flt k = Ret (Ok (app, id))
                     ∧ g = callKeyFlipped app id) gets
        ∧ ∀ calls err,
            (tick (OpGet (callKeyFlipped app id))
                  (scan be flt rest acc')).2 = Ret (calls, err) →
            length calls ≤ length acc' + length gets - 1) as Hrest.
      { intros acc'. destruct (IH acc') as (gets & E & Hl & Hg & Hc).
        exists (callKeyFlipped app id :: gets). unfold tick. simpl.
        rewrite E. repeat split; [lia| |].
        - constructor.
          + exists key, app, id. split; [apply list_elem_of_here|done].
          + eapply Forall_impl; [exact Hg|]. simpl.
            intros g (k & a & i & Hk & ? & ?). exists k, a, i.
            split; [by apply list_elem_of_further|done].
        - intros calls err Hr. specialize (Hc calls err Hr). lia. }
      destruct (getCallByKey be (callKeyFlipped app id)) as [call|].
      * destruct (negb (IsZero (FromTime flt)) && _).
        { destruct (Hrest acc) as (gets & ? & ? & ? & Hc). exists gets.
          repeat split; try done. intros calls err Hr.
          specialize (Hc calls err Hr). lia. }
        destruct (negb (IsZero (ToTime flt)) && _).
        { exists [callKeyFlipped app id]. simpl. repeat split; [lia| |].
          - constructor; [|constructor]. exists key, app, id.
            split; [apply list_elem_of_here|done].
          - intros calls err [= <- <-]. lia. }
        destruct (Hrest (acc ++ [call])) as (gets & ? & ? & ? & Hc).
        exists gets. repeat split; try done. intros calls err Hr.
        specialize (Hc calls err Hr). rewrite length_app in Hc. simpl in Hc.
        lia.
      * destruct (Hrest acc) as (gets & ? & ? & ? & Hc). exists gets.
        repeat split; try done. intros calls err Hr.
        specialize (Hc calls err Hr). lia.
    + exists []. simpl. repeat split; [lia|constructor|].
      intros calls err' [= <- <-]. lia.
    + exists []. simpl. repeat split; [lia|constructor|done].
Qed.

(** X10: [GetCalls] only reads. Whatever the backend answers, its
    requests are none at all, or one listing with [PerPage] as the limit
    followed by downloads only: each download is of the record of the
    call that a listed key names, there is at most one for each listed
    key, and no more calls are returned than records were downloaded. *)
Theorem GetCalls_requests (be : Backend) (flt : CallFilter) :
  (GetCalls be flt).1 = []
  ∨ ∃ input gets,
      (GetCalls be flt).1 = OpList input :: (OpGet <$> gets)
      ∧ MaxKeys input = PerPage flt
      ∧ listPrefix flt = Ret (Prefix input)
      ∧ Forall (λ g, String.prefix callKeyPrefix g = true) gets
      ∧ (∀ contents, ListObjects be input = inr contents →
           length gets ≤ length contents
           ∧ Forall (λ g, ∃ k app id, k ∈ contents
                            ∧ decodeKey flt k = Ret (Ok (app, id))
                            ∧ g = callKeyFlipped app id) gets)
      ∧ (∀ calls err, (GetCalls be flt).2 = Ret (calls, err) →
           length calls ≤ length gets).
Proof.
  unfold S3.GetCalls.
  destruct (decide (fAppID flt = "")); [by left|].
  destruct (listPrefix flt) as [P|]; [|by left].
  destruct (listMarker flt) as [m|]; [|by left].
  right. eexists {| MaxKeys := PerPage flt; Marker := m; Prefix := P |}.
  destruct (ListObjects be _) as [e|contents] eqn:HL.
  - exists []. simpl.
    split; [done|]. split; [done|]. split; [done|]. split; [done|].
    split; [done|]. intros calls err [= <- <-]. simpl. lia.
  - destruct (scan_trace be flt contents []) as (gets & E & Hl & Hg & Hc).
    exists gets. unfold tick. simpl. rewrite E.
    split; [done|]. split; [done|]. split; [done|]. split; [|split].
    + eapply Forall_impl; [exact Hg|]. simpl.
      intros g (k & a & i & _ & _ & ->). simpl. by destruct (a +:+ _).
    + by intros ? [= <-].
    + exact Hc.
Qed.

(** X11: a page is no longer than asked for. On a bucket, [GetCalls] with
    a page size that is not negative returns at most [PerPage] calls and
    downloads at most [PerPage] records. *)
Theorem GetCalls_page_size (b : gmap string string) (flt : CallFilter)
    (calls : list Call) (err : option error) :
  (0 ≤ PerPage flt)%Z →
  (GetCalls (bucketBackend b) flt).2 = Ret (calls, err) →
  (Z.of_nat (length calls) ≤ PerPage flt)%Z
  ∧ (Z.of_nat (length (GetCalls (bucketBackend b) flt).1)
     ≤ 1 + PerPage flt)%Z.
Proof.
  intros Hn. unfold S3.GetCalls.
  destruct (decide (fAppID flt = "")); simpl;
    [intros [= <- <-]; simpl; lia|].
  destruct (listPrefix flt) as [P|]; [|done].
  destruct (listMarker flt) as [m|]; [|done]. simpl.
  set (input := {| MaxKeys := PerPage flt; Marker := m; Prefix := P |}).
  destruct (scan_trace (bucketBackend b) flt (bucketList b input) [])
    as (gets & E & Hl & _ & Hc).
  intros H. specialize (Hc calls err H). rewrite E, length_fmap.
  assert (length (bucketList b input) ≤ Z.to_nat (PerPage flt)).
  { unfold bucketList. rewrite length_take. simpl. lia. }
  simpl in Hc. lia.
Qed.

Lemma scan_errors be flt keys acc calls e :
  (scan be flt keys acc).2 = Ret (calls, Some e) →
  ∃ k, k ∈ keys ∧ decodeKey flt k = Ret (Fail e).
Proof.
  revert acc. induction keys as [|key rest IH]; intros acc; simpl; [done|].
  destruct (decodeKey flt key) as [[[app id]|e']|] eqn:Hd; simpl; [| |done].
  - assert (∀ acc', (scan be flt rest acc').2 = Ret (calls, Some e) →
                    ∃ k, k ∈ key :: rest ∧ decodeKey flt k = Ret (Fail e))
      as Hrest.
    { intros acc' (k & Hk & Hf)%IH. exists k.
      split; [by apply list_elem_of_further|done]. }
    destruct (getCallByKey be (callKeyFlipped app id)) as [call|];
      [|apply Hrest].
    destruct (negb (IsZero (FromTime flt)) && _); [apply Hrest|].
    destruct (negb (IsZero (ToTime flt)) && _); [done|apply Hrest].
  - intros [= <- <-]. exists key. split; [apply list_elem_of_here|done].
Qed.

Lemma decodeKey_Fail flt k e :
  decodeKey flt k = Ret (Fail e) →
  e = invalidKey flt k ∧ length (Split "/" k) ≠ fieldCount flt.
Proof.
  unfold decodeKey, invalidKey, fieldCount.
  destruct (decide (fPath flt ≠ "")).
  - destruct (decide (length (Split "/" k) ≠ 4)); [by intros [= <-]|].
    by destruct (Split "/" k !! 1), (Split "/" k !! 3).
  - destruct (Split "/" k !! 1), (Split "/" k !! 2); try done.
    destruct (decide (length (Split "/" k) ≠ 3)); [by intros [= <-]|done].
Qed.

(** X12: the errors of [GetCalls] are three. It returns an error only for
    an empty app id, for a listing that the backend refuses (in both cases
    with no call), or for a listed key whose number of fields is not that
    of the namespace. A record that is missing, that cannot be read or
    that does not decode is never an error of the listing. *)
Theorem GetCalls_errors (be : Backend) (flt : CallFilter)
    (calls : list Call) (e : error) :
  (GetCalls be flt).2 = Ret (calls, Some e) →
  (fAppID flt = "" ∧ e = ErrListAcrossApps ∧ calls = [])
  ∨ (∃ input cause, ListObjects be input = inl cause
                    ∧ e = ErrListLogs cause ∧ calls = [])
  ∨ (∃ input contents k,
       ListObjects be input = inr contents ∧ k ∈ contents
       ∧ e = invalidKey flt k
       ∧ length (Split "/" k) ≠ fieldCount flt).
Proof.
  unfold S3.GetCalls.
  destruct (decide (fAppID flt = "")); simpl;
    [intros [= <- <-]; by left|].
  destruct (listPrefix flt) as [P|]; [|done].
  destruct (listMarker flt) as [m|]; [|done].
  destruct (ListObjects be _) as [cause|contents] eqn:HL; simpl.
  - intros [= <- <-]. right. left. by eexists _, _.
  - intros (k & Hk & [-> Hn]%decodeKey_Fail)%scan_errors.
    right. right. by eexists _, contents, k.
Qed.

(** X13: a call that is written reads back, with or without its marker.
    When the call serializes to bytes that decode to the call again and
    the upload of its record succeeds, [InsertCall] returns without panic,
    with no error or with the error of the marker upload only, and
    [GetCall] on the bucket it leaves returns the call for its app and
    id. *)
Theorem InsertCall_GetCall (Upload : string → string → option s3err)
    (b : gmap string string) (call : Call) (byts x : string) :
  jsonMarshal call = Ok byts →
  jsonUnmarshal byts = Ok call →
  flipCursor (ID call) = Ret x →
  Upload (callKeyFlipped (AppID call) x) byts = None →
  ∃ b' ops err,
    InsertCall Upload b call = Ret (b', ops, err)
    ∧ (err = None ∨ ∃ cause, err = Some (ErrMarkerKey cause))
    ∧ GetCall (bucketBackend b') (AppID call) (ID call) = Ret (Ok call).
Proof.
  intros Hm Hu Hx Hup. unfold S3.InsertCall, S3.GetCall, S3.callKey,
    S3.callMarkerKey. rewrite Hm, Hx, Hup.
  unfold S3.getCallByKey. simpl.
  destruct (Upload _ "") as [cause|]; eexists _, _, _;
    (split; [done|]); (split; [eauto|]).
  - by rewrite lookup_insert_eq, Hu.
  - rewrite lookup_insert_ne by done. by rewrite lookup_insert_eq, Hu.
Qed.

End ListingFacts.

(** ** The revision with [xorCursor], its store *)

Section XorStoreFacts.
Import S3.

Variable jsonMarshal : Call → res string.
Variable jsonUnmarshal : string → res Call.

Local Abbreviation InsertCall := (XorStore.InsertCall jsonMarshal).
Local Abbreviation GetCall := (XorStore.GetCall jsonUnmarshal).
Local Abbreviation GetCalls := (XorStore.GetCalls jsonUnmarshal).

Lemma contains_app c s t :
  contains c (s +:+ t) = contains c s || contains c t.
Proof.
  induction s as [|d s IH]; simpl; [done|].
  destruct (Ascii.eqb d c); [done|]. by rewrite IH.
Qed.

(** The keys [InsertCall] of this revision writes hold no colon unless the
    app, the path or the flipped id does. *)
Lemma XorStore_InsertCall_colons Upload (b : gmap string string) call :
  (∀ k, is_Some (b !! k) → contains ":" k = false) →
  contains ":" (AppID call) = false →
  contains ":" (Path call) = false →
  contains ":" (Xor.xorCursor (ID call)) = false →
  ∀ k, is_Some ((InsertCall Upload b call).1.1 !! k) →
       contains ":" k = false.
Proof.
  intros Hb Ha Hp Hx. unfold XorStore.InsertCall.
  destruct (jsonMarshal call) as [byts|]; [|done].
  assert (contains ":" (Xor.callKey (AppID call) (ID call)) = false) as Hc.
  { unfold Xor.callKey, Xor.callKeyPrefix.
    rewrite !contains_app, Ha, Hx. done. }
  assert (contains ":" (Xor.callMarkerKey (AppID call) (Path call) (ID call))
          = false) as Hm.
  { unfold Xor.callMarkerKey, Xor.callMarkerPrefix.
    rewrite !contains_app, Ha, Hp, Hx. done. }
  destruct (Upload _ byts); [done|].
  destruct (Upload _ ""); simpl; intros k Hk;
    repeat (apply lookup_insert_is_Some in Hk as [<-|[_ Hk]]; [done|]);
    auto.
Qed.

(** X14: the listing of this revision cannot read the keys its
    [InsertCall] writes. It splits a listed key at colons and indexes the
    fields unchecked, while the keys are joined with slashes: on a bucket
    whose keys hold no colon, [GetCalls] panics at the first key listed,
    before any download, and returns, without a call, only when nothing
    is listed. *)
Theorem XorStore_GetCalls_colon_free (b : gmap string string)
    (flt : CallFilter) :
  (∀ k, is_Some (b !! k) → contains ":" k = false) →
  let input :=
    {| MaxKeys := PerPage flt;
       Marker := Xor.listMarker (fAppID flt) (fPath flt) (Cursor flt);
       Prefix := Xor.listPrefix (fAppID flt) (fPath flt)
                   (XorStore.timePrefix flt) |} in
  GetCalls (bucketBackend b) flt
  = ([OpList input],
     if decide (bucketList b input = []) then Ret ([], None) else Panic).
Proof.
  intros Hb input. unfold XorStore.GetCalls. simpl. fold input.
  destruct (bucketList b input) as [|k rest] eqn:E; [done|].
  rewrite decide_False by done. simpl.
  assert (k ∈ bucketList b input) as Hk by (rewrite E; apply list_elem_of_here).
  apply subseteq_take, list_elem_of_filter in Hk as [_ Hk].
  apply elem_of_sortedKeys, Hb in Hk.
  unfold XorStore.keyFields. rewrite Split_one by done. simpl.
  by destruct (decide (fPath flt ≠ "")).
Qed.

(** X15: in this revision a listing does not go past its first page. The
    marker for a cursor is still written with the colons of the revision
    before, and sorts after every key under the prefix: with a cursor,
    [GetCalls] returns no call and no error, on every bucket. *)
Theorem XorStore_GetCalls_after_cursor (b : gmap string string)
    (flt : CallFilter) :
  Cursor flt ≠ "" →
  (GetCalls (bucketBackend b) flt).2 = Ret ([], None)
  ∧ length (GetCalls (bucketBackend b) flt).1 = 1.
Proof.
  intros Hc. unfold XorStore.GetCalls. simpl.
  by rewrite stale_marker_lists_nothing.
Qed.

Lemma xorCursor_inj x y : Xor.xorCursor x = Xor.xorCursor y → x = y.
Proof.
  intros E. by rewrite <- (xorCursor_twice x), E, xorCursor_twice.
Qed.

(** X16: in this revision too a call that is written reads back, with or
    without its marker, and without a panic for an id of any length; and
    for apps without a slash the record of one call is never the record
    of another: [GetCall] for any other app or id returns what it did
    before the insert. *)
Theorem XorStore_InsertCall_GetCall
    (Upload : string → string → option s3err)
    (b : gmap string string) (call : Call) (byts : string) :
  jsonMarshal call = Ok byts →
  jsonUnmarshal byts = Ok call →
  Upload (Xor.callKey (AppID call) (ID call)) byts = None →
  let b' := (InsertCall Upload b call).1.1 in
  GetCall (bucketBackend b') (AppID call) (ID call) = Ok call
  ∧ ∀ app id,
      contains "/" app = false → contains "/" (AppID call) = false →
      (app, id) ≠ (AppID call, ID call) →
      GetCall (bucketBackend b') app id = GetCall (bucketBackend b) app id.
Proof.
  intros Hm Hu Hup. unfold XorStore.InsertCall, XorStore.GetCall.
  rewrite Hm, Hup. unfold S3.getCallByKey.
  assert (∀ app id, contains "/" app = false →
            contains "/" (AppID call) = false →
            (app, id) ≠ (AppID call, ID call) →
            Xor.callKey app id ≠ Xor.callKey (AppID call) (ID call)) as Hne.
  { intros app id Ha Hc Hd E. unfold Xor.callKey, Xor.callKeyPrefix in E.
    injection E as E. apply field_inj in E as [-> E%xorCursor_inj]; try done.
    by subst. }
  destruct (Upload _ ""); simpl.
  - rewrite lookup_insert_eq. split; [done|]. intros app id Ha Hc Hd.
    by rewrite lookup_insert_ne by (apply not_eq_sym, Hne; done).
  - rewrite lookup_insert_ne by done. rewrite lookup_insert_eq.
    split; [done|]. intros app id Ha Hc Hd.
    rewrite lookup_insert_ne by done.
    by rewrite lookup_insert_ne by (apply not_eq_sym, Hne; done).
Qed.

End XorStoreFacts.

(** ** Base 64 *)

Section Base64Facts.
Import S3.

Lemma decodeMap_enc64 v : N.of_nat (decodeMap (enc64 v) encodeURL) = (v mod 64)%N.
Proof.
  unfold enc64. change 63%N with (N.ones 6). rewrite N.land_ones.
  change (2 ^ 6)%N with 64%N.
  pose proof (N.mod_upper_bound v 64 ltac:(done)) as Hlt.
  set (n := N.to_nat (v mod 64)).
  replace (v mod 64)%N with (N.of_nat n) by (subst n; apply N2Nat.id).
  assert (n < 64) as Hn by lia. clearbody n. clear Hlt. f_equal.
  do 64 (destruct n as [|n]; [reflexivity|]). lia.
Qed.

Lemma enc64_inj u v : enc64 u = enc64 v → (u mod 64 = v mod 64)%N.
Proof. intros E. by rewrite <- !decodeMap_enc64, E. Qed.

Lemma lor_shiftl_small y k x :
  (x < 2 ^ k)%N → N.lor (N.shiftl y k) x = (y * 2 ^ k + x)%N.
Proof.
  intros Hx.
  assert (N.land (N.shiftl y k) x = 0%N) as H0.
  { apply N.bits_inj_0. intros n. rewrite N.land_spec.
    destruct (N.ltb_spec n k) as [Hn|Hn].
    - by rewrite N.shiftl_spec_low.
    - rewrite <- (N.mod_small x (2 ^ k)) by done.
      rewrite N.mod_pow2_bits_high by done. apply andb_false_r. }
  rewrite <- N.lxor_lor, <- N.add_nocarry_lxor by done.
  by rewrite N.shiftl_mul_pow2.
Qed.

Lemma N_of_ascii_lt a : (N_of_ascii a < 256)%N.
Proof. apply N_ascii_bounded. Qed.

Lemma val3 a b c :
  N.lor (N.lor (N.shiftl (N_of_ascii a) 16) (N.shiftl (N_of_ascii b) 8))
        (N_of_ascii c)
  = (N_of_ascii a * 65536 + N_of_ascii b * 256 + N_of_ascii c)%N.
Proof.
  pose proof (N_of_ascii_lt a). pose proof (N_of_ascii_lt b).
  pose proof (N_of_ascii_lt c).
  replace (N.lor (N.shiftl (N_of_ascii a) 16) (N.shiftl (N_of_ascii b) 8))
    with (N.shiftl (N_of_ascii a * 256 + N_of_ascii b) 8).
  - rewrite lor_shiftl_small by (change (2 ^ 8)%N with 256%N; lia).
    change (2 ^ 8)%N with 256%N. lia.
  - rewrite <- (lor_shiftl_small _ 8) by (change (2 ^ 8)%N with 256%N; lia).
    rewrite N.shiftl_lor, N.shiftl_shiftl. reflexivity.
Qed.

Lemma val2 a b :
  N.lor (N.shiftl (N_of_ascii a) 16) (N.shiftl (N_of_ascii b) 8)
  = (N_of_ascii a * 65536 + N_of_ascii b * 256)%N.
Proof.
  pose proof (val3 a b zero) as H. simpl N_of_ascii in H at 3.
  rewrite N.lor_0_r in H. rewrite H. simpl. lia.
Qed.

Lemma div_mod_eq64 x y :
  (x / 64 = y / 64)%N → (x mod 64 = y mod 64)%N → x = y.
Proof.
  intros Hd Hm. rewrite (N.div_mod x 64), (N.div_mod y 64) by done.
  by rewrite Hd, Hm.
Qed.

(** A number below [2^24] is given by its four digits in base 64. *)
Lemma sextets v w :
  (v < 2 ^ 24)%N → (w < 2 ^ 24)%N →
  ((N.shiftr v 18) mod 64 = (N.shiftr w 18) mod 64)%N →
  ((N.shiftr v 12) mod 64 = (N.shiftr w 12) mod 64)%N →
  ((N.shiftr v 6) mod 64 = (N.shiftr w 6) mod 64)%N →
  (v mod 64 = w mod 64)%N → v = w.
Proof.
  change 18%N with (6 + 6 + 6)%N. change 12%N with (6 + 6)%N.
  rewrite <- !N.shiftr_shiftr, !N.shiftr_div_pow2.
  change (2 ^ 24)%N with (64 * (64 * (64 * 64)))%N.
  change (2 ^ 6)%N with 64%N.
  intros Hv Hw H3 H2 H1 H0.
  do 3 (apply div_mod_eq64; [|done]).
  rewrite !N.mod_small in H3; [done|..];
    by do 3 apply N.Div0.div_lt_upper_bound.
Qed.

Lemma EncodeToString_two a b :
  EncodeToString (String a (String b ""))
  = let val := N.lor (N.shiftl (N_of_ascii a) 16)
                     (N.shiftl (N_of_ascii b) 8) in
    String (enc64 (N.shiftr val 18)) (String (enc64 (N.shiftr val 12))
      (String (enc64 (N.shiftr val 6)) "")).
Proof. reflexivity. Qed.

Lemma EncodeToString_one a :
  EncodeToString (String a "")
  = let val := N.shiftl (N_of_ascii a) 16 in
    String (enc64 (N.shiftr val 18)) (String (enc64 (N.shiftr val 12)) "").
Proof. reflexivity. Qed.

Lemma N_of_ascii_inj a b : N_of_ascii a = N_of_ascii b → a = b.
Proof.
  intros E. by rewrite <- (ascii_N_embedding a), E, ascii_N_embedding.
Qed.

Lemma val1 a : N.shiftl (N_of_ascii a) 16 = (N_of_ascii a * 65536)%N.
Proof. by rewrite N.shiftl_mul_pow2. Qed.

(** The low digits of a group of fewer than three bytes are zero. *)
Lemma low1 (x : N) :
  ((N.shiftr (x * 65536) 6) mod 64 = 0)%N ∧ ((x * 65536) mod 64 = 0)%N.
Proof.
  rewrite N.shiftr_div_pow2. split.
  - replace (x * 65536)%N with (x * 1024 * 2 ^ 6)%N by lia.
    rewrite N.div_mul by done.
    replace (x * 1024)%N with (x * 16 * 64)%N by lia.
    apply N.Div0.mod_mul.
  - replace (x * 65536)%N with (x * 1024 * 64)%N by lia.
    apply N.Div0.mod_mul.
Qed.

Lemma low2 (x y : N) : ((x * 65536 + y * 256) mod 64 = 0)%N.
Proof.
  replace (x * 65536 + y * 256)%N with ((x * 1024 + y * 4) * 64)%N by lia.
  apply N.Div0.mod_mul.
Qed.

Lemma val_lt a b c :
  (a < 256 → b < 256 → c < 256 → a * 65536 + b * 256 + c < 2 ^ 24)%N.
Proof. change (2 ^ 24)%N with 16777216%N. lia. Qed.

(** Base 64 loses nothing: two byte strings with one encoding are the
    same. *)
Lemma EncodeToString_inj s t : EncodeToString s = EncodeToString t → s = t.
Proof.
  assert (∀ n s t, String.length s ≤ n →
            EncodeToString s = EncodeToString t → s = t) as H.
  { induction n as [|n IH]; intros s' t' Hn E.
    - destruct s'; [|simpl in Hn; lia].
      by destruct t' as [|a [|b [|c rest]]].
    - destruct s' as [|a [|b [|c rest]]], t' as [|a' [|b' [|c' rest']]];
        rewrite ?EncodeToString_three, ?EncodeToString_two,
          ?EncodeToString_one in E; cbv zeta in E; try done.
      + injection E as E1 E2. apply enc64_inj in E1, E2.
        rewrite !val1 in E1, E2.
        pose proof (N_of_ascii_lt a). pose proof (N_of_ascii_lt a').
        destruct (low1 (N_of_ascii a)), (low1 (N_of_ascii a')).
        assert (N_of_ascii a * 65536 = N_of_ascii a' * 65536)%N as EV.
        { apply sextets; try congruence.
          - change (2 ^ 24)%N with 16777216%N. lia.
          - change (2 ^ 24)%N with 16777216%N. lia. }
        f_equal. apply N_of_ascii_inj. lia.
      + injection E as E1 E2 E3. apply enc64_inj in E1, E2, E3.
        rewrite !val2 in E1, E2, E3.
        pose proof (N_of_ascii_lt a). pose proof (N_of_ascii_lt a').
        pose proof (N_of_ascii_lt b). pose proof (N_of_ascii_lt b').
        pose proof (low2 (N_of_ascii a) (N_of_ascii b)).
        pose proof (low2 (N_of_ascii a') (N_of_ascii b')).
        assert (N_of_ascii a * 65536 + N_of_ascii b * 256
                = N_of_ascii a' * 65536 + N_of_ascii b' * 256)%N as EV.
        { apply sextets; try congruence.
          - change (2 ^ 24)%N with 16777216%N. lia.
          - change (2 ^ 24)%N with 16777216%N. lia. }
        f_equal; [|f_equal]; apply N_of_ascii_inj; lia.
      + injection E as E1 E2 E3 E4 E. apply enc64_inj in E1, E2, E3, E4.
        rewrite !val3 in E1, E2, E3, E4.
        pose proof (N_of_ascii_lt a). pose proof (N_of_ascii_lt a').
        pose proof (N_of_ascii_lt b). pose proof (N_of_ascii_lt b').
        pose proof (N_of_ascii_lt c). pose proof (N_of_ascii_lt c').
        assert (N_of_ascii a * 65536 + N_of_ascii b * 256 + N_of_ascii c
                = N_of_ascii a' * 65536 + N_of_ascii b' * 256
                  + N_of_ascii c')%N as EV.
        { apply sextets; try done; by apply val_lt. }
        apply IH in E; [|simpl in Hn; lia]. subst rest'.
        f_equal; [|f_equal; [|f_equal]]; apply N_of_ascii_inj; lia. }
  by apply (H (String.length s)).
Qed.

End Base64Facts.

(** ** The store of the first revision *)

Section OldFacts.
Import S3.

Variable jsonMarshal : Call → res string.
Variable jsonUnmarshal : string → res Call.

Local Abbreviation InsertCall := (Old.InsertCall jsonMarshal).
Local Abbreviation GetCall := (Old.GetCall jsonUnmarshal).
Local Abbreviation GetCalls := (Old.GetCalls jsonUnmarshal).

Lemma get_default_not_colon n :
  match String.get n encodeURL with Some c => c | None => "A"%char end
  ≠ ":"%char.
Proof. do 64 (destruct n as [|n]; [discriminate|]). discriminate. Qed.

(** An encoding is empty or starts with two characters of the alphabet:
    its second character is no colon. *)
Lemma EncodeToString_head s :
  EncodeToString s = ""
  ∨ ∃ u v r, EncodeToString s = String (enc64 u) (String (enc64 v) r).
Proof.
  destruct s as [|a [|b [|c rest]]]; [by left|right..].
  - rewrite EncodeToString_one. by eexists _, _, _.
  - rewrite EncodeToString_two. by eexists _, _, _.
  - rewrite EncodeToString_three. by eexists _, _, _.
Qed.

Lemma path_not_colon_key (c : ascii) app rest tail :
  c ≠ "/"%char →
  EncodeToString app +:+ "/" +:+ rest ≠ String c (String ":" tail).
Proof.
  intros Hc. destruct (EncodeToString_head app) as [->|(u & v & r & ->)].
  - simpl. intros [= E _]. by subst.
  - simpl. intros [= _ E _]. by apply get_default_not_colon in E.
Qed.

Lemma append_inj_r s t u : s +:+ u = t +:+ u → s = t.
Proof.
  intros E.
  assert (String.length s = String.length t) as HL.
  { apply (f_equal String.length) in E. rewrite !length_app_s in E. lia. }
  revert t E HL. induction s as [|c s IH]; intros [|d t] E HL; try done.
  simpl in *. injection E as -> E. f_equal. apply IH; [done|lia].
Qed.

Lemma callPath_inj app id app' id' :
  Old.callPath app id = Old.callPath app' id' → app = app' ∧ id = id'.
Proof.
  unfold Old.callPath. intros E.
  apply field_inj in E as [E1 E2]; try apply EncodeToString_no_slash.
  apply EncodeToString_inj in E1. apply append_inj_r in E2.
  by apply xorCursor_inj in E2.
Qed.

Lemma raw_not_log s t : s +:+ "/raw" ≠ t +:+ "/log".
Proof.
  intros E.
  assert (String.length s = String.length t) as HL.
  { apply (f_equal String.length) in E. rewrite !length_app_s in E.
    simpl in E. lia. }
  revert t E HL. induction s as [|c s IH]; intros [|d t] E HL; try done.
  simpl in *. injection E as -> E. apply (IH t); [done|lia].
Qed.

Lemma callPath_not_logPath app id app' id' :
  Old.callPath app id ≠ Old.logPath app' id'.
Proof.
  unfold Old.callPath, Old.logPath. intros E.
  apply field_inj in E as [_ E]; try apply EncodeToString_no_slash.
  by apply raw_not_log in E.
Qed.

(** X17: in the first revision the record of a call has a key of its own,
    whatever bytes the app name and the id hold: the app name goes into
    the key in base 64. A call that is written reads back; [GetCall] for
    any other app or id returns what it did before the insert; and the
    object of every log is what it was, as no key of a call is the key of
    a log. *)
Theorem Old_InsertCall_GetCall
    (Upload : string → string → option s3err)
    (b : gmap string string) (call : Call) (byts : string) :
  jsonMarshal call = Ok byts →
  jsonUnmarshal byts = Ok call →
  Upload (Old.callPath (AppID call) (ID call)) byts = None →
  let b' := (InsertCall Upload b call).1.1 in
  GetCall (bucketBackend b') (AppID call) (ID call) = Ok call
  ∧ (∀ app id, (app, id) ≠ (AppID call, ID call) →
       GetCall (bucketBackend b') app id = GetCall (bucketBackend b) app id)
  ∧ (∀ app id, b' !! Old.logPath app id = b !! Old.logPath app id).
Proof.
  intros Hm Hu Hup. unfold Old.InsertCall, Old.GetCall.
  rewrite Hm, Hup. unfold S3.getCallByKey. simpl.
  rewrite lookup_insert_eq. split; [done|]. split.
  - intros app id Hne. rewrite lookup_insert_ne; [done|].
    intros [E1 E2]%callPath_inj. apply Hne. by rewrite E1, E2.
  - intros app id. apply lookup_insert_ne, callPath_not_logPath.
Qed.

Lemma Old_InsertCall_keysWritten Upload (b : gmap string string) call :
  Old.keysWritten b → Old.keysWritten (InsertCall Upload b call).1.1.
Proof.
  intros Hb. unfold Old.InsertCall.
  destruct (jsonMarshal call) as [byts|]; [|done].
  destruct (Upload _ byts); [done|]. simpl.
  intros k [<-|[_ Hk]]%lookup_insert_is_Some; [|by apply Hb].
  eexists _, _. by left.
Qed.

Lemma Old_InsertLog_keysWritten Upload chunk (b : gmap string string)
    appID callID callLog :
  Old.keysWritten b →
  Old.keysWritten (Old.InsertLog Upload chunk b appID callID callLog).1.1.1.
Proof.
  intros Hb. unfold Old.InsertLog.
  destruct (Logs.drain _ _ _ _) as [[body e] cr'].
  destruct (Upload _ body); [done|]. simpl.
  intros k [<-|[_ Hk]]%lookup_insert_is_Some; [|by apply Hb].
  eexists _, _. by right.
Qed.

(** X18: the first revision cannot list what it writes. Its [GetCalls]
    lists under the prefixes ["s:"] and ["m:"] of keys that [InsertCall]
    does not write yet: on a bucket that holds only calls and logs as this
    revision stores them, it returns no call and no error, for every
    filter, after the one listing request. *)
Theorem Old_GetCalls_lists_nothing (b : gmap string string)
    (flt : CallFilter) :
  Old.keysWritten b →
  (GetCalls (bucketBackend b) flt).2 = Ret ([], None)
  ∧ length (GetCalls (bucketBackend b) flt).1 = 1.
Proof.
  intros Hb. unfold Old.GetCalls. simpl.
  set (input := {| MaxKeys := PerPage flt; Marker := _; Prefix := _ |}).
  assert (bucketList b input = []) as ->; [|done].
  unfold bucketList. rewrite (filter_none _ (sortedKeys b));
    [by rewrite take_nil|].
  apply Forall_forall. intros k Hk%elem_of_sortedKeys [Hp _].
  apply prefix_app in Hp as [r Hr]. subst input. simpl in Hr.
  destruct (Hb k Hk) as (app & id & [-> | ->]);
    unfold Old.callPath, Old.logPath in Hr;
    destruct (decide (fPath flt ≠ "")); simpl in Hr;
    by apply path_not_colon_key in Hr.
Qed.

End OldFacts.

(** ** The order of a listing *)

Section OrderedListing.
Import S3.

Variable MarshalDescending : string → string.
Variable IdString : string → string.
Variable jsonMarshal : Call → res string.
Variable jsonUnmarshal : string → res Call.

Local Abbreviation flipCursor := (S3.flipCursor MarshalDescending).
Local Abbreviation callKey := (S3.callKey MarshalDescending).
Local Abbreviation callMarkerKey := (S3.callMarkerKey MarshalDescending).
Local Abbreviation getCallByKey := (S3.getCallByKey jsonUnmarshal).
Local Abbreviation scan := (S3.scan jsonUnmarshal).
Local Abbreviation recordAt := (S3.recordAt jsonUnmarshal).
Local Abbreviation wellKeyed := (S3.wellKeyed MarshalDescending jsonUnmarshal).
Local Abbreviation GetCall := (S3.GetCall MarshalDescending jsonUnmarshal).
Local Abbreviation GetCalls :=
  (S3.GetCalls MarshalDescending IdString jsonUnmarshal).
Local Abbreviation InsertCall := (S3.InsertCall MarshalDescending jsonMarshal).
Local Abbreviation insertAll := (S3.insertAll MarshalDescending jsonMarshal).
Local Abbreviation validCall :=
  (S3.validCall MarshalDescending jsonMarshal jsonUnmarshal).
Local Abbreviation listPrefix := (S3.listPrefix MarshalDescending IdString).
Local Abbreviation listMarker := (S3.listMarker MarshalDescending).

Lemma compare_app p a b :
  String.compare (p +:+ a) (p +:+ b) = String.compare a b.
Proof.
  induction p as [|c p IH]; simpl; [done|].
  by rewrite ascii_compare_refl.
Qed.

Lemma StronglySorted_take {A} (R : relation A) n (l : list A) :
  StronglySorted R l → StronglySorted R (take n l).
Proof.
  revert n. induction l as [|x l IH]; intros [|n] Hs; simpl;
    try constructor.
  - apply IH. by apply StronglySorted_cons in Hs as [_ ?].
  - apply StronglySorted_cons in Hs as [Hx _].
    apply Forall_forall. intros y Hy%subseteq_take.
    by apply (proj1 (Forall_forall _ _) Hx).
Qed.

Lemma append_nil_r s : s +:+ "" = s.
Proof. induction s as [|c s IH]; simpl; [done|]. by rewrite IH. Qed.

Lemma prefix_append p r : String.prefix p (p +:+ r) = true.
Proof.
  induction p as [|c p IH]; simpl; [by destruct r|].
  by destruct (ascii_dec c c).
Qed.

Lemma slt_app p a b : slt (p +:+ a) (p +:+ b) ↔ slt a b.
Proof. unfold slt. by rewrite compare_app. Qed.

(** The key that leads back from the id of a call is the root of the
    namespace followed by the flipped id. *)
Lemma listMarker_root flt cursor k :
  cursor ≠ "" →
  listMarker (withCursor flt cursor) = Ret k →
  ∃ x, flipCursor cursor = Ret x ∧ k = namespaceRoot flt +:+ x.
Proof.
  intros Hc. unfold S3.listMarker, namespaceRoot. simpl.
  rewrite decide_True by done.
  unfold S3.callKey, S3.callMarkerKey.
  destruct (flipCursor cursor) as [x|]; [|done].
  destruct (decide (fPath flt ≠ "")); intros [= <-]; exists x;
    (split; [done|]); unfold callKeyFlipped; simpl;
    by repeat (rewrite app_assoc_s; simpl).
Qed.

(** The loop keeps the order of the keys: over keys in ascending order,
    each the root followed by the flipped id of its call, the flipped ids
    of the calls gathered ascend. *)
Lemma scan_ascending be flt keys acc xs calls err :
  StronglySorted slt keys →
  Forall (wellKeyed be flt) keys →
  Forall2 (λ c x, flipCursor (ID c) = Ret x) acc xs →
  StronglySorted slt xs →
  (∀ x k, x ∈ xs → k ∈ keys → slt (namespaceRoot flt +:+ x) k) →
  (scan be flt keys acc).2 = Ret (calls, err) →
  ∃ xs', Forall2 (λ c x, flipCursor (ID c) = Ret x) calls xs'
         ∧ StronglySorted slt xs'.
Proof.
  revert acc xs. induction keys as [|key rest IH];
    intros acc xs Hs Hw Hacc Hxs Hlt; simpl.
  - intros [= <- <-]. by exists xs.
  - apply StronglySorted_cons in Hs as [Hkey Hs].
    apply Forall_cons in Hw as [Hwk Hw].
    assert (∀ x k, x ∈ xs → k ∈ rest → slt (namespaceRoot flt +:+ x) k)
      as Hlt'.
    { intros x k Hx Hk. apply Hlt; [done|by apply list_elem_of_further]. }
    unfold S3.wellKeyed, S3.recordAt in Hwk.
    destruct (decodeKey flt key) as [[[app id]|]|]; try done.
    destruct (getCallByKey be (callKeyFlipped app id)) as [call|];
      [|done].
    destruct Hwk as [Hid Hm].
    apply listMarker_root in Hm as (x & Hx & ->); [|done].
    destruct (negb (IsZero (FromTime flt)) && _); simpl;
      [by apply (IH acc xs)|].
    destruct (negb (IsZero (ToTime flt)) && _); simpl;
      [intros [= <- <-]; by exists xs|].
    apply (IH (acc ++ [call]) (xs ++ [x])); try done.
    + apply Forall2_app; [done|]. by constructor.
    + apply StronglySorted_app. split; [|split; [done|]].
      * intros y z Hy ->%list_elem_of_singleton.
        apply (slt_app (namespaceRoot flt)).
        apply Hlt; [done|apply list_elem_of_here].
      * repeat constructor.
    + intros y k [Hy| ->%list_elem_of_singleton]%elem_of_app Hk.
      * by apply Hlt'.
      * by apply (proj1 (Forall_forall _ _) Hkey).
Qed.

(** X19: a listing is in the order of the flipped ids. On a bucket made by
    inserting calls that are fit for the store, the calls that [GetCalls]
    returns, for any filter, have flipped ids in strictly ascending byte
    order: no call comes twice, and with an order-reversing
    [MarshalDescending] the ids descend, newest first. *)
Theorem GetCalls_ascending_flipped
    (Upload : string → string → option s3err) (stored : list Call)
    (flt : CallFilter) (calls : list Call) (err : option error) :
  Forall validCall stored →
  (GetCalls (bucketBackend (insertAll Upload stored ∅)) flt).2
  = Ret (calls, err) →
  ∃ xs, Forall2 (λ c x, flipCursor (ID c) = Ret x) calls xs
        ∧ StronglySorted slt xs.
Proof.
  intros Hvalid. set (b := insertAll Upload stored ∅).
  assert (S3.bucketOk MarshalDescending jsonUnmarshal b) as Hb
    by (apply bucketOk_insertAll; [done|apply bucketOk_empty]).
  pose proof (bucketOk_wellKeyed MarshalDescending jsonUnmarshal b flt Hb)
    as Hkeys.
  unfold S3.GetCalls.
  destruct (decide (fAppID flt = "")); simpl;
    [intros [= <- <-]; exists []; split; constructor|].
  destruct (listPrefix flt) as [P|] eqn:HP; [|done].
  destruct (listMarker flt) as [m|]; [|done]. simpl.
  rewrite bucketList_keysUnder.
  assert (∃ r, P = namespaceRoot flt +:+ r) as [r ->].
  { destruct (IsZero (FromTime flt)) eqn:Hz.
    - rewrite listPrefix_root in HP by done. injection HP as <-.
      exists "". by rewrite append_nil_r.
    - apply listPrefix_from_time in HP as (mid & x & _ & _ & _ & ->);
        [|done]. by exists x. }
  set (keys := take _ _).
  assert (keys ⊆ keysUnder b (namespaceRoot flt)) as Hsub.
  { intros k Hk. subst keys.
    apply subseteq_take, list_elem_of_filter in Hk as [_ Hk].
    apply list_elem_of_filter in Hk as [Hpre Hin].
    apply list_elem_of_filter. split; [|done].
    apply prefix_app in Hpre as [t ->]. rewrite app_assoc_s.
    apply prefix_append. }
  intros H.
  apply (scan_ascending (bucketBackend b) flt keys [] [] calls err);
    try done; try constructor.
  - subst keys. apply StronglySorted_take.
    apply StronglySorted_filter, keysUnder_strict.
  - apply Forall_forall. intros k Hk%Hsub.
    by apply (proj1 (Forall_forall _ _) Hkeys).
  - by intros x k Hx%elem_of_nil.
Qed.

(** X20: the listing of a path never lists the marker of a call of
    another path or of another app. The path goes into the marker key in
    base 64, which has no slash and loses nothing, so with app ids without
    a slash a marker key falls under the prefix of a listing only when
    both the app and the path are those of the filter. *)
Theorem markers_of_other_paths (b : gmap string string) (flt : CallFilter)
    (P app path id mk marker : string) (n : Z) :
  listPrefix flt = Ret P →
  fPath flt ≠ "" →
  contains "/" (fAppID flt) = false →
  contains "/" app = false →
  callMarkerKey app path id = Ret mk →
  (app, path) ≠ (fAppID flt, fPath flt) →
  mk ∉ bucketList b {| MaxKeys := n; Marker := marker; Prefix := P |}.
Proof.
  intros HP Hpath Hf Ha Hmk Hne Hin.
  apply subseteq_take, list_elem_of_filter in Hin as [[Hpre _] _].
  simpl in Hpre. apply prefix_app in Hpre as [t ->].
  assert (∃ r, P = namespaceRoot flt +:+ r) as [r ->].
  { destruct (IsZero (FromTime flt)) eqn:Hz.
    - rewrite listPrefix_root in HP by done. injection HP as <-.
      exists "". by rewrite append_nil_r.
    - apply listPrefix_from_time in HP as (mid & x & _ & _ & _ & ->);
        [|done]. by exists x. }
  unfold S3.callMarkerKey in Hmk.
  destruct (flipCursor id) as [x|]; [|done]. injection Hmk as Hmk.
  unfold namespaceRoot, callMarkerPrefix in Hmk.
  rewrite decide_True in Hmk by done.
  repeat (rewrite ?app_assoc_s in Hmk; progress simpl in Hmk).
  injection Hmk as Hmk.
  apply field_inj in Hmk as [-> Hmk]; [|done..].
  apply field_inj in Hmk as [->%EncodeToString_inj _];
    [|apply EncodeToString_no_slash..].
  done.
Qed.

Lemma slice_to_None n s :
  slice_to n s = None ↔ String.length s < n.
Proof.
  revert s. induction n as [|n IH]; intros s; simpl; [split; [done|lia]|].
  destruct s as [|c s]; simpl; [split; [lia|done]|].
  specialize (IH s). destruct (slice_to n s); split; try done.
  - intros Hlt. assert (String.length s < n) as Hs by lia.
    by apply IH in Hs.
  - intros _. assert (String.length s < n) by (by apply IH). lia.
Qed.

(** [flipCursor] panics on an id that is not empty and is longer than
    what [MarshalDescending] returns for it: the slice of the first
    [len(oid)] bytes is out of range. [callKey] and [GetCall] panic with
    it. *)
Lemma flipCursor_Panic_iff (be : Backend) (app oid : string) :
  (flipCursor oid = Panic
   ↔ oid ≠ ""
     ∧ String.length (MarshalDescending (copyInto 16 oid))
       < String.length oid)
  ∧ (callKey app oid = Panic ↔ flipCursor oid = Panic)
  ∧ (GetCall be app oid = Panic ↔ flipCursor oid = Panic).
Proof.
  split; [|split].
  - unfold S3.flipCursor. destruct (decide (oid = "")) as [->|Hne].
    + split; [done|]. by intros [? _].
    + destruct (slice_to _ _) as [x|] eqn:E.
      * split; [done|]. intros [_ Hlt]. apply slice_to_None in Hlt.
        by rewrite E in Hlt.
      * split; [|done]. intros _. split; [done|]. by apply slice_to_None.
  - unfold S3.callKey. by destruct (flipCursor oid).
  - unfold S3.GetCall, S3.callKey. by destruct (flipCursor oid).
Qed.

Lemma decodeKey_no_panic flt k :
  3 ≤ length (Split "/" k) → decodeKey flt k ≠ Panic.
Proof.
  unfold decodeKey. intros H3.
  destruct (Split "/" k) as [|f0 [|f1 [|f2 [|f3 fs]]]]; simpl in *;
    try lia; destruct (decide (fPath flt ≠ "")); simpl;
    repeat case_decide; done.
Qed.

(** Over keys of three fields or more the loop does not panic. *)
Lemma scan_no_panic be flt keys acc :
  Forall (λ k, 3 ≤ length (Split "/" k)) keys →
  (scan be flt keys acc).2 ≠ Panic.
Proof.
  intros Hall. revert acc.
  induction Hall as [|key rest H3 _ IH]; intros acc; simpl; [done|].
  pose proof (decodeKey_no_panic flt key H3) as Hd.
  destruct (decodeKey flt key) as [[[app id]|]|]; [| |done]; simpl;
    [|done].
  destruct (getCallByKey be (callKeyFlipped app id)) as [call|];
    [|apply IH].
  destruct (negb (IsZero (FromTime flt)) && _); [apply IH|].
  destruct (negb (IsZero (ToTime flt)) && _); [done|apply IH].
Qed.

Lemma listMarker_Panic flt :
  listMarker flt = Panic
  ↔ Cursor flt ≠ ""
    ∧ String.length (MarshalDescending (copyInto 16 (Cursor flt)))
      < String.length (Cursor flt).
Proof.
  unfold S3.listMarker.
  destruct (flipCursor_Panic_iff (bucketBackend ∅) (fAppID flt) (Cursor flt))
    as (Hf & _ & _).
  destruct (decide (Cursor flt ≠ "")) as [Hc|Hc].
  - unfold S3.callKey, S3.callMarkerKey.
    destruct (flipCursor (Cursor flt)) as [x|].
    + split; [by destruct (decide (fPath flt ≠ ""))|].
      intros [_ Hlt]. by pose proof (proj2 Hf (conj Hc Hlt)).
    + split; [|done]. intros _. by apply Hf.
  - split; [done|]. by intros [? _].
Qed.

Lemma listPrefix_Panic flt :
  listPrefix flt = Panic
  ↔ IsZero (FromTime flt) = false
    ∧ (String.length (IdString (timeId (FromTime flt))) < 10
       ∨ ∃ mid, slice_to 10 (IdString (timeId (FromTime flt))) = Some mid
                ∧ String.length (MarshalDescending (copyInto 16 mid)) < 10).
Proof.
  unfold S3.listPrefix, timePrefix.
  destruct (IsZero (FromTime flt)) eqn:Hz; cbn [negb].
  - unfold S3.callKey, S3.callMarkerKey, S3.flipCursor. simpl.
    split; [by destruct (decide (fPath flt ≠ ""))|]. by intros [? _].
  - destruct (slice_to 10 (IdString (timeId (FromTime flt)))) as [mid|]
      eqn:Hmid.
    + pose proof (slice_to_length _ _ _ Hmid) as Hlen.
      destruct (flipCursor_Panic_iff (bucketBackend ∅) (fAppID flt) mid)
        as (Hf & _ & _).
      rewrite Hlen in Hf.
      unfold S3.callKey, S3.callMarkerKey.
      destruct (flipCursor mid) as [x|].
      * split; [by destruct (decide (fPath flt ≠ ""))|].
        intros [_ [Hlt|(mid' & [= <-] & Hlt)]].
        -- apply slice_to_None in Hlt. by rewrite Hmid in Hlt.
        -- assert (mid ≠ "") as Hne by (intros ->; simpl in Hlen; lia).
           by pose proof (proj2 Hf (conj Hne Hlt)).
      * split; [|done]. intros _. split; [done|]. right. exists mid.
        split; [done|]. by apply Hf.
    + split; [|done]. intros _. split; [done|]. left.
      by apply slice_to_None.
Qed.

(** X21: when and where [GetCalls] panics. On a backend that lists only
    keys under the prefix it is asked for, [GetCalls] panics exactly when
    the app id is not empty and building the prefix or the marker panics:
    [FromTime] is set and the text of the id buffer has fewer than ten
    bytes, or [MarshalDescending] returns fewer than ten bytes for its
    first ten, or the cursor is longer than what [MarshalDescending]
    returns for it. It then panics before any request. The loop itself
    never panics, although the fields of a call key are indexed before
    their number is checked: a key under the prefix has three fields at
    least. *)
Theorem GetCalls_Panic_iff (be : Backend) (flt : CallFilter) :
  (∀ input contents, ListObjects be input = inr contents →
     Forall (λ k, String.prefix (Prefix input) k = true) contents) →
  ((GetCalls be flt).2 = Panic
   ↔ fAppID flt ≠ ""
     ∧ ((IsZero (FromTime flt) = false
         ∧ (String.length (IdString (timeId (FromTime flt))) < 10
            ∨ ∃ mid,
                slice_to 10 (IdString (timeId (FromTime flt))) = Some mid
                ∧ String.length (MarshalDescending (copyInto 16 mid)) < 10))
        ∨ (Cursor flt ≠ ""
           ∧ String.length (MarshalDescending (copyInto 16 (Cursor flt)))
             < String.length (Cursor flt))))
  ∧ ((GetCalls be flt).2 = Panic → (GetCalls be flt).1 = []).
Proof.
  intros Hlist.
  rewrite <- listPrefix_Panic, <- listMarker_Panic.
  unfold S3.GetCalls.
  destruct (decide (fAppID flt = "")) as [Happ|Happ]; simpl.
  { split; [|done]. split; [done|]. by intros [? _]. }
  destruct (listPrefix flt) as [P|] eqn:HP; simpl;
    [|split; [|done]; split; [|done]; intros _; split; [done|by left]].
  destruct (listMarker flt) as [m|] eqn:Hm; simpl;
    [|split; [|done]; split; [|done]; intros _; split; [done|by right]].
  destruct (ListObjects be _) as [e|contents] eqn:HL; simpl.
  { split; [|done]. split; [done|]. by intros [_ [?|?]]. }
  assert ((scan be flt contents []).2 ≠ Panic) as Hscan.
  { apply scan_no_panic. specialize (Hlist _ _ HL). simpl in Hlist.
    eapply Forall_impl; [exact Hlist|]. simpl.
    intros k [r ->]%prefix_app.
    rewrite Split_length, count_app.
    pose proof (listPrefix_slashes _ _ _ _ HP). lia. }
  split; [|done]. split; [done|]. by intros [_ [?|?]].
Qed.

(** Buckets list only keys under the prefix. *)
Lemma bucketList_prefix (b : gmap string string) input contents :
  ListObjects (bucketBackend b) input = inr contents →
  Forall (λ k, String.prefix (Prefix input) k = true) contents.
Proof.
  simpl. intros [= <-]. apply Forall_forall.
  by intros k [[Hp _] _]%subseteq_take%list_elem_of_filter.
Qed.

(** X22: the store tells ids apart by their first 16 bytes and their
    length, the size of an [id.Id]: two ids that agree on both have one
    record key and one marker key, so that [GetCall] returns the same for
    them and an insert under one replaces the record of the other. *)
Theorem ids_beyond_16_bytes (be : Backend) (app path s t1 t2 : string) :
  String.length s = 16 →
  String.length t1 = String.length t2 →
  callKey app (s +:+ t1) = callKey app (s +:+ t2)
  ∧ callMarkerKey app path (s +:+ t1) = callMarkerKey app path (s +:+ t2)
  ∧ GetCall be app (s +:+ t1) = GetCall be app (s +:+ t2).
Proof.
  intros Hs Ht. unfold S3.GetCall, S3.callKey, S3.callMarkerKey.
  by rewrite (flipCursor_first16 MarshalDescending s t1 t2).
Qed.

(** A key under the namespace of a filter that leads to a call brings
    the call into the listing, when nothing bounds the listing. *)
Lemma listed_of_key (b : gmap string string) (flt : CallFilter) c k :
  S3.bucketOk MarshalDescending jsonUnmarshal b →
  fAppID flt ≠ "" →
  IsZero (FromTime flt) = true → IsZero (ToTime flt) = true →
  Cursor flt = "" →
  (Z.of_nat (length (keysUnder b (namespaceRoot flt))) ≤ PerPage flt)%Z →
  k ∈ keysUnder b (namespaceRoot flt) →
  recordAt (bucketBackend b) flt k = Some c →
  ∃ calls, (GetCalls (bucketBackend b) flt).2 = Ret (calls, None)
           ∧ c ∈ calls.
Proof.
  intros Hb Happ Hfrom Hto Hcur Hpage Hk Hr.
  pose proof (bucketOk_wellKeyed MarshalDescending jsonUnmarshal b flt Hb)
    as Hkeys.
  assert (0 < PerPage flt)%Z as Hpos.
  { destruct (keysUnder b (namespaceRoot flt));
      [by apply elem_of_nil in Hk|simpl in Hpage; lia]. }
  destruct (paginate_wellKeyed MarshalDescending IdString jsonUnmarshal
              b flt Happ Hfrom Hto Hkeys Hpos) as (_ & H2 & _).
  specialize (H2 (PerPage flt) Hpage).
  assert (withCursor (withPerPage flt (PerPage flt)) "" = flt) as Eflt.
  { destruct flt. simpl in *. by subst. }
  rewrite Eflt in H2. eexists. split; [exact H2|].
  apply list_elem_of_omap. by exists k.
Qed.

(** The record key of a call is under the namespace of its app and leads
    to the call. *)
Lemma record_key_leads (b : gmap string string) (flt : CallFilter) c
    byts x :
  fPath flt = "" → fAppID flt = AppID c →
  contains "/" (AppID c) = false → contains "/" x = false →
  b !! callKeyFlipped (AppID c) x = Some byts →
  jsonUnmarshal byts = Ok c →
  callKeyFlipped (AppID c) x ∈ keysUnder b (namespaceRoot flt)
  ∧ recordAt (bucketBackend b) flt (callKeyFlipped (AppID c) x) = Some c.
Proof.
  intros Hp Happ Ha Hx Hrec Hu.
  unfold S3.recordAt, decodeKey, namespaceRoot. rewrite Happ, Hp.
  rewrite decide_False by (by intros ?). split.
  - apply list_elem_of_filter. split.
    + unfold callKeyFlipped.
      replace (callKeyPrefix +:+ AppID c +:+ "/" +:+ x)
        with ((callKeyPrefix +:+ AppID c +:+ "/") +:+ x)
        by (by rewrite !app_assoc_s).
      apply prefix_append.
    + apply elem_of_sortedKeys. by rewrite Hrec.
  - rewrite Split_callKeyFlipped by done.
    simpl. destruct (decide (3 ≠ 3)); [done|].
    unfold S3.getCallByKey, bucketBackend. cbn [GetObject].
    by rewrite Hrec, Hu.
Qed.

(** X23: a call that is inserted is found. After [InsertCall] has
    returned without error for a call fit for the store, on a bucket of
    such calls, [GetCalls] for the app of the call, with no path or with
    the path of the call, no time bound, no cursor and a page size that
    covers the keys of the namespace, returns without error and the call
    is among the calls returned. *)
Theorem InsertCall_is_listed
    (Upload : string → string → option s3err) (stored : list Call)
    (c : Call) (b' : gmap string string) (ops : list Op)
    (flt : CallFilter) :
  Forall validCall stored → validCall c →
  InsertCall Upload (insertAll Upload stored ∅) c = Ret (b', ops, None) →
  fAppID flt = AppID c → AppID c ≠ "" →
  fPath flt = "" ∨ fPath flt = Path c →
  IsZero (FromTime flt) = true → IsZero (ToTime flt) = true →
  Cursor flt = "" →
  (Z.of_nat (length (keysUnder b' (namespaceRoot flt))) ≤ PerPage flt)%Z →
  ∃ calls, (GetCalls (bucketBackend b') flt).2 = Ret (calls, None)
           ∧ c ∈ calls.
Proof.
  intros Hstored Hc HI Happ Hne Hpath Hfrom Hto Hcur Hpage.
  set (b := insertAll Upload stored ∅) in *.
  assert (S3.bucketOk MarshalDescending jsonUnmarshal b) as Hb
    by (apply bucketOk_insertAll; [done|apply bucketOk_empty]).
  pose proof (bucketOk_InsertCall MarshalDescending jsonMarshal
                jsonUnmarshal Upload b c Hc Hb) as Hb'.
  rewrite HI in Hb'.
  assert (fAppID flt ≠ "") as Happ' by (by rewrite Happ).
  assert (∃ k, k ∈ keysUnder b' (namespaceRoot flt)
               ∧ recordAt (bucketBackend b') flt k = Some c) as (k & Hk & Hr);
    [|by apply (listed_of_key b' flt c k)].
  revert HI. unfold S3.InsertCall, S3.callKey, S3.callMarkerKey.
  unfold S3.validCall in Hc.
  destruct (jsonMarshal c) as [byts|]; [|done].
  destruct (flipCursor (ID c)) as [x|]; [|done].
  destruct Hc as (Hu & Hid & Ha & Hx).
  destruct (Upload _ byts); [done|]. destruct (Upload _ ""); [done|].
  intros [= Eb _].
  assert (b' !! callKeyFlipped (AppID c) x = Some byts) as Hrec.
  { rewrite <- Eb. rewrite lookup_insert_ne by done.
    apply lookup_insert_eq. }
  assert (is_Some (b' !! (callMarkerPrefix +:+ AppID c +:+ "/"
              +:+ EncodeToString (Path c) +:+ "/" +:+ x))) as Hmk.
  { rewrite <- Eb. by rewrite lookup_insert_eq. }
  clear Eb.
  destruct (decide (fPath flt ≠ "")) as [Hp|Hp].
  - destruct Hpath as [?|Hpath]; [done|].
    unfold S3.recordAt, decodeKey, namespaceRoot. rewrite Happ, Hpath.
    rewrite Hpath in Hp. rewrite !decide_True by done.
    exists (callMarkerPrefix +:+ AppID c +:+ "/"
            +:+ EncodeToString (Path c) +:+ "/" +:+ x). split.
    + apply list_elem_of_filter. split.
      * replace (callMarkerPrefix +:+ AppID c +:+ "/"
                 +:+ EncodeToString (Path c) +:+ "/" +:+ x)
          with ((callMarkerPrefix +:+ AppID c +:+ "/"
                 +:+ EncodeToString (Path c) +:+ "/") +:+ x)
          by (by rewrite !app_assoc_s).
        apply prefix_append.
      * by apply elem_of_sortedKeys.
    + rewrite Split_marker by auto using EncodeToString_no_slash.
      rewrite decide_True by done.
      simpl. unfold S3.getCallByKey, bucketBackend. cbn [GetObject].
      by rewrite Hrec, Hu.
  - exists (callKeyFlipped (AppID c) x).
    apply (record_key_leads b' flt c byts x); try done.
    by destruct (decide (fPath flt = "")); [|destruct Hp].
Qed.

(** X24: [InsertCall] can be repeated. Inserting a call once more into
    the bucket that its insert has left, with the same outcome of the
    uploads, leaves the bucket as it is: the record and the marker are
    written again under the same keys. *)
Theorem InsertCall_again (Upload : string → string → option s3err)
    (b b' : gmap string string) (c : Call) (ops : list Op)
    (err : option error) :
  InsertCall Upload b c = Ret (b', ops, err) →
  InsertCall Upload b' c = Ret (b', ops, err).
Proof.
  unfold S3.InsertCall, S3.callKey, S3.callMarkerKey.
  destruct (jsonMarshal c) as [byts|]; [|by intros [= <- <- <-]].
  destruct (flipCursor (ID c)) as [x|]; [|done].
  destruct (Upload _ byts); [by intros [= <- <- <-]|].
  destruct (Upload _ ""); intros [= <- <- <-]; do 2 f_equal.
  - f_equal. apply insert_insert_eq.
  - f_equal. rewrite (insert_insert_ne _ (callKeyFlipped _ _)) by done.
    by rewrite !insert_insert_eq.
Qed.

(** X25: a call whose marker could not be written is hidden from the
    listings by path, and from them only. When [InsertCall] returns the
    error of the marker upload for a call that was not in the store, on a
    bucket of calls fit for the store, every listing with a path returns
    what it returned before, while the listing of the app without a path,
    with no time bound, no cursor and a page size that covers the keys,
    returns the call. *)
Theorem InsertCall_without_marker
    (Upload : string → string → option s3err) (stored : list Call)
    (c : Call) (b' : gmap string string) (ops : list Op) (cause : s3err)
    (flt : CallFilter) :
  Forall validCall stored → validCall c →
  GetCall (bucketBackend (insertAll Upload stored ∅)) (AppID c) (ID c)
  = Ret (Fail ErrCallNotFound) →
  InsertCall Upload (insertAll Upload stored ∅) c
  = Ret (b', ops, Some (ErrMarkerKey cause)) →
  (fPath flt ≠ "" →
   GetCalls (bucketBackend b') flt
   = GetCalls (bucketBackend (insertAll Upload stored ∅)) flt)
  ∧ (fPath flt = "" → fAppID flt = AppID c → AppID c ≠ "" →
     IsZero (FromTime flt) = true → IsZero (ToTime flt) = true →
     Cursor flt = "" →
     (Z.of_nat (length (keysUnder b' (namespaceRoot flt))) ≤ PerPage flt)%Z →
     ∃ calls, (GetCalls (bucketBackend b') flt).2 = Ret (calls, None)
              ∧ c ∈ calls).
Proof.
  intros Hstored Hc Hnew HI.
  set (b := insertAll Upload stored ∅) in *.
  assert (S3.bucketOk MarshalDescending jsonUnmarshal b) as Hb
    by (apply bucketOk_insertAll; [done|apply bucketOk_empty]).
  pose proof (bucketOk_InsertCall MarshalDescending jsonMarshal
                jsonUnmarshal Upload b c Hc Hb) as Hb'.
  rewrite HI in Hb'.
  revert HI Hnew. unfold S3.InsertCall, S3.GetCall, S3.callKey,
    S3.callMarkerKey.
  unfold S3.validCall in Hc.
  destruct (jsonMarshal c) as [byts|]; [|done].
  destruct (flipCursor (ID c)) as [x|]; [|done].
  destruct Hc as (Hu & Hid & Ha & Hx).
  destruct (Upload _ byts); [done|]. destruct (Upload _ ""); [|done].
  intros [= Eb _ _] [= Hnew].
  assert (b !! callKeyFlipped (AppID c) x = None) as Hfresh.
  { destruct (b !! callKeyFlipped (AppID c) x) as [body|] eqn:Hbody;
      [|done].
    destruct (Hb (callKeyFlipped (AppID c) x)) as
      [(app & y & E & _ & _ & (body' & c' & Hb1 & Hu' & _))
      |(app & p & y & E & _)]; [by eexists| |done].
    rewrite <- E in Hb1. unfold S3.getCallByKey in Hnew. simpl in Hnew.
    rewrite Hbody in Hnew. rewrite Hbody in Hb1. injection Hb1 as <-.
    by rewrite Hu' in Hnew. }
  split.
  - intros Hp. symmetry. apply GetCalls_agree. intros P k HP Hk.
    assert (∃ r, k = "m/" +:+ r) as [r ->].
    { apply prefix_app in Hk as [t ->].
      unfold S3.listPrefix in HP.
      destruct (timePrefix IdString flt) as [mid|]; [|done].
      destruct (S3.callKey MarshalDescending (fAppID flt) mid); [|done].
      rewrite decide_True in HP by done.
      apply callMarkerKey_prefix in HP as [y ->]. by eexists. }
    split; [rewrite <- Eb; by rewrite lookup_insert_ne|].
    intros Hin app id Hd. rewrite <- Eb.
    rewrite lookup_insert_ne; [done|]. intros E.
    destruct (Hb _ Hin) as
      [(app' & y & E' & _)
      |(app' & p & y & E' & Ha' & Hp' & Hy & (body' & c' & Hb1 & _))];
      [done|].
    rewrite E' in Hd. unfold decodeKey, markerKeyFlipped in Hd.
    rewrite Split_marker in Hd by done.
    rewrite decide_True in Hd by done. simpl in Hd.
    destruct (decide (4 ≠ 4)); [done|]. injection Hd as <- <-.
    rewrite <- E in Hb1. by rewrite Hfresh in Hb1.
  - intros Hp Happ Hne Hfrom Hto Hcur Hpage.
    assert (b' !! callKeyFlipped (AppID c) x = Some byts) as Hrec
      by (rewrite <- Eb; apply lookup_insert_eq).
    destruct (record_key_leads b' flt c byts x) as [Hk Hr]; try done.
    apply (listed_of_key b' flt c (callKeyFlipped (AppID c) x));
      try done. by rewrite Happ.
Qed.

End OrderedListing.

(** ** The id buffer of a time *)

Section TimeIdFacts.
Import S3.

Lemma byte_value v : N_of_ascii (byte v) = Z.to_N (v mod 256).
Proof.
  unfold byte. apply N_ascii_embedding.
  pose proof (Z.mod_pos_bound v 256). lia.
Qed.

Lemma byte_shift_mod v n k :
  (k < n)%nat →
  byte (Z.shiftr (v mod 2 ^ (8 * Z.of_nat n)) (8 * Z.of_nat k))
  = byte (Z.shiftr v (8 * Z.of_nat k)).
Proof.
  intros Hk. unfold byte. do 2 f_equal.
  change 256%Z with (2 ^ 8)%Z. apply Z.bits_inj'. intros i Hi.
  destruct (Z.lt_ge_cases i 8).
  - rewrite !Z.mod_pow2_bits_low by lia. rewrite !Z.shiftr_spec by lia.
    by rewrite Z.mod_pow2_bits_low by lia.
  - by rewrite !Z.mod_pow2_bits_high by lia.
Qed.

Lemma bigEndianBytes_mod n v :
  bigEndianBytes n (v mod 2 ^ (8 * Z.of_nat n)) = bigEndianBytes n v.
Proof.
  assert (∀ k, (k ≤ n)%nat →
            bigEndianBytes k (v mod 2 ^ (8 * Z.of_nat n))
            = bigEndianBytes k v) as H.
  { induction k as [|k IH]; intros Hk; simpl; [done|].
    rewrite IH by lia. f_equal.
    replace (Z.pos (Pos.of_succ_nat k)) with (Z.of_nat (S k)) by lia.
    change (8 * Z.of_nat k)%Z with (8 * Z.of_nat k)%Z.
    by apply byte_shift_mod. }
  by apply H.
Qed.

(** The big-endian bytes of a number sort as the number does. *)
Lemma bigEndianBytes_lt n v w :
  (0 ≤ v < w)%Z → (w < 2 ^ (8 * Z.of_nat n))%Z →
  slt (bigEndianBytes n v) (bigEndianBytes n w).
Proof.
  unfold slt. revert v w. induction n as [|n IH]; intros v w Hvw Hw.
  - simpl in Hw. lia.
  - cbn [bigEndianBytes String.compare]. unfold Ascii.compare.
    rewrite !byte_value, !Z.shiftr_div_pow2 by lia.
    set (B := (2 ^ (8 * Z.of_nat n))%Z) in *.
    assert (0 < B)%Z as HB by (apply Z.pow_pos_nonneg; lia).
    assert (2 ^ (8 * Z.of_nat (S n)) = 256 * B)%Z as E.
    { subst B. rewrite <- (Z.pow_add_r 2 8) by lia. f_equal. lia. }
    rewrite E in Hw.
    assert (0 ≤ v / B < 256)%Z as Hv
      by (split; [apply Z.div_pos; lia|apply Z.div_lt_upper_bound; lia]).
    assert (0 ≤ w / B < 256)%Z as Hw'
      by (split; [apply Z.div_pos; lia|apply Z.div_lt_upper_bound; lia]).
    rewrite !Z.mod_small by lia.
    assert (v / B ≤ w / B)%Z as Hle by (apply Z.div_le_mono; lia).
    destruct (Z.eq_dec (v / B)%Z (w / B)%Z) as [Heq|Hne].
    + rewrite Heq, N.compare_refl.
      rewrite <- (bigEndianBytes_mod n v), <- (bigEndianBytes_mod n w).
      fold B. apply IH.
      * pose proof (Z.mod_pos_bound v B HB).
        pose proof (Z.div_mod v B ltac:(lia)).
        pose proof (Z.div_mod w B ltac:(lia)). rewrite Heq in *. lia.
      * apply Z.mod_pos_bound. lia.
    + assert (Z.to_N (v / B) < Z.to_N (w / B))%N as Hlt by lia.
      apply N.compare_lt_iff in Hlt. by rewrite Hlt.
Qed.

Lemma slt_append x y z z' :
  String.length x = String.length y → slt x y → slt (x +:+ z) (y +:+ z').
Proof.
  unfold slt. revert y. induction x as [|a x IH]; intros [|b y] Hl; try done.
  simpl. destruct (Ascii.compare a b); try done.
  apply IH. simpl in Hl. lia.
Qed.

Lemma uint64_add a b :
  (0 ≤ a + b < 2 ^ 64)%Z → uint64 (uint64 a + uint64 b) = (a + b)%Z.
Proof.
  intros H. unfold uint64. rewrite <- Zplus_mod. by apply Z.mod_small.
Qed.

Lemma bigEndianBytes_length n v : String.length (bigEndianBytes n v) = n.
Proof. induction n as [|n IH]; simpl; [done|]. by rewrite IH. Qed.

(** X26: the id buffer that [GetCalls] fills from a time sorts as the
    time does. For two times from the Unix epoch on whose millisecond
    counts fit in 48 bits, the buffer of the time with the smaller count
    comes first in byte order; both buffers are 16 bytes long, six bytes of
    the count, most significant first, and ten zero bytes. *)
Theorem timeId_ascending (t u : Time) :
  (0 ≤ Unix t * 1000 + Nanosecond t ÷ 1000000)%Z →
  (Unix t * 1000 + Nanosecond t ÷ 1000000
   < Unix u * 1000 + Nanosecond u ÷ 1000000)%Z →
  (Unix u * 1000 + Nanosecond u ÷ 1000000 < 2 ^ 48)%Z →
  slt (timeId t) (timeId u)
  ∧ timeId t
    = bigEndianBytes 6 (Unix t * 1000 + Nanosecond t ÷ 1000000)
      +:+ copyInto 10 "".
Proof.
  intros H0 Hlt H48.
  assert (∀ w, (0 ≤ Unix w * 1000 + Nanosecond w ÷ 1000000 < 2 ^ 48)%Z →
            timeId w
            = bigEndianBytes 6 (Unix w * 1000 + Nanosecond w ÷ 1000000)
              +:+ copyInto 10 "") as E.
  { intros w Hw. unfold timeId. rewrite uint64_add; [done|].
    change (2 ^ 48)%Z with 281474976710656%Z in Hw.
    change (2 ^ 64)%Z with 18446744073709551616%Z. lia. }
  rewrite !E by lia. split; [|done].
  apply slt_append; [by rewrite !bigEndianBytes_length|].
  apply bigEndianBytes_lt; [lia|]. exact H48.
Qed.

End TimeIdFacts.

(** ** The further properties at the sample data *)

Section Instances.
Import S3.

Local Abbreviation md := Sample.MarshalDescending.
Local Abbreviation ids := Sample.IdString.
Local Abbreviation jm := Sample.jsonMarshal.
Local Abbreviation ju := Sample.jsonUnmarshal.

Lemma New_opens_iff_witness :
  Setup.New Cases.createOk Cases.url = (["my_bucket"], inr Cases.myStore).
Proof.
  apply (proj2 (New_opens_iff Cases.createOk Cases.url ["my_bucket"]
                  Cases.myStore)).
  exists "". repeat split; try reflexivity; discriminate.
Defined.

Lemma New_rejects_path_witness :
  Setup.New Cases.createOk Cases.urlNoRegion
  = ([], inl Setup.ErrNoBucketRegion).
Proof.
  apply (proj1 (New_rejects_path Cases.createOk Cases.urlNoRegion)).
  simpl. lia.
Defined.

Lemma countingReader_counts_witness :
  Logs.count (Logs.readAll Logs.bytesRead [2; 2; 2] Cases.hello).2 = 5%Z.
Proof.
  apply (countingReader_counts Logs.bytesRead [2; 2; 2] Cases.hello).
  simpl. lia.
Defined.

Lemma InsertLog_GetLog_witness :
  ∃ b',
    Logs.InsertLog Sample.uploadOk 4 Sample.bucket3 "a1" "00000001"
                   "hello world"
    = (b', [OpUpload (Logs.logKey "a1" "00000001") "hello world"],
       Some 11%Z, None)
    ∧ Logs.GetLog (bucketBackend b') "a1" "00000001"
      = (inr "hello world", Some 11%Z).
Proof.
  apply (InsertLog_GetLog Sample.uploadOk 4 Sample.bucket3 "a1" "00000001"
           "hello world").
  - lia.
  - reflexivity.
  - simpl. lia.
Defined.

Lemma InsertLog_other_logs_witness :
  Logs.GetLog
    (bucketBackend
       (Logs.InsertLog Sample.uploadOk 4 ∅ "a1" "00000001" "hello").1.1.1)
    "a1" "00000002"
  = Logs.GetLog (bucketBackend ∅) "a1" "00000002".
Proof.
  apply (proj1 (InsertLog_other_logs Sample.uploadOk 4 ∅ "a1" "00000001"
                  "hello" "a1" "00000002"
                  ltac:(reflexivity) ltac:(reflexivity)
                  ltac:(discriminate))).
Defined.

Lemma InsertCall_keeps_logs_witness :
  Logs.GetLog (bucketBackend Cases.logAndCall) "a1" "00000001"
  = Logs.GetLog (bucketBackend Cases.logBucket) "a1" "00000001".
Proof.
  apply (InsertCall_keeps_logs md jm Sample.uploadOk Cases.logBucket
           Cases.logAndCall Sample.call1
           [OpUpload (Sample.key_of Sample.call1) Cases.record1;
            OpUpload Cases.marker1 ""]
           None "a1" "00000001").
  reflexivity.
Defined.

Lemma InsertCall_other_app_witness :
  Sample.GetCalls (bucketBackend Cases.withOther) Sample.listAll
  = Sample.GetCalls (bucketBackend Sample.bucket3) Sample.listAll.
Proof.
  apply (proj1 (InsertCall_other_app md ids jm ju Sample.uploadOk
                  Sample.bucket3 Cases.withOther Cases.other
                  [OpUpload (Sample.key_of Cases.other) Cases.recordOther;
                   OpUpload Cases.markerOther ""]
                  None Sample.listAll
                  ltac:(reflexivity) ltac:(reflexivity)
                  ltac:(discriminate)
                  ltac:(reflexivity))).
Defined.

Lemma GetCalls_within_bounds_witness :
  (IsZero (FromTime Cases.listBefore) = true
   ∨ Before (CreatedAt Sample.call1) (FromTime Cases.listBefore) = false)
  ∧ (IsZero (ToTime Cases.listBefore) = true
     ∨ Before (CreatedAt Sample.call1) (ToTime Cases.listBefore) = true).
Proof.
  apply (GetCalls_within_bounds md ids ju (bucketBackend Sample.bucket3)
           Cases.listBefore [Sample.call3; Sample.call2; Sample.call1]
           None Sample.call1).
  - vm_compute. reflexivity.
  - apply (bool_decide_unpack _). vm_compute. exact I.
Defined.

Lemma GetCalls_page_size_witness :
  (Z.of_nat (length [Sample.call3; Sample.call2]) ≤ 2)%Z
  ∧ (Z.of_nat (length (Sample.GetCalls (bucketBackend Sample.bucket3)
                         Sample.listPaged).1) ≤ 1 + 2)%Z.
Proof.
  apply (GetCalls_page_size md ids ju Sample.bucket3 Sample.listPaged
           [Sample.call3; Sample.call2] None).
  - simpl. lia.
  - vm_compute. reflexivity.
Defined.

Lemma GetCalls_errors_witness :
  (fAppID Sample.listAll = "" ∧ ErrListLogs (PlainError "connection refused")
                                = ErrListAcrossApps ∧ @nil Call = [])
  ∨ (∃ input cause, ListObjects Cases.listDown input = inl cause
                    ∧ ErrListLogs (PlainError "connection refused")
                      = ErrListLogs cause ∧ @nil Call = [])
  ∨ (∃ input contents k,
       ListObjects Cases.listDown input = inr contents ∧ k ∈ contents
       ∧ ErrListLogs (PlainError "connection refused")
         = invalidKey Sample.listAll k
       ∧ length (Split "/" k) ≠ fieldCount Sample.listAll).
Proof.
  apply (GetCalls_errors md ids ju Cases.listDown Sample.listAll []
           (ErrListLogs (PlainError "connection refused"))).
  vm_compute. reflexivity.
Defined.

Lemma InsertCall_GetCall_witness :
  ∃ b' ops err,
    Sample.InsertCall Sample.uploadOk ∅ Sample.call1 = Ret (b', ops, err)
    ∧ (err = None ∨ ∃ cause, err = Some (ErrMarkerKey cause))
    ∧ S3.GetCall md ju (bucketBackend b') "a1" "00000001"
      = Ret (Ok Sample.call1).
Proof.
  apply (InsertCall_GetCall md jm ju Sample.uploadOk ∅ Sample.call1
           "00000001|a1|/f|63656217568|905000000|one"
           (Xor.xorCursor "00000001"));
    vm_compute; reflexivity.
Defined.

Lemma XorStore_GetCalls_colon_free_witness :
  (XorStore.GetCalls ju (bucketBackend Cases.xorBucket) Sample.listAll).2
  = Panic.
Proof.
  rewrite (XorStore_GetCalls_colon_free ju Cases.xorBucket Sample.listAll).
  - reflexivity.
  - intros k [v Hv]. revert k v Hv.
    apply (bool_decide_unpack
             (map_Forall (λ k _, contains ":" k = false) Cases.xorBucket)).
    vm_compute. exact I.
Defined.

Lemma XorStore_GetCalls_after_cursor_witness :
  (XorStore.GetCalls ju (bucketBackend Cases.xorBucket) Cases.listAfter).2
  = Ret ([], None)
  ∧ length (XorStore.GetCalls ju (bucketBackend Cases.xorBucket)
              Cases.listAfter).1 = 1.
Proof.
  apply (XorStore_GetCalls_after_cursor ju Cases.xorBucket Cases.listAfter).
  discriminate.
Defined.

Lemma XorStore_InsertCall_GetCall_witness :
  XorStore.GetCall ju (bucketBackend Cases.xorBucket) "a1" "00000001"
  = Ok Sample.call1.
Proof.
  apply (proj1 (XorStore_InsertCall_GetCall jm ju Sample.uploadOk ∅
                  Sample.call1 Cases.record1
                  ltac:(reflexivity) ltac:(reflexivity)
                  ltac:(reflexivity))).
Defined.

Lemma Old_InsertCall_GetCall_witness :
  Old.GetCall ju (bucketBackend Cases.oldBucket) "a1" "00000001"
  = Ok Sample.call1.
Proof.
  apply (proj1 (Old_InsertCall_GetCall jm ju Sample.uploadOk ∅
                  Sample.call1 Cases.record1
                  ltac:(reflexivity) ltac:(reflexivity)
                  ltac:(reflexivity))).
Defined.

Lemma Old_GetCalls_lists_nothing_witness :
  (Old.GetCalls ju (bucketBackend Cases.oldBucket) Sample.listAll).2
  = Ret ([], None)
  ∧ length (Old.GetCalls ju (bucketBackend Cases.oldBucket)
              Sample.listAll).1 = 1.
Proof.
  apply (Old_GetCalls_lists_nothing ju Cases.oldBucket Sample.listAll).
  apply (Old_InsertCall_keysWritten jm Sample.uploadOk ∅ Sample.call1).
  intros k [v Hv]. rewrite lookup_empty in Hv. discriminate.
Defined.

Lemma GetCalls_ascending_flipped_witness :
  ∃ xs, Forall2 (λ c x, S3.flipCursor md (ID c) = Ret x)
                [Sample.call3; Sample.call2; Sample.call1] xs
        ∧ StronglySorted slt xs.
Proof.
  apply (GetCalls_ascending_flipped md ids jm ju Sample.uploadOk
           [Sample.call1; Sample.call2; Sample.call3] Sample.listAll
           [Sample.call3; Sample.call2; Sample.call1] None).
  - apply (bool_decide_unpack _). vm_compute. exact I.
  - vm_compute. reflexivity.
Defined.

Lemma markers_of_other_paths_witness :
  bool_decide
    (Cases.marker1
     ∈ bucketList Sample.bucket3
         {| MaxKeys := 10; Marker := "";
            Prefix := namespaceRoot Cases.listPathG |}) = false.
Proof.
  apply bool_decide_eq_false_2.
  apply (markers_of_other_paths md ids Sample.bucket3 Cases.listPathG
           (namespaceRoot Cases.listPathG) "a1" "/f" "00000001"
           Cases.marker1 "" 10);
    try reflexivity; discriminate.
Defined.

Lemma ids_beyond_16_bytes_witness :
  S3.callKey md "a1" ("0123456789ABCDEF" +:+ "xx")
  = S3.callKey md "a1" ("0123456789ABCDEF" +:+ "yy")
  ∧ S3.callMarkerKey md "a1" "/f" ("0123456789ABCDEF" +:+ "xx")
    = S3.callMarkerKey md "a1" "/f" ("0123456789ABCDEF" +:+ "yy")
  ∧ S3.GetCall md ju (bucketBackend Sample.bucket3) "a1"
      ("0123456789ABCDEF" +:+ "xx")
    = S3.GetCall md ju (bucketBackend Sample.bucket3) "a1"
        ("0123456789ABCDEF" +:+ "yy").
Proof.
  apply (ids_beyond_16_bytes md ju (bucketBackend Sample.bucket3) "a1" "/f"
           "0123456789ABCDEF" "xx" "yy"); reflexivity.
Defined.

Lemma InsertCall_is_listed_witness :
  ∃ calls,
    (Sample.GetCalls (bucketBackend Cases.withCall4) Cases.listPathH).2
    = Ret (calls, None)
    ∧ Cases.call4 ∈ calls.
Proof.
  apply (InsertCall_is_listed md ids jm ju Sample.uploadOk
           [Sample.call1; Sample.call2; Sample.call3] Cases.call4
           Cases.withCall4
           [OpUpload (Sample.key_of Cases.call4) Cases.record4;
            OpUpload Cases.marker4 ""]
           Cases.listPathH).
  - apply (bool_decide_unpack _). vm_compute. exact I.
  - apply (bool_decide_unpack _). vm_compute. exact I.
  - reflexivity.
  - reflexivity.
  - discriminate.
  - right. reflexivity.
  - reflexivity.
  - reflexivity.
  - reflexivity.
  - vm_compute. discriminate.
Defined.

Lemma timeId_ascending_witness :
  slt (timeId Sample.t0) (timeId (Sample.at_ms 1))
  ∧ timeId Sample.t0
    = bigEndianBytes 6 (Unix Sample.t0 * 1000
                        + Nanosecond Sample.t0 ÷ 1000000)
      +:+ copyInto 10 "".
Proof.
  apply (timeId_ascending Sample.t0 (Sample.at_ms 1)).
  - vm_compute. discriminate.
  - reflexivity.
  - reflexivity.
Defined.

Lemma InsertCall_again_witness :
  Sample.InsertCall Sample.uploadOk Cases.logAndCall Sample.call1
  = Ret (Cases.logAndCall,
         [OpUpload (Sample.key_of Sample.call1) Cases.record1;
          OpUpload Cases.marker1 ""], None).
Proof.
  apply (InsertCall_again md jm Sample.uploadOk Cases.logBucket
           Cases.logAndCall Sample.call1
           [OpUpload (Sample.key_of Sample.call1) Cases.record1;
            OpUpload Cases.marker1 ""] None).
  reflexivity.
Defined.

Lemma InsertCall_without_marker_witness :
  Sample.GetCalls (bucketBackend Cases.withRecord3) Cases.listPathG
  = Sample.GetCalls (bucketBackend Cases.recordsOnly) Cases.listPathG.
Proof.
  refine (proj1 (InsertCall_without_marker md ids jm ju Cases.uploadRecords
                   [Sample.call1; Sample.call2] Sample.call3
                   Cases.withRecord3
                   [OpUpload (Sample.key_of Sample.call3) Cases.record3;
                    OpUpload Cases.marker3 ""]
                   (PlainError "slow down") Cases.listPathG _ _ _ _) _).
  - apply (bool_decide_unpack _). vm_compute. exact I.
  - apply (bool_decide_unpack _). vm_compute. exact I.
  - vm_compute. reflexivity.
  - reflexivity.
  - discriminate.
Defined.

Lemma GetCalls_Panic_iff_witness :
  (Sample.GetCalls (bucketBackend Sample.bucket3) Cases.listLongCursor).2
  = Panic
  ∧ (Sample.GetCalls (bucketBackend Sample.bucket3) Cases.listLongCursor).1
    = [].
Proof.
  destruct (GetCalls_Panic_iff md ids ju (bucketBackend Sample.bucket3)
              Cases.listLongCursor (bucketList_prefix Sample.bucket3))
    as [Hiff Htrace].
  assert ((Sample.GetCalls (bucketBackend Sample.bucket3)
             Cases.listLongCursor).2 = Panic) as HP.
  { apply Hiff. split; [discriminate|]. right. split; [discriminate|].
    simpl. lia. }
  split; [exact HP|exact (Htrace HP)].
Defined.

End Instances.
